(** * Parsec client-side storage core: ContentBuilder, File engine, AESKey

    Shallow embedding of [parsec/core/file.py] and of the symmetric part of
    [parsec/crypto.py], with the properties of the storage-core
    specification stated and settled against the embedded code. *)

From Stdlib Require Import ZArith Lia Bool List.
From Stdlib Require Import Strings.String Strings.Ascii Strings.Byte.
From stdpp Require Import base option list gmap strings.

Local Open Scope Z_scope.

(** ** Python values *)

(** [bytes] objects. *)
Abbreviation bytes := (list byte).

#[global] Instance byte_eq_decision : EqDecision byte := Byte.byte_eq_dec.

(** Byte-string literals: [b"hello"] is [bs "hello"]. *)
Definition bs (s : string) : bytes := list_byte_of_string s.

(** [len(x)] as a Python integer. *)
Definition len {A} (l : list A) : Z := Z.of_nat (length l).

(** Python slice bounds: a negative bound counts from the end, and every
    bound is clamped to [0, len]. *)
Definition py_index (n i : Z) : Z :=
  if i <? 0 then Z.max (i + n) 0 else Z.min i n.

(** [l[i:]] *)
Definition slice_from {A} (i : Z) (l : list A) : list A :=
  drop (Z.to_nat (py_index (len l) i)) l.

(** [l[:j]] *)
Definition slice_to {A} (j : Z) (l : list A) : list A :=
  take (Z.to_nat (py_index (len l) j)) l.

(** [l[i:j]] *)
Definition slice {A} (i j : Z) (l : list A) : list A :=
  let a := py_index (len l) i in
  let b := py_index (len l) j in
  take (Z.to_nat (b - a)) (drop (Z.to_nat a) l).

(** [range(0, stop, step)] for a positive [step]. *)
Definition py_range0 (stop step : Z) : list Z :=
  map (fun k => Z.of_nat k * step) (seq 0 (Z.to_nat ((stop + step - 1) / step))).

(** ** Insertion-ordered dictionaries

    [ContentBuilder.contents] is a [dict] that is iterated while the loop
    body rebinds [offset], so the iteration order (insertion order) is part
    of the behaviour: the dictionary is an association list with unique keys. *)
Module PyDict.

Definition t (V : Type) := list (Z * V).

(** [del d[k]] (the key is present at every call site of the source). *)
Definition del {V} (k : Z) (d : t V) : t V :=
  List.filter (fun e => negb (fst e =? k)) d.

(** [d[k] = v]: an existing key keeps its position, a new key goes last. *)
Fixpoint set {V} (k : Z) (v : V) (d : t V) : t V :=
  match d with
  | [] => [(k, v)]
  | (k', v') :: d' => if k' =? k then (k, v) :: d' else (k', v') :: set k v d'
  end.

Definition keys {V} (d : t V) : list Z := map fst d.

End PyDict.

(** ** ContentBuilder *)
Module ContentBuilder.

(** [self.contents] *)
Definition t := PyDict.t bytes.

(** [__init__] *)
Definition init : t := [].

(** The variables the loop of [write] rebinds. *)
Record write_state := WriteState {
  ws_offset : Z;
  ws_new_data : bytes;
  ws_offsets_to_delete : list Z
}.

(** One iteration of [for current_offset in self.contents] in [write].
    [end_offset] is computed once before the loop and not updated when
    [offset] is rebound. *)
Definition write_step (data : bytes) (end_offset : Z)
    (st : write_state) (entry : Z * bytes) : write_state :=
  let current_offset := fst entry in
  let current_content := snd entry in
  let offset := ws_offset st in
  (* Insert inside *)
  if (offset >=? current_offset)
     && (end_offset <=? current_offset + len current_content) then
    WriteState current_offset
      (slice_to (offset - current_offset) current_content
         ++ data
         ++ slice_from (offset - current_offset + len data) current_content)
      (ws_offsets_to_delete st)
  (* Insert before and merge *)
  else if (offset <=? current_offset) && (end_offset >=? current_offset) then
    WriteState offset
      (data ++ slice_from (offset + len data - current_offset) current_content)
      (ws_offsets_to_delete st ++ [current_offset])
  (* Insert after *)
  else if offset =? current_offset + len current_content then
    WriteState current_offset
      (slice_to offset current_content ++ ws_new_data st)
      (ws_offsets_to_delete st)
  else st.

Definition write_loop (data : bytes) (offset : Z) (contents : t) : write_state :=
  fold_left (write_step data (offset + len data)) contents
            (WriteState offset data []).

(** [write(self, data, offset)] *)
Definition write (data : bytes) (offset : Z) (contents : t) : t :=
  let st := write_loop data offset contents in
  let contents' :=
    fold_left (fun d k => PyDict.del k d) (ws_offsets_to_delete st) contents in
  PyDict.set (ws_offset st) (ws_new_data st) contents'.

(** The body of the loop of [truncate] on one entry that is kept. *)
Definition truncate_entry (length : Z) (entry : Z * bytes) : Z * bytes :=
  let current_offset := fst entry in
  if current_offset >? length then entry
  else if current_offset + len (snd entry) >? length then
    (current_offset, slice_to (length - current_offset) (snd entry))
  else entry.

(** [truncate(self, length)] *)
Definition truncate (length : Z) (contents : t) : t :=
  let offsets_to_delete :=
    PyDict.keys (List.filter (fun e => fst e >? length) contents) in
  fold_left (fun d k => PyDict.del k d) offsets_to_delete
            (map (truncate_entry length) contents).

(** No two stored regions overlap. *)
Definition no_overlap (contents : t) : Prop :=
  forall o1 c1 o2 c2,
    (o1, c1) ∈ contents -> (o2, c2) ∈ contents -> o1 < o2 -> o1 + len c1 <= o2.

Definition overlapb (e1 e2 : Z * bytes) : bool :=
  (fst e1 <? fst e2) && (fst e2 <? fst e1 + len (snd e1)).

Definition no_overlapb (contents : t) : bool :=
  forallb (fun e1 => forallb (fun e2 => negb (overlapb e1 e2)) contents) contents.

End ContentBuilder.

(** ** Pending operations and the reference buffer *)

(** An entry of [File.modifications]: [(self.write, data, offset)] or
    [(self.truncate, length)]. *)
Inductive modification :=
| MWrite (data : bytes) (offset : Z)
| MTruncate (length : Z).

(** The reference in-memory buffer of the specification: a write splices
    the bytes at their offset ([buf[offset:offset+len(data)] = data]), a
    truncate cuts the buffer ([del buf[length:]]). *)
Module Reference.

Definition apply (buf : bytes) (m : modification) : bytes :=
  match m with
  | MWrite data offset =>
      slice_to offset buf ++ data ++ slice_from (offset + len data) buf
  | MTruncate length => slice_to length buf
  end.

Definition run (ops : list modification) : bytes := fold_left apply ops [].

(** Every write starts inside the buffer or at its end (no sparse growth),
    and every offset and length is non-negative. *)
Fixpoint dense_from (buf : bytes) (ops : list modification) : bool :=
  match ops with
  | [] => true
  | m :: ops' =>
      match m with
      | MWrite _ offset => (0 <=? offset) && (offset <=? len buf)
      | MTruncate length => 0 <=? length
      end && dense_from (apply buf m) ops'
  end.

Definition dense (ops : list modification) : bool := dense_from [] ops.

End Reference.

(** ** Identifiers, seeds and vlob payloads *)

(** Block and vlob identifiers and trust seeds are opaque tokens chosen by
    the store; the engine only stores, compares and forwards them. *)
Abbreviation ident := nat.
Abbreviation seed := nat.

(** [{'block': id, 'digest': ..., 'size': ...}] *)
Record BlockMeta := mkBlockMeta {
  block : ident;
  bm_digest : string;
  bm_size : Z
}.

(** [{'blocks': [...], 'key': ...}] *)
Record BlockGroup := mkBlockGroup {
  blocks : list BlockMeta;
  key : string
}.

#[global] Instance BlockMeta_eq_dec : EqDecision BlockMeta.
Proof. solve_decision. Defined.
#[global] Instance BlockGroup_eq_dec : EqDecision BlockGroup.
Proof. solve_decision. Defined.

(** ** Primitives the embedded code calls but does not define

    The AES-GCM primitive of the [cryptography] package and the helpers of
    [parsec.tools] ([digest], [to_jsonb64], [from_jsonb64], [ejson_dumps],
    [ejson_loads]) are parameters of the development. *)
Class Externals := {
  (** [Cipher(AES(key), GCM(iv)).encryptor()]: [update(pt) + finalize()] and [tag]. *)
  gcm_encrypt : bytes -> bytes -> bytes -> bytes * bytes;
  (** [Cipher(AES(key), GCM(iv, tag)).decryptor()]: [update(ct) + finalize()],
      [None] when the library raises. *)
  gcm_decrypt : bytes -> bytes -> bytes -> bytes -> option bytes;
  digest : bytes -> string;
  to_jsonb64 : bytes -> string;
  from_jsonb64 : string -> option bytes;
  (** [ejson_dumps(blob).encode()] on a vlob payload. *)
  ejson_dumps : list BlockGroup -> bytes;
  (** [ejson_loads(blob.decode())] on a vlob payload. *)
  ejson_loads : bytes -> option (list BlockGroup)
}.

(** What the embedded code relies on from AES-GCM: the tag is 16 bytes, the
    ciphertext is as long as the plaintext (no padding), and decryption
    under the same key, IV and tag returns the plaintext. *)
Record GCMLaws (E : Externals) : Prop := {
  gcm_tag_length : forall k iv pt, length (snd (gcm_encrypt k iv pt)) = 16%nat;
  gcm_ct_length : forall k iv pt, length (fst (gcm_encrypt k iv pt)) = length pt;
  gcm_roundtrip : forall k iv pt,
    gcm_decrypt k iv (snd (gcm_encrypt k iv pt)) (fst (gcm_encrypt k iv pt)) = Some pt
}.

(** What the embedded code relies on from [to_jsonb64] and [from_jsonb64]. *)
Record Base64Laws (E : Externals) : Prop := {
  jsonb64_roundtrip : forall b, from_jsonb64 (to_jsonb64 b) = Some b
}.

(** ** Exceptions and results *)
Inductive exn :=
| BlockNotFound
| VlobNotFound
| FileError (status : string)
| InvalidTag
| AssertionError
| KeyError
| ValueError
| VersionConflict
| TrustSeedError.

#[global] Instance exn_eq_dec : EqDecision exn.
Proof. solve_decision. Defined.

Inductive result (A : Type) :=
| Ok (a : A)
| Raise (e : exn).
Arguments Ok {A} a.
Arguments Raise {A} e.

Definition of_option {A} (e : exn) (o : option A) : result A :=
  match o with Some a => Ok a | None => Raise e end.

(** ** Randomness

    [os.urandom] draws from a source of bytes; the source is a function from
    positions to bytes, so a statement over all sources covers all outcomes. *)
Definition entropy := nat -> byte.

Definition urandom (n : Z) (rnd : entropy) : bytes * entropy :=
  (map rnd (seq 0 (Z.to_nat n)), fun i => rnd (Z.to_nat n + i)%nat).

(** ** parsec/crypto.py: symmetric keys *)
Module AES.
(** [AES.block_size], in bits. *)
Definition block_size : Z := 128.
(** [AES.key_sizes], in bits. *)
Definition key_sizes : list Z := [128; 192; 256].
End AES.

Record AESKey := mkAESKey { _hazmat_key : bytes }.

Module Crypto.
Section Crypto.
Context {E : Externals}.

(** [AESKey(key)]: [self._hazmat_key = AES(key)], where [AES(key)] raises
    [ValueError] unless the key has one of the sizes of [AES.key_sizes]
    (16, 24 or 32 bytes). *)
Definition AESKey_init (key : bytes) : result AESKey :=
  if bool_decide (len key * 8 ∈ AES.key_sizes) then Ok (mkAESKey key)
  else Raise ValueError.

(** [load_sym_key(raw_key)] *)
Definition load_sym_key (raw_key : bytes) : result AESKey := AESKey_init raw_key.

(** [generate_sym_key()]: a 256-bit key. [AESKey(raw_key)] cannot raise
    here, the key drawn has 32 bytes ([generate_sym_key_accepted]). *)
Definition generate_sym_key (rnd : entropy) : AESKey * entropy :=
  let '(raw_key, rnd') := urandom 32 rnd in
  (mkAESKey raw_key, rnd').

(** [AESKey.key] *)
Definition key_of (k : AESKey) : bytes := _hazmat_key k.

(** [AESKey.encrypt(cleartext)] *)
Definition encrypt (k : AESKey) (cleartext : bytes) (rnd : entropy)
  : bytes * entropy :=
  let '(iv, rnd') := urandom (AES.block_size / 8) rnd in
  let '(enc, tag) := gcm_encrypt (_hazmat_key k) iv cleartext in
  (iv ++ enc ++ tag, rnd').

(** [AESKey.decrypt(ciphertext)] *)
Definition decrypt (k : AESKey) (ciphertext : bytes) : result bytes :=
  let iv := slice_to (AES.block_size / 8) ciphertext in
  let tag := slice_from (-16) ciphertext in
  of_option InvalidTag
    (gcm_decrypt (_hazmat_key k) iv tag (slice 16 (-16) ciphertext)).

End Crypto.
End Crypto.

(** ** Effects requested from the synchronizer

    The intents of [parsec.core.synchronizer] that [file.py] yields. *)
Inductive effect :=
| EVlobCreate (blob : string)
| EVlobList
| EVlobRead (id : ident) (trust_seed : seed) (version : option Z)
| EVlobUpdate (id : ident) (trust_seed : seed) (version : Z) (blob : string)
| EVlobDelete (id : ident)
| EVlobSynchronize (id : ident)
| EBlockCreate (content : string)
| EBlockSynchronize (id : ident)
| EBlockRead (id : ident)
| EBlockDelete (id : ident).

#[global] Instance effect_eq_dec : EqDecision effect.
Proof. solve_decision. Defined.

(** Answer to [EVlobCreate], and to [EVlobSynchronize] when the identity changes. *)
Record vlob_access := mkVlobAccess {
  va_id : ident;
  va_read_trust_seed : seed;
  va_write_trust_seed : seed
}.

(** Answer to [EVlobRead]. *)
Record vlob_atom := mkVlobAtom {
  vlob_id : ident;
  vlob_blob : string;
  vlob_version : Z
}.

(** Answer to [EVlobSynchronize]: falsy, [True], or a new identity. *)
Inductive sync_answer :=
| SyncNothing
| SyncSame
| SyncNew (v : vlob_access).

(** ** The synchronizer and the block and vlob stores

    [parsec/core/synchronizer.py] is not part of the embedded sources; its
    behaviour is taken from sections 4.2, 4.3 and 4.5 of the specification. *)
Module Synchronizer.

(** Modelled from the spec: a vlob update buffered before synchronization
    (section 4.5, "updates overwrite the local staged blob"). *)
Record staged_vlob := mkStaged {
  sv_read_trust_seed : seed;
  sv_write_trust_seed : seed;
  sv_version : Z;
  sv_blob : string
}.

(** Modelled from the spec: a vlob of the backend, with its trust seeds and
    its versions 1, 2, ... in order (section 3, Vlob). *)
Record backend_vlob := mkBackendVlob {
  bv_read_trust_seed : seed;
  bv_write_trust_seed : seed;
  bv_blobs : list string
}.

(** Modelled from the spec: the write-back cache in front of the block and
    vlob stores (section 4.5), and the source of fresh identifiers. *)
Record t := mk {
  local_blocks : gmap ident string;
  local_vlobs : gmap ident staged_vlob;
  backend_blocks : gmap ident string;
  backend_vlobs : gmap ident backend_vlob;
  next_id : ident
}.

(** Modelled from the spec: the synchronizer of a new session, nothing
    buffered and an empty backend. *)
Definition empty : t := mk ∅ ∅ ∅ ∅ 0%nat.

(** Modelled from the spec: the committed version of a vlob, 0 when the
    backend has never seen it (section 4.3). *)
Definition committed_version (id : ident) (s : t) : Z :=
  match backend_vlobs s !! id with
  | Some bv => len (bv_blobs bv)
  | None => 0
  end.

(** Modelled from the spec: [BlockCreate] is served locally and assigns a
    fresh id (sections 4.2 and 4.5). *)
Definition block_create (content : string) (s : t) : result ident * t :=
  let id := next_id s in
  (Ok id,
   mk (<[id := content]> (local_blocks s)) (local_vlobs s)
      (backend_blocks s) (backend_vlobs s) (S id)).

(** Modelled from the spec: [BlockRead] consults the local cache first and
    fails with [BlockNotFound] if the id is unknown (sections 4.2, 4.5). *)
Definition block_read (id : ident) (s : t) : result string * t :=
  match local_blocks s !! id with
  | Some content => (Ok content, s)
  | None => (of_option BlockNotFound (backend_blocks s !! id), s)
  end.

(** Modelled from the spec: [BlockDelete] removes the buffered block and
    fails with [BlockNotFound] otherwise (section 4.2; [File.discard]
    reads that failure as "already synchronized"). *)
Definition block_delete (id : ident) (s : t) : result unit * t :=
  match local_blocks s !! id with
  | Some _ =>
      (Ok tt,
       mk (delete id (local_blocks s)) (local_vlobs s)
          (backend_blocks s) (backend_vlobs s) (next_id s))
  | None => (Raise BlockNotFound, s)
  end.

(** Modelled from the spec: [BlockSynchronize] promotes a locally created
    block to the backend and is a no-op if it is already durable
    (section 4.2). *)
Definition block_synchronize (id : ident) (s : t) : result unit * t :=
  match local_blocks s !! id with
  | Some content =>
      (Ok tt,
       mk (delete id (local_blocks s)) (local_vlobs s)
          (<[id := content]> (backend_blocks s)) (backend_vlobs s) (next_id s))
  | None =>
      match backend_blocks s !! id with
      | Some _ => (Ok tt, s)
      | None => (Raise BlockNotFound, s)
      end
  end.

(** Modelled from the spec: [VlobCreate] is served locally, with a fresh id
    and fresh seeds, at initial version 1 (sections 4.3 and 4.5). *)
Definition vlob_create (blob : string) (s : t) : result vlob_access * t :=
  let id := next_id s in
  let rts := S id in
  let wts := S (S id) in
  (Ok (mkVlobAccess id rts wts),
   mk (local_blocks s) (<[id := mkStaged rts wts 1 blob]> (local_vlobs s))
      (backend_blocks s) (backend_vlobs s) (S (S (S id)))).

(** Modelled from the spec: a read of the backend returns the largest
    version not above the requested one, or the current version if none is
    requested (section 3, Vlob). *)
Definition backend_read (id : ident) (trust_seed : seed) (version : option Z)
    (s : t) : result vlob_atom :=
  match backend_vlobs s !! id with
  | None => Raise VlobNotFound
  | Some bv =>
      if negb (bool_decide (bv_read_trust_seed bv = trust_seed)) then
        Raise TrustSeedError
      else
        let current := len (bv_blobs bv) in
        let v := match version with
                 | None => current
                 | Some v => Z.min v current
                 end in
        if v <? 1 then Raise VlobNotFound
        else
          match bv_blobs bv !! Z.to_nat (v - 1) with
          | Some blob => Ok (mkVlobAtom id blob v)
          | None => Raise VlobNotFound
          end
  end.

(** Modelled from the spec: [VlobRead] consults the local cache first
    (section 4.5): the staged version answers when no version is requested
    or when it is not above the requested one. *)
Definition vlob_read (id : ident) (trust_seed : seed) (version : option Z)
    (s : t) : result vlob_atom * t :=
  match local_vlobs s !! id with
  | Some sv =>
      if negb (bool_decide (sv_read_trust_seed sv = trust_seed)) then
        (Raise TrustSeedError, s)
      else if match version with
              | None => true
              | Some v => sv_version sv <=? v
              end then
        (Ok (mkVlobAtom id (sv_blob sv) (sv_version sv)), s)
      else (backend_read id trust_seed version s, s)
  | None => (backend_read id trust_seed version s, s)
  end.

(** Modelled from the spec: the seeds of a vlob known locally or to the
    backend. *)
Definition seeds_of (id : ident) (s : t) : option (seed * seed) :=
  match local_vlobs s !! id with
  | Some sv => Some (sv_read_trust_seed sv, sv_write_trust_seed sv)
  | None =>
      match backend_vlobs s !! id with
      | Some bv => Some (bv_read_trust_seed bv, bv_write_trust_seed bv)
      | None => None
      end
  end.

(** Modelled from the spec: [VlobUpdate] fails with [VlobNotFound] on an
    unknown id, with [TrustSeedError] on a seed mismatch and with
    [VersionConflict] unless the version is the committed one plus one;
    otherwise it overwrites the staged blob (sections 4.3 and 4.5). *)
Definition vlob_update (id : ident) (trust_seed : seed) (version : Z)
    (blob : string) (s : t) : result unit * t :=
  match seeds_of id s with
  | None => (Raise VlobNotFound, s)
  | Some (rts, wts) =>
      if negb (bool_decide (wts = trust_seed)) then (Raise TrustSeedError, s)
      else if negb (version =? committed_version id s + 1) then
        (Raise VersionConflict, s)
      else
        (Ok tt,
         mk (local_blocks s)
            (<[id := mkStaged rts wts version blob]> (local_vlobs s))
            (backend_blocks s) (backend_vlobs s) (next_id s))
  end.

(** Modelled from the spec: [VlobDelete] removes the buffered vlob and fails
    with [VlobNotFound] otherwise (section 4.3; [File.discard] reads that
    failure as "already synchronized"). *)
Definition vlob_delete (id : ident) (s : t) : result unit * t :=
  match local_vlobs s !! id with
  | Some _ =>
      (Ok tt,
       mk (local_blocks s) (delete id (local_vlobs s))
          (backend_blocks s) (backend_vlobs s) (next_id s))
  | None => (Raise VlobNotFound, s)
  end.

(** Modelled from the spec: [VlobList] answers the locally dirty vlob ids
    (section 4.3). *)
Definition vlob_list (s : t) : result (gset ident) * t :=
  (Ok (dom (local_vlobs s)), s).

(** Modelled from the spec: [VlobSynchronize] pushes the buffered version;
    it answers nothing when nothing is buffered, [True] when the same
    identity is promoted, and a new identity with new seeds when the
    backend has never seen the id (section 4.3). *)
Definition vlob_synchronize (id : ident) (s : t) : result sync_answer * t :=
  match local_vlobs s !! id with
  | None => (Ok SyncNothing, s)
  | Some sv =>
      match backend_vlobs s !! id with
      | Some bv =>
          (Ok SyncSame,
           mk (local_blocks s) (delete id (local_vlobs s)) (backend_blocks s)
              (<[id := mkBackendVlob (bv_read_trust_seed bv)
                         (bv_write_trust_seed bv)
                         (bv_blobs bv ++ [sv_blob sv])]> (backend_vlobs s))
              (next_id s))
      | None =>
          let id' := next_id s in
          let rts := S id' in
          let wts := S (S id') in
          (Ok (SyncNew (mkVlobAccess id' rts wts)),
           mk (local_blocks s) (delete id (local_vlobs s)) (backend_blocks s)
              (<[id' := mkBackendVlob rts wts [sv_blob sv]]> (backend_vlobs s))
              (S (S (S id'))))
      end
  end.

(** Modelled from the spec: a block is stored, buffered or durable
    (section 3, Block). *)
Definition block_known (id : ident) (s : t) : bool :=
  bool_decide (is_Some (local_blocks s !! id))
  || bool_decide (is_Some (backend_blocks s !! id)).

End Synchronizer.

(** ** File handles, the registry and the state of a session *)

(** The attributes of a [File] object. *)
Record File := mkFile {
  file_id : ident;
  read_trust_seed : seed;
  write_trust_seed : seed;
  encryptor : AESKey;
  file_version : Z;
  dirty : bool;
  modifications : list modification
}.

(** [File()]: an object whose attributes are assigned later. *)
Definition File_new : File := mkFile 0%nat 0%nat 0%nat (mkAESKey []) 0 false [].

(** Addresses of [File] objects: the registry and the callers hold
    references to the same mutable object. *)
Abbreviation addr := nat.

Record World := mkWorld {
  (** the allocated [File] objects *)
  heap : list File;
  (** the class attribute [File.files] *)
  files : gmap ident addr;
  (** the synchronizer behind the effects *)
  sync : Synchronizer.t;
  (** the outcomes of [os.urandom] still to come *)
  rnd : entropy;
  (** the effects performed so far, oldest first *)
  trace : list effect
}.

Definition World_init (r : entropy) : World :=
  mkWorld [] ∅ Synchronizer.empty r [].

(** ** The monad of generators decorated with [@do]: state and exceptions *)
Definition M (A : Type) : Type := World -> result A * World.

Definition ret {A} (a : A) : M A := fun w => (Ok a, w).

Definition bind {A B} (m : M A) (k : A -> M B) : M B :=
  fun w =>
    match m w with
    | (Ok a, w') => k a w'
    | (Raise e, w') => (Raise e, w')
    end.

Definition raise {A} (e : exn) : M A := fun w => (Raise e, w).

(** [try: m except e: h] *)
Definition try_except {A} (m : M A) (e : exn) (h : M A) : M A :=
  fun w =>
    match m w with
    | (Raise e', w') => if bool_decide (e' = e) then h w' else (Raise e', w')
    | r => r
    end.

Definition lift_result {A} (r : result A) : M A := fun w => (r, w).

Notation "'let*' x ':=' m 'in' k" := (bind m (fun x => k))
  (at level 10, x pattern, m at level 100, k at level 200).
Notation "m ';;' k" := (bind m (fun _ => k))
  (at level 100, k at level 200, right associativity).

(** [for x in xs: st = body(st, x)] *)
Fixpoint for_each {S X} (body : S -> X -> M S) (xs : list X) (st : S) : M S :=
  match xs with
  | [] => ret st
  | x :: xs' => let* st' := body st x in for_each body xs' st'
  end.

(** [yield Effect(intent)]: the request is recorded and resolved by the
    synchronizer. *)
Definition perform {A} (eff : effect)
    (handler : Synchronizer.t -> result A * Synchronizer.t) : M A :=
  fun w =>
    let '(r, s') := handler (sync w) in
    (r, mkWorld (heap w) (files w) s' (rnd w) (trace w ++ [eff])).

(** Drawing from [os.urandom]. *)
Definition with_entropy {A} (f : entropy -> A * entropy) : M A :=
  fun w =>
    let '(a, r') := f (rnd w) in
    (Ok a, mkWorld (heap w) (files w) (sync w) r' (trace w)).

(** Reading and assigning the attributes of the object at [self]. *)
Definition get_self (self : addr) : M File :=
  fun w => (of_option KeyError (heap w !! self), w).

Definition set_self (self : addr) (f : File -> File) : M unit :=
  fun w =>
    (Ok tt, mkWorld (alter f self (heap w)) (files w) (sync w) (rnd w) (trace w)).

(** [self = File()] *)
Definition alloc_file : M addr :=
  fun w =>
    (Ok (length (heap w)),
     mkWorld (heap w ++ [File_new]) (files w) (sync w) (rnd w) (trace w)).

(** Access to [File.files]. *)
Definition registry_lookup (id : ident) : M (option addr) :=
  fun w => (Ok (files w !! id), w).

(** [File.files[id] = self] *)
Definition registry_set (id : ident) (self : addr) : M unit :=
  fun w =>
    (Ok tt, mkWorld (heap w) (<[id := self]> (files w)) (sync w) (rnd w) (trace w)).

(** [del File.files[id]] *)
Definition registry_del (id : ident) : M unit :=
  fun w =>
    match files w !! id with
    | Some _ =>
        (Ok tt, mkWorld (heap w) (delete id (files w)) (sync w) (rnd w) (trace w))
    | None => (Raise KeyError, w)
    end.

Definition set_dirty (b : bool) (f : File) : File :=
  mkFile (file_id f) (read_trust_seed f) (write_trust_seed f) (encryptor f)
         (file_version f) b (modifications f).
Definition set_version (v : Z) (f : File) : File :=
  mkFile (file_id f) (read_trust_seed f) (write_trust_seed f) (encryptor f)
         v (dirty f) (modifications f).
Definition set_modifications (ms : list modification) (f : File) : File :=
  mkFile (file_id f) (read_trust_seed f) (write_trust_seed f) (encryptor f)
         (file_version f) (dirty f) ms.
Definition set_encryptor (k : AESKey) (f : File) : File :=
  mkFile (file_id f) (read_trust_seed f) (write_trust_seed f) k
         (file_version f) (dirty f) (modifications f).
Definition set_access (v : vlob_access) (f : File) : File :=
  mkFile (va_id v) (va_read_trust_seed v) (va_write_trust_seed v) (encryptor f)
         (file_version f) (dirty f) (modifications f).

(** ** parsec/core/file.py: the File engine *)

(** The dictionary returned by [_find_matching_blocks]. *)
Record matching_blocks := mkMatching {
  pre_excluded_blocks : list BlockGroup;
  pre_excluded_data : bytes;
  pre_included_data : bytes;
  included_blocks : list BlockGroup;
  post_included_data : bytes;
  post_excluded_data : bytes;
  post_excluded_blocks : list BlockGroup
}.

(** The dictionary returned by [get_vlob]. *)
Record vlob_descr := mkVlobDescr {
  vd_id : ident;
  vd_read_trust_seed : seed;
  vd_write_trust_seed : seed;
  vd_key : string
}.

(** The value returned by [commit]: what [EVlobSynchronize] answered, or
    [get_vlob()] after a change of identity. *)
Inductive commit_result :=
| CommitNothing
| CommitTrue
| CommitVlob (v : vlob_descr).

(** [sys.maxsize] *)
Definition sys_maxsize : Z := 2 ^ 63 - 1.

(** [chunk_size] of [_build_file_blocks]. *)
Definition chunk_size : Z := 4096.

(** [[data[i:i + chunk_size] for i in range(0, len(data), chunk_size)]],
    with one empty chunk forced when the data is empty. *)
Definition make_chunks (data : bytes) : list bytes :=
  let chunks :=
    map (fun i => slice i (i + chunk_size) data) (py_range0 (len data) chunk_size) in
  match chunks with
  | [] => [[]]
  | _ => chunks
  end.

(** [groups[-1]['blocks'].append(bp)] when the last group has the key,
    [groups.append({'blocks': [bp], 'key': block_key})] otherwise. *)
Fixpoint append_block (groups : list BlockGroup) (block_key : string)
    (bp : BlockMeta) : list BlockGroup :=
  match groups with
  | [] => [mkBlockGroup [bp] block_key]
  | g :: gs =>
      match gs with
      | [] =>
          if bool_decide (key g = block_key)
          then [mkBlockGroup (blocks g ++ [bp]) (key g)]
          else [g; mkBlockGroup [bp] block_key]
      | _ => g :: append_block gs block_key bp
      end
  end.

(** The loop of [flush] over the modification queue: the builder and
    [shortest_truncate]. *)
Definition merge_modification (st : ContentBuilder.t * option Z)
    (m : modification) : ContentBuilder.t * option Z :=
  let '(builder, shortest_truncate) := st in
  match m with
  | MWrite data offset => (ContentBuilder.write data offset builder, shortest_truncate)
  | MTruncate length =>
      (ContentBuilder.truncate length builder,
       (* [not shortest_truncate or shortest_truncate > length] *)
       match shortest_truncate with
       | None => Some length
       | Some s => if (s =? 0) || (s >? length) then Some length else Some s
       end)
  end.

Module FileEngine.
Section FileEngine.
Context {E : Externals}.

Import Crypto.

(** [get_version(self)] *)
Definition get_version (f : File) : Z :=
  if dirty f then file_version f + 1 else file_version f.

(** [get_vlob(self)] *)
Definition get_vlob (f : File) : vlob_descr :=
  mkVlobDescr (file_id f) (read_trust_seed f) (write_trust_seed f)
              (to_jsonb64 (key_of (encryptor f))).

(** [write(self, data, offset)] *)
Definition write (self : addr) (data : bytes) (offset : Z) : M unit :=
  let* f := get_self self in
  set_self self (set_modifications (modifications f ++ [MWrite data offset])).

(** [truncate(self, length)] *)
Definition truncate (self : addr) (length : Z) : M unit :=
  let* f := get_self self in
  set_self self (set_modifications (modifications f ++ [MTruncate length])).

(** [EBlockRead], [from_jsonb64] and [decrypt] of one block. *)
Definition read_block (encryptor : AESKey) (id : ident) : M bytes :=
  let* content := perform (EBlockRead id) (Synchronizer.block_read id) in
  let* content := lift_result (of_option ValueError (from_jsonb64 content)) in
  lift_result (decrypt encryptor content).

(** The body of the inner loop of [_find_matching_blocks]. *)
Definition find_block (size offset : Z) (block_key : string) (encryptor : AESKey)
    (st : Z * matching_blocks) (bp : BlockMeta) : M (Z * matching_blocks) :=
  let '(cursor, mb) := st in
  let cursor := cursor + bm_size bp in
  if cursor <=? offset then
    ret (cursor,
         mkMatching (append_block (pre_excluded_blocks mb) block_key bp)
           (pre_excluded_data mb) (pre_included_data mb) (included_blocks mb)
           (post_included_data mb) (post_excluded_data mb)
           (post_excluded_blocks mb))
  else if (cursor >? offset) && (cursor - bm_size bp <? offset) then
    let delta := cursor - offset in
    let* block_data := read_block encryptor (block bp) in
    ret (cursor,
         mkMatching (pre_excluded_blocks mb)
           (slice_to (- delta) block_data)
           (slice_to size (slice_from (- delta) block_data))
           (included_blocks mb)
           (post_included_data mb)
           (if size <? len (slice_from (- delta) block_data)
            then slice_from size (slice_from (- delta) block_data)
            else post_excluded_data mb)
           (post_excluded_blocks mb))
  else if (cursor >? offset) && (cursor <=? offset + size) then
    ret (cursor,
         mkMatching (pre_excluded_blocks mb) (pre_excluded_data mb)
           (pre_included_data mb)
           (append_block (included_blocks mb) block_key bp)
           (post_included_data mb) (post_excluded_data mb)
           (post_excluded_blocks mb))
  else if (cursor >? offset + size)
          && (cursor - bm_size bp <? offset + size) then
    let delta := offset + size - (cursor - bm_size bp) in
    let* block_data := read_block encryptor (block bp) in
    ret (cursor,
         mkMatching (pre_excluded_blocks mb) (pre_excluded_data mb)
           (pre_included_data mb) (included_blocks mb)
           (slice_to delta block_data)
           (slice_from delta block_data)
           (post_excluded_blocks mb))
  else
    ret (cursor,
         mkMatching (pre_excluded_blocks mb) (pre_excluded_data mb)
           (pre_included_data mb) (included_blocks mb)
           (post_included_data mb) (post_excluded_data mb)
           (append_block (post_excluded_blocks mb) block_key bp)).

(** The body of the outer loop of [_find_matching_blocks]. *)
Definition find_group (size offset : Z) (st : Z * matching_blocks)
    (blocks_and_key : BlockGroup) : M (Z * matching_blocks) :=
  let block_key := key blocks_and_key in
  let* decoded_block_key :=
    lift_result (of_option ValueError (from_jsonb64 block_key)) in
  let* encryptor := lift_result (load_sym_key decoded_block_key) in
  for_each (find_block size offset block_key encryptor)
           (blocks blocks_and_key) st.

(** The current vlob payload: [EVlobRead] at [get_version()], decoded,
    decrypted and parsed. *)
Definition read_payload (self : addr) : M (vlob_atom * list BlockGroup) :=
  let* f := get_self self in
  let version := get_version f in
  let* vlob :=
    perform (EVlobRead (file_id f) (read_trust_seed f) (Some version))
            (Synchronizer.vlob_read (file_id f) (read_trust_seed f) (Some version)) in
  let* encrypted_blob :=
    lift_result (of_option ValueError (from_jsonb64 (vlob_blob vlob))) in
  let* blob := lift_result (decrypt (encryptor f) encrypted_blob) in
  let* blob := lift_result (of_option ValueError (ejson_loads blob)) in
  ret (vlob, blob).

(** [_find_matching_blocks(self, size=None, offset=0)] *)
Definition _find_matching_blocks (self : addr) (size : option Z) (offset : Z)
  : M matching_blocks :=
  let size := match size with None => sys_maxsize | Some s => s end in
  let* (_, blob) := read_payload self in
  let* (_, mb) :=
    for_each (find_group size offset) blob
             (0, mkMatching [] [] [] [] [] [] []) in
  ret mb.

(** [get_blocks(self)] *)
Definition get_blocks (self : addr) : M (list ident) :=
  let* mb := _find_matching_blocks self None 0 in
  ret (concat (map (fun g => map block (blocks g))
                   (pre_excluded_blocks mb ++ included_blocks mb))).

(** The body of the loop of [_build_file_blocks]. *)
Definition build_block (encryptor : AESKey) (blocks : list BlockMeta)
    (chunk : bytes) : M (list BlockMeta) :=
  let* cypher_chunk := with_entropy (encrypt encryptor chunk) in
  let cypher_chunk := to_jsonb64 cypher_chunk in
  let* block_id :=
    perform (EBlockCreate cypher_chunk) (Synchronizer.block_create cypher_chunk) in
  ret (blocks ++ [mkBlockMeta block_id (digest chunk) (len chunk)]).

(** [_build_file_blocks(self, data)] *)
Definition _build_file_blocks (self : addr) (data : bytes) : M BlockGroup :=
  let chunks := make_chunks data in
  let* encryptor := with_entropy generate_sym_key in
  let* blocks := for_each (build_block encryptor) chunks [] in
  let block_key := to_jsonb64 (key_of encryptor) in
  set_self self (set_dirty true) ;;
  ret (mkBlockGroup blocks block_key).

(** Encrypting a payload with the handle's key and sending it as
    [EVlobUpdate(self.id, self.write_trust_seed, self.version + 1, ...)]. *)
Definition update_vlob (self : addr) (blob : list BlockGroup) : M unit :=
  let blob := ejson_dumps blob in
  let* f := get_self self in
  let* encrypted_blob := with_entropy (encrypt (encryptor f) blob) in
  let encrypted_blob := to_jsonb64 encrypted_blob in
  perform (EVlobUpdate (file_id f) (write_trust_seed f) (file_version f + 1) encrypted_blob)
          (Synchronizer.vlob_update (file_id f) (write_trust_seed f)
             (file_version f + 1) encrypted_blob) ;;
  set_self self (set_dirty true).

(** The body of [for offset, content in builder.contents.items()] in [flush]. *)
Definition flush_region (self : addr) (_ : unit) (region : Z * bytes) : M unit :=
  let '(offset, content) := region in
  let* mb := _find_matching_blocks self (Some (len content)) offset in
  let new_data := pre_excluded_data mb ++ content ++ post_excluded_data mb in
  let* new_blocks := _build_file_blocks self new_data in
  update_vlob self
    (pre_excluded_blocks mb ++ [new_blocks] ++ post_excluded_blocks mb).

(** The body of the garbage-collection loop of [flush]. *)
Definition clean_block (current_block_ids : list ident) (_ : unit)
    (block_id : ident) : M unit :=
  if bool_decide (block_id ∈ current_block_ids) then ret tt
  else
    try_except
      (perform (EBlockDelete block_id) (Synchronizer.block_delete block_id))
      BlockNotFound (ret tt).

(** [flush(self)] *)
Definition flush (self : addr) : M unit :=
  let* f := get_self self in
  match modifications f with
  | [] => ret tt
  | _ =>
      (* Merge all modifications to build final content *)
      let '(builder, shortest_truncate) :=
        fold_left merge_modification (modifications f)
                  (ContentBuilder.init, None) in
      set_self self (set_modifications []) ;;
      (* Truncate file *)
      let* previous_block_ids := get_blocks self in
      match shortest_truncate with
      | Some length =>
          let* mb := _find_matching_blocks self (Some length) 0 in
          let* new_blocks := _build_file_blocks self (post_included_data mb) in
          update_vlob self (included_blocks mb ++ [new_blocks])
      | None => ret tt
      end ;;
      (* Write new contents *)
      for_each (flush_region self) builder tt ;;
      (* Clean blocks *)
      let* current_block_ids := get_blocks self in
      for_each (clean_block current_block_ids) previous_block_ids tt
  end.

(** The body of the inner loop of [read]. *)
Definition read_chunk (encryptor : AESKey) (data : bytes) (bp : BlockMeta)
  : M bytes :=
  let* chunk_data := read_block encryptor (block bp) in
  (* Check integrity *)
  if negb (bool_decide (digest chunk_data = bm_digest bp)) then raise AssertionError
  else if negb (len chunk_data =? bm_size bp) then raise AssertionError
  else ret (data ++ chunk_data).

(** The body of the outer loop of [read]. *)
Definition read_group (data : bytes) (blocks_and_key : BlockGroup) : M bytes :=
  let* decoded_block_key :=
    lift_result (of_option ValueError (from_jsonb64 (key blocks_and_key))) in
  let* encryptor := lift_result (load_sym_key decoded_block_key) in
  for_each (read_chunk encryptor) (blocks blocks_and_key) data.

(** [read(self, size=None, offset=0)] *)
Definition read (self : addr) (size : option Z) (offset : Z) : M bytes :=
  flush self ;;
  let* mb := _find_matching_blocks self size offset in
  let* data := for_each read_group (included_blocks mb) (pre_included_data mb) in
  ret (data ++ post_included_data mb).

(** [File.create()] *)
Definition create : M addr :=
  let* self := alloc_file in
  let* blob := _build_file_blocks self [] in
  let blob := ejson_dumps [blob] in
  let* key := with_entropy generate_sym_key in
  set_self self (set_encryptor key) ;;
  let* encrypted_blob := with_entropy (encrypt key blob) in
  let encrypted_blob := to_jsonb64 encrypted_blob in
  let* vlob :=
    perform (EVlobCreate encrypted_blob) (Synchronizer.vlob_create encrypted_blob) in
  set_self self (set_access vlob) ;;
  set_self self (set_dirty true) ;;
  set_self self (set_version 0) ;;
  set_self self (set_modifications []) ;;
  registry_set (va_id vlob) self ;;
  ret self.

(** [File.load(id, key, read_trust_seed, write_trust_seed, version=None)] *)
Definition load (id : ident) (key : string) (rts wts : seed)
    (version : option Z) : M addr :=
  let* registered := registry_lookup id in
  match registered with
  | Some self => ret self
  | None =>
      let* self := alloc_file in
      set_self self (set_access (mkVlobAccess id rts wts)) ;;
      let* raw_key := lift_result (of_option ValueError (from_jsonb64 key)) in
      let* encryptor := lift_result (load_sym_key raw_key) in
      set_self self (set_encryptor encryptor) ;;
      let* vlob :=
        perform (EVlobRead id rts version) (Synchronizer.vlob_read id rts version) in
      set_self self (set_version (vlob_version vlob)) ;;
      set_self self (set_dirty false) ;;
      let* vlob_list := perform EVlobList Synchronizer.vlob_list in
      (if bool_decide (vlob_id vlob ∈ vlob_list) then
         set_self self (set_dirty true) ;;
         set_self self (fun f => set_version (file_version f - 1) f)
       else ret tt) ;;
      set_self self (set_modifications []) ;;
      registry_set id self ;;
      ret self
  end.

(** The body of the first loop of [discard]. *)
Definition discard_block (already_synchronized : bool) (block_id : ident)
  : M bool :=
  try_except
    (perform (EBlockDelete block_id) (Synchronizer.block_delete block_id) ;;
     ret already_synchronized)
    BlockNotFound (ret true).

(** [discard(self)] *)
Definition discard (self : addr) : M bool :=
  let already_synchronized := false in
  set_self self (set_modifications []) ;;
  let* block_ids := get_blocks self in
  let* already_synchronized :=
    for_each discard_block block_ids already_synchronized in
  let* f := get_self self in
  let* already_synchronized :=
    try_except
      (perform (EVlobDelete (file_id f)) (Synchronizer.vlob_delete (file_id f)) ;;
       ret already_synchronized)
      VlobNotFound (ret true) in
  set_self self (set_dirty false) ;;
  ret (negb already_synchronized).

(** [restore(self, version=None)] *)
Definition restore (self : addr) (version : option Z) : M unit :=
  let* f := get_self self in
  let version :=
    match version with
    | None => get_version f - 1
    | Some v => v
    end in
  if (version <? 1) || (version >=? get_version f) then
    raise (FileError "bad_version")
  else
    discard self ;;
    let* f := get_self self in
    let* vlob :=
      perform (EVlobRead (file_id f) (read_trust_seed f) (Some version))
              (Synchronizer.vlob_read (file_id f) (read_trust_seed f) (Some version)) in
    perform (EVlobUpdate (file_id f) (write_trust_seed f)
                         (file_version f + 1) (vlob_blob vlob))
            (Synchronizer.vlob_update (file_id f) (write_trust_seed f)
               (file_version f + 1) (vlob_blob vlob)) ;;
    set_self self (set_dirty true).

(** [commit(self)] *)
Definition commit (self : addr) : M commit_result :=
  flush self ;;
  let* block_ids := get_blocks self in
  for_each (fun _ block_id =>
              perform (EBlockSynchronize block_id)
                      (Synchronizer.block_synchronize block_id))
           block_ids tt ;;
  let* f := get_self self in
  let* new_vlob :=
    perform (EVlobSynchronize (file_id f)) (Synchronizer.vlob_synchronize (file_id f)) in
  let* new_vlob :=
    match new_vlob with
    | SyncNothing => ret CommitNothing
    | SyncSame =>
        set_self self (fun f => set_version (file_version f + 1) f) ;;
        ret CommitTrue
    | SyncNew v =>
        registry_del (file_id f) ;;
        set_self self (set_access v) ;;
        let* f' := get_self self in
        let new_vlob := get_vlob f' in
        registry_set (file_id f') self ;;
        set_self self (fun f => set_version (file_version f + 1) f) ;;
        ret (CommitVlob new_vlob)
    end in
  set_self self (set_dirty false) ;;
  ret new_vlob.

(** [reencrypt(self)] *)
Definition reencrypt (self : addr) : M unit :=
  flush self ;;
  let* f := get_self self in
  let version := get_version f in
  let* old_vlob :=
    perform (EVlobRead (file_id f) (read_trust_seed f) (Some version))
            (Synchronizer.vlob_read (file_id f) (read_trust_seed f) (Some version)) in
  let* old_encrypted_blob :=
    lift_result (of_option ValueError (from_jsonb64 (vlob_blob old_vlob))) in
  let* new_blob := lift_result (decrypt (encryptor f) old_encrypted_blob) in
  let* key := with_entropy generate_sym_key in
  set_self self (set_encryptor key) ;;
  let* new_encrypted_blob := with_entropy (encrypt key new_blob) in
  let new_encrypted_blob := to_jsonb64 new_encrypted_blob in
  let* new_vlob :=
    perform (EVlobCreate new_encrypted_blob)
            (Synchronizer.vlob_create new_encrypted_blob) in
  registry_del (file_id f) ;;
  set_self self (set_access new_vlob) ;;
  registry_set (va_id new_vlob) self ;;
  set_self self (set_dirty true).

End FileEngine.
End FileEngine.

(** ** An executable instance of the external primitives

    A stand-in for AES-GCM and for the helpers of [parsec.tools] that
    satisfies the laws above and computes, used to run the embedded code on
    concrete inputs. *)
Module Sim.

Definition tag_of (k iv : bytes) : bytes := take 16 (k ++ iv ++ replicate 16 x00).

Definition sim_gcm_encrypt (k iv pt : bytes) : bytes * bytes :=
  (rev pt, tag_of k iv).

Definition sim_gcm_decrypt (k iv tag ct : bytes) : option bytes :=
  if bool_decide (tag = tag_of k iv) then Some (rev ct) else None.

(** Fixed-width little-endian numbers. *)
Definition put_nat (n : nat) : bytes :=
  map (fun i => default x00 (Byte.of_N (N.of_nat n / 256 ^ N.of_nat i mod 256)))
      (seq 0 4).

Definition get_nat (l : bytes) : option (nat * bytes) :=
  if (length l <? 4)%nat then None
  else
    Some (N.to_nat
            (fold_right (fun b acc => Byte.to_N b + 256 * acc)%N 0%N (take 4 l)),
          drop 4 l).

Definition put_string (s : string) : bytes :=
  let l := list_byte_of_string s in put_nat (length l) ++ l.

Definition get_string (l : bytes) : option (string * bytes) :=
  '(n, l) ← get_nat l;
  if (length l <? n)%nat then None
  else Some (string_of_list_byte (take n l), drop n l).

Definition put_list {A} (put : A -> bytes) (xs : list A) : bytes :=
  put_nat (length xs) ++ concat (map put xs).

Fixpoint get_many {A} (get : bytes -> option (A * bytes)) (n : nat) (l : bytes)
  : option (list A * bytes) :=
  match n with
  | O => Some ([], l)
  | S n' =>
      '(x, l) ← get l;
      '(xs, l) ← get_many get n' l;
      Some (x :: xs, l)
  end.

Definition get_list {A} (get : bytes -> option (A * bytes)) (l : bytes)
  : option (list A * bytes) :=
  '(n, l) ← get_nat l; get_many get n l.

Definition put_meta (bp : BlockMeta) : bytes :=
  put_nat (block bp) ++ put_string (bm_digest bp) ++ put_nat (Z.to_nat (bm_size bp)).

Definition get_meta (l : bytes) : option (BlockMeta * bytes) :=
  '(b, l) ← get_nat l;
  '(d, l) ← get_string l;
  '(s, l) ← get_nat l;
  Some (mkBlockMeta b d (Z.of_nat s), l).

Definition put_group (g : BlockGroup) : bytes :=
  put_list put_meta (blocks g) ++ put_string (key g).

Definition get_group (l : bytes) : option (BlockGroup * bytes) :=
  '(bs, l) ← get_list get_meta l;
  '(k, l) ← get_string l;
  Some (mkBlockGroup bs k, l).

Definition sim_dumps (blob : list BlockGroup) : bytes := put_list put_group blob.

Definition sim_loads (l : bytes) : option (list BlockGroup) :=
  '(blob, rest) ← get_list get_group l;
  match rest with [] => Some blob | _ => None end.

#[local] Instance externals : Externals := {|
  gcm_encrypt := sim_gcm_encrypt;
  gcm_decrypt := sim_gcm_decrypt;
  digest := string_of_list_byte;
  to_jsonb64 := string_of_list_byte;
  from_jsonb64 := fun s => Some (list_byte_of_string s);
  ejson_dumps := sim_dumps;
  ejson_loads := sim_loads
|}.

(** A fixed outcome of [os.urandom]. *)
Definition rnd0 : entropy := fun i => default x00 (Byte.of_N (N.of_nat i mod 256)).

(** Running a generator and keeping its result. *)
Definition result_of {A} (m : M A) (w : World) : result A := fst (m w).

(** [create()], the given operations on the new handle, [flush()], then
    [read()]. *)
Definition apply_op (self : addr) (m : modification) : M unit :=
  match m with
  | MWrite data offset => FileEngine.write self data offset
  | MTruncate length => FileEngine.truncate self length
  end.

Definition session (ops : list modification) : M bytes :=
  let* self := FileEngine.create in
  for_each (fun _ m => apply_op self m) ops tt ;;
  FileEngine.flush self ;;
  FileEngine.read self None 0.

End Sim.

(** ** Sessions *)

(** The calls a client of the File engine can make. *)
Inductive api_call :=
| CallCreate
| CallLoad (id : ident) (key : string) (rts wts : seed) (version : option Z)
| CallWrite (self : addr) (data : bytes) (offset : Z)
| CallTruncate (self : addr) (length : Z)
| CallRead (self : addr) (size : option Z) (offset : Z)
| CallFlush (self : addr)
| CallCommit (self : addr)
| CallDiscard (self : addr)
| CallRestore (self : addr) (version : option Z)
| CallReencrypt (self : addr).

(** The state a call leaves behind, whether it returns or raises. *)
Definition run_call {E : Externals} (c : api_call) (w : World) : World :=
  match c with
  | CallCreate => snd (FileEngine.create w)
  | CallLoad id key rts wts version => snd (FileEngine.load id key rts wts version w)
  | CallWrite self data offset => snd (FileEngine.write self data offset w)
  | CallTruncate self length => snd (FileEngine.truncate self length w)
  | CallRead self size offset => snd (FileEngine.read self size offset w)
  | CallFlush self => snd (FileEngine.flush self w)
  | CallCommit self => snd (FileEngine.commit self w)
  | CallDiscard self => snd (FileEngine.discard self w)
  | CallRestore self version => snd (FileEngine.restore self version w)
  | CallReencrypt self => snd (FileEngine.reencrypt self w)
  end.

(** The states of a session: it starts with no handle and an empty registry,
    over any synchronizer and any entropy, and proceeds by calls. *)
Inductive reachable {E : Externals} : World -> Prop :=
| reachable_start (w : World) :
    heap w = [] -> files w = ∅ -> reachable w
| reachable_call (w : World) (c : api_call) :
    reachable w -> reachable (run_call c w).

(** The state after [File.create()] in a new session with the entropy
    [Sim.rnd0]: one handle at address 0, registered under vlob id 1. *)
Definition world_created : World :=
  run_call (E := Sim.externals) CallCreate (World_init Sim.rnd0).

Definition file_created : File :=
  default File_new (heap world_created !! 0%nat).

(** The state after [create()], [commit()], [write(b"hello", 0)] and
    [flush()] on the new handle: version 1 is committed and version 2 is
    staged. *)
Definition world_edited : World :=
  run_call (E := Sim.externals) (CallFlush 0%nat)
    (run_call (E := Sim.externals) (CallWrite 0%nat (bs "hello") 0)
       (run_call (E := Sim.externals) (CallCommit 0%nat) world_created)).

Definition file_edited : File :=
  default File_new (heap world_edited !! 0%nat).

(** * Properties *)

(** ** Slices *)

Lemma len_app {A} (l1 l2 : list A) : len (l1 ++ l2) = len l1 + len l2.
Proof. unfold len. rewrite length_app. lia. Qed.

Lemma len_nonneg {A} (l : list A) : 0 <= len l.
Proof. unfold len. lia. Qed.

Lemma slice_to_app_exact {A} (l1 l2 : list A) :
  slice_to (len l1) (l1 ++ l2) = l1.
Proof.
  unfold slice_to, py_index. rewrite len_app.
  pose proof (len_nonneg l1). pose proof (len_nonneg l2).
  destruct (Z.ltb_spec (len l1) 0); [lia|].
  rewrite Z.min_l by lia. unfold len. rewrite Nat2Z.id.
  by rewrite take_app_length.
Qed.

Lemma slice_from_app_exact {A} (l1 l2 : list A) :
  slice_from (len l1) (l1 ++ l2) = l2.
Proof.
  unfold slice_from, py_index. rewrite len_app.
  pose proof (len_nonneg l1). pose proof (len_nonneg l2).
  destruct (Z.ltb_spec (len l1) 0); [lia|].
  rewrite Z.min_l by lia. unfold len. rewrite Nat2Z.id.
  by rewrite drop_app_length.
Qed.

(** [l[-n:]] is the suffix of length [n] when [l] ends with it. *)
Lemma slice_from_neg_suffix {A} (l1 l2 : list A) :
  0 < len l2 -> slice_from (- len l2) (l1 ++ l2) = l2.
Proof.
  intros Hpos. unfold slice_from, py_index. rewrite len_app.
  pose proof (len_nonneg l1).
  destruct (Z.ltb_spec (- len l2) 0); [|lia].
  rewrite Z.max_l by lia.
  replace (Z.to_nat (- len l2 + (len l1 + len l2))) with (length l1)
    by (unfold len; lia).
  by rewrite drop_app_length.
Qed.

(** [l[n:-m]] is the middle part of [l = l1 ++ l2 ++ l3] when [l1] has
    length [n] and [l3] has length [m > 0]. *)
Lemma slice_middle {A} (l1 l2 l3 : list A) :
  0 < len l3 ->
  slice (len l1) (- len l3) (l1 ++ l2 ++ l3) = l2.
Proof.
  intros Hpos. unfold slice, py_index. rewrite !len_app.
  pose proof (len_nonneg l1). pose proof (len_nonneg l2).
  destruct (Z.ltb_spec (len l1) 0); [lia|].
  destruct (Z.ltb_spec (- len l3) 0); [|lia].
  rewrite Z.min_l by lia. rewrite Z.max_l by lia.
  replace (Z.to_nat (len l1)) with (length l1) by (unfold len; lia).
  rewrite drop_app_length.
  replace (Z.to_nat (- len l3 + (len l1 + (len l2 + len l3)) - len l1))
    with (length l2) by (unfold len; lia).
  by rewrite take_app_length.
Qed.

(** ** AESKey: layout and round trip *)
Section CryptoProperties.
Context {E : Externals}.
Import Crypto.

Lemma urandom_length (n : Z) (r : entropy) :
  length (fst (urandom n r)) = Z.to_nat n.
Proof. unfold urandom. simpl. by rewrite length_map, length_seq. Qed.

(** The IV drawn by [encrypt]: [AES.block_size // 8] bytes. *)
Definition iv_of (r : entropy) : bytes := fst (urandom (AES.block_size / 8) r).

Lemma iv_of_length (r : entropy) : length (iv_of r) = 16%nat.
Proof. unfold iv_of. by rewrite urandom_length. Qed.

Lemma encrypt_layout (k : AESKey) (pt : bytes) (r : entropy) :
  fst (encrypt k pt r)
  = iv_of r ++ fst (gcm_encrypt (_hazmat_key k) (iv_of r) pt)
           ++ snd (gcm_encrypt (_hazmat_key k) (iv_of r) pt).
Proof.
  unfold encrypt, iv_of.
  destruct (urandom (AES.block_size / 8) r) as [iv r'] eqn:Hu. simpl.
  by destruct (gcm_encrypt (_hazmat_key k) iv pt).
Qed.

Lemma generate_sym_key_length (r : entropy) :
  length (key_of (fst (generate_sym_key r))) = 32%nat.
Proof.
  unfold generate_sym_key.
  pose proof (urandom_length 32 r) as H.
  destruct (urandom 32 r) as [raw r']. simpl in *. by rewrite H.
Qed.

(** The sizes [AES(key)] accepts, in bytes. *)
Definition key_ok (raw_key : bytes) : Prop :=
  length raw_key = 16%nat \/ length raw_key = 24%nat \/ length raw_key = 32%nat.

Lemma load_sym_key_Ok (raw_key : bytes) (k : AESKey) :
  load_sym_key raw_key = Ok k <-> key_ok raw_key /\ k = mkAESKey raw_key.
Proof.
  assert (Hs : len raw_key * 8 ∈ AES.key_sizes <-> key_ok raw_key).
  { unfold AES.key_sizes, key_ok, len. rewrite !elem_of_cons, elem_of_nil. lia. }
  unfold load_sym_key, AESKey_init. case_bool_decide as Hk.
  - split; [intros [= <-] | by intros [_ ->]]. split; [by apply Hs | done].
  - split; [discriminate|]. intros [Hl _]. by apply Hs in Hl.
Qed.

Lemma load_sym_key_key_ok (raw_key : bytes) :
  key_ok raw_key -> load_sym_key raw_key = Ok (mkAESKey raw_key).
Proof. intros H. by apply load_sym_key_Ok. Qed.

(** [AESKey(raw_key)] in [generate_sym_key] returns: the key it is given is
    accepted, and loading the exported key gives the same key back. *)
Lemma generate_sym_key_accepted (r : entropy) :
  AESKey_init (fst (urandom 32 r)) = Ok (fst (generate_sym_key r))
  /\ load_sym_key (key_of (fst (generate_sym_key r))) = Ok (fst (generate_sym_key r)).
Proof.
  pose proof (generate_sym_key_length r) as Hl. unfold generate_sym_key in *.
  destruct (urandom 32 r) as [raw r']. simpl in *.
  assert (H : load_sym_key raw = Ok (mkAESKey raw))
    by (apply load_sym_key_key_ok; unfold key_ok; lia).
  done.
Qed.

(** What [decrypt] slices out of [iv ++ ct ++ tag] when the IV and the tag
    are 16 bytes long. *)
Lemma decrypt_slices (iv ct tag : bytes) :
  length iv = 16%nat -> length tag = 16%nat ->
  slice_to (AES.block_size / 8) (iv ++ ct ++ tag) = iv
  /\ slice_from (-16) (iv ++ ct ++ tag) = tag
  /\ slice 16 (-16) (iv ++ ct ++ tag) = ct.
Proof.
  intros Hiv Htag.
  assert (Hiv' : len iv = 16) by (unfold len; lia).
  assert (Htag' : len tag = 16) by (unfold len; lia).
  change (AES.block_size / 8) with 16.
  repeat split.
  - rewrite <- Hiv'. apply slice_to_app_exact.
  - replace (-16) with (- len tag) by lia.
    rewrite (app_assoc iv ct tag). apply slice_from_neg_suffix. lia.
  - replace (-16) with (- len tag) by lia.
    rewrite <- Hiv'. apply slice_middle. lia.
Qed.

Lemma decrypt_encrypt (HE : GCMLaws E) (k : AESKey) (pt : bytes) (r : entropy) :
  decrypt k (fst (encrypt k pt r)) = Ok pt.
Proof.
  rewrite encrypt_layout. unfold decrypt.
  destruct (decrypt_slices (iv_of r)
              (fst (gcm_encrypt (_hazmat_key k) (iv_of r) pt))
              (snd (gcm_encrypt (_hazmat_key k) (iv_of r) pt)))
    as (-> & -> & ->).
  - apply iv_of_length.
  - apply (gcm_tag_length E HE).
  - by rewrite (gcm_roundtrip E HE).
Qed.

End CryptoProperties.

(** The executable instance satisfies the AES-GCM laws. *)
Lemma Sim_gcm_laws : GCMLaws Sim.externals.
Proof.
  split; simpl; unfold Sim.sim_gcm_encrypt, Sim.sim_gcm_decrypt; simpl.
  - intros k iv pt. unfold Sim.tag_of.
    rewrite length_take, !length_app, length_replicate. lia.
  - intros k iv pt. apply length_rev.
  - intros k iv pt. rewrite bool_decide_eq_true_2 by done.
    by rewrite rev_involutive.
Qed.

(** The layout the specification states: a 12-byte IV, then the GCM
    ciphertext, then a 16-byte tag. *)
Definition layout_with_iv_length {E : Externals} (n : nat)
    (k : AESKey) (pt : bytes) (r : entropy) : Prop :=
  exists iv ct tag,
    fst (Crypto.encrypt k pt r) = iv ++ ct ++ tag
    /\ length iv = n
    /\ length tag = 16%nat
    /\ gcm_encrypt (_hazmat_key k) iv pt = (ct, tag).

Lemma encrypt_length {E : Externals} (HE : GCMLaws E)
    (k : AESKey) (pt : bytes) (r : entropy) :
  length (fst (Crypto.encrypt k pt r)) = (16 + length pt + 16)%nat.
Proof.
  rewrite encrypt_layout, !length_app, iv_of_length.
  rewrite (gcm_ct_length E HE), (gcm_tag_length E HE). lia.
Qed.

(** No output of [encrypt] has the stated layout with a 12-byte IV. *)
Lemma encrypt_iv_not_12 {E : Externals} (HE : GCMLaws E)
    (k : AESKey) (pt : bytes) (r : entropy) :
  ~ layout_with_iv_length 12 k pt r.
Proof.
  intros (iv & ct & tag & Hc & Hiv & Htag & Hg).
  pose proof (encrypt_length HE k pt r) as Hlen.
  rewrite Hc, !length_app, Hiv, Htag in Hlen.
  pose proof (gcm_ct_length E HE (_hazmat_key k) iv pt) as Hct.
  rewrite Hg in Hct. simpl in Hct. lia.
Qed.

(** C5 (as the code has it): for every key, plaintext and outcome of
    [os.urandom], [AESKey.encrypt] returns [IV ++ CT ++ TAG] where the IV is
    the 16 bytes ([AES.block_size // 8]) drawn from [os.urandom], [CT] and
    [TAG] are the AES-GCM ciphertext and its 16-byte tag under that IV, and
    [AESKey.decrypt] slices off exactly that IV, ciphertext and tag and
    returns the plaintext. *)
Theorem AESKey_encrypt_layout_iv16
    (E : Externals) (HE : GCMLaws E) (k : AESKey) (pt : bytes) (r : entropy) :
  let iv := map r (seq 0 16) in
  let ct := fst (gcm_encrypt (_hazmat_key k) iv pt) in
  let tag := snd (gcm_encrypt (_hazmat_key k) iv pt) in
  let c := fst (Crypto.encrypt k pt r) in
  c = iv ++ ct ++ tag
  /\ length iv = 16%nat
  /\ length ct = length pt
  /\ length tag = 16%nat
  /\ slice_to (AES.block_size / 8) c = iv
  /\ slice_from (-16) c = tag
  /\ slice 16 (-16) c = ct
  /\ Crypto.decrypt k c = Ok pt.
Proof.
  intros iv ct tag c.
  assert (Hiv : length iv = 16%nat) by (unfold iv; by rewrite length_map, length_seq).
  assert (Htag : length tag = 16%nat) by apply (gcm_tag_length E HE).
  assert (Hc : c = iv ++ ct ++ tag) by apply encrypt_layout.
  destruct (decrypt_slices iv ct tag Hiv Htag) as (H1 & H2 & H3).
  rewrite Hc at 1 2 3 4.
  repeat split; try done.
  - apply (gcm_ct_length E HE).
  - apply (decrypt_encrypt HE).
Qed.

Lemma AESKey_encrypt_layout_iv16_witness :
  GCMLaws Sim.externals
  /\ Crypto.decrypt (E := Sim.externals) (mkAESKey (replicate 32 x2a))
       (fst (Crypto.encrypt (E := Sim.externals) (mkAESKey (replicate 32 x2a))
               (bs "hello") Sim.rnd0))
     = Ok (bs "hello").
Proof.
  split; [exact Sim_gcm_laws|].
  apply (AESKey_encrypt_layout_iv16 Sim.externals Sim_gcm_laws
           (mkAESKey (replicate 32 x2a)) (bs "hello") Sim.rnd0).
Defined.

(** C5 (as stated) fails: the encryption of the empty plaintext under a
    256-bit key is not a 12-byte IV followed by the GCM ciphertext and a
    16-byte tag; it is 32 bytes long, 16 of IV and 16 of tag. *)
Lemma AESKey_encrypt_iv_is_not_12_bytes :
  ~ layout_with_iv_length (E := Sim.externals) 12
      (mkAESKey (replicate 32 x2a)) [] Sim.rnd0
  /\ length (fst (Crypto.encrypt (E := Sim.externals)
                    (mkAESKey (replicate 32 x2a)) [] Sim.rnd0)) = 32%nat.
Proof. split; [apply (encrypt_iv_not_12 Sim_gcm_laws) | reflexivity]. Qed.

(** C8: for every key [k] and message [m], decrypting an encryption of [m]
    under [k] yields exactly [m], and re-encrypting that result (with any
    fresh IV) decrypts back to [m] as well. *)
Theorem AESKey_decrypt_encrypt_roundtrip
    (E : Externals) (HE : GCMLaws E) (k : AESKey) (m : bytes) (r r' : entropy) :
  exists m1,
    Crypto.decrypt k (fst (Crypto.encrypt k m r)) = Ok m1
    /\ m1 = m
    /\ Crypto.decrypt k (fst (Crypto.encrypt k m1 r')) = Ok m.
Proof.
  exists m. split; [apply (decrypt_encrypt HE)|].
  split; [done | apply (decrypt_encrypt HE)].
Qed.

Lemma AESKey_decrypt_encrypt_roundtrip_witness :
  GCMLaws Sim.externals
  /\ exists m1,
      Crypto.decrypt (E := Sim.externals) (mkAESKey (replicate 32 x2a))
        (fst (Crypto.encrypt (E := Sim.externals) (mkAESKey (replicate 32 x2a))
                (bs "hello") Sim.rnd0)) = Ok m1
      /\ m1 = bs "hello"
      /\ Crypto.decrypt (E := Sim.externals) (mkAESKey (replicate 32 x2a))
           (fst (Crypto.encrypt (E := Sim.externals) (mkAESKey (replicate 32 x2a))
                   m1 (fun i => Sim.rnd0 (16 + i)%nat))) = Ok (bs "hello").
Proof.
  split; [exact Sim_gcm_laws|].
  apply (AESKey_decrypt_encrypt_roundtrip Sim.externals Sim_gcm_laws
           (mkAESKey (replicate 32 x2a)) (bs "hello") Sim.rnd0).
Defined.

(** The two ciphertexts of C8 differ when the IVs differ. *)
Example AESKey_ciphertexts_differ :
  fst (Crypto.encrypt (E := Sim.externals) (mkAESKey (replicate 32 x2a))
         (bs "hello") Sim.rnd0)
  <> fst (Crypto.encrypt (E := Sim.externals) (mkAESKey (replicate 32 x2a))
            (bs "hello") (fun i => Sim.rnd0 (16 + i)%nat)).
Proof. vm_compute. discriminate. Qed.

(** ** ContentBuilder: regions *)

Lemma slice_to_length_le {A} (j : Z) (l : list A) : len (slice_to j l) <= len l.
Proof. unfold slice_to, len. rewrite length_take. lia. Qed.

Lemma no_overlapb_spec (contents : ContentBuilder.t) :
  ContentBuilder.no_overlapb contents = true <-> ContentBuilder.no_overlap contents.
Proof.
  unfold ContentBuilder.no_overlapb, ContentBuilder.no_overlap,
    ContentBuilder.overlapb.
  rewrite forallb_forall. split.
  - intros H o1 c1 o2 c2 H1 H2 Hlt.
    apply list_elem_of_In in H1, H2.
    specialize (H _ H1). rewrite forallb_forall in H. specialize (H _ H2).
    simpl in H. apply negb_true_iff, andb_false_iff in H.
    destruct H as [H|H]; [apply Z.ltb_ge in H | apply Z.ltb_ge in H]; lia.
  - intros H [o1 c1] H1. rewrite forallb_forall. intros [o2 c2] H2.
    apply list_elem_of_In in H1, H2. simpl.
    apply negb_true_iff, andb_false_iff.
    destruct (Z.ltb_spec o1 o2) as [Hlt|]; [right | by left].
    apply Z.ltb_ge. by apply (H o1 c1 o2 c2).
Qed.

Lemma elem_of_fold_del {V} (ks : list Z) (d : PyDict.t V) (e : Z * V) :
  e ∈ fold_left (fun d k => PyDict.del k d) ks d -> e ∈ d.
Proof.
  revert d. induction ks as [|k ks IH]; intros d; simpl; [done|].
  intros H. apply IH in H. unfold PyDict.del in H.
  apply list_elem_of_In, filter_In in H. apply list_elem_of_In. tauto.
Qed.

Lemma truncate_entry_shrinks (length : Z) (e : Z * bytes) :
  fst (ContentBuilder.truncate_entry length e) = fst e
  /\ len (snd (ContentBuilder.truncate_entry length e)) <= len (snd e).
Proof.
  unfold ContentBuilder.truncate_entry.
  repeat case_match; simpl; split; try done; try lia.
  apply slice_to_length_le.
Qed.

(** [truncate] never creates an overlap. *)
Lemma truncate_no_overlap (length : Z) (contents : ContentBuilder.t) :
  ContentBuilder.no_overlap contents ->
  ContentBuilder.no_overlap (ContentBuilder.truncate length contents).
Proof.
  intros H o1 c1 o2 c2 H1 H2 Hlt. unfold ContentBuilder.truncate in *.
  apply elem_of_fold_del, list_elem_of_fmap in H1, H2.
  destruct H1 as ([o1' c1'] & E1 & H1), H2 as ([o2' c2'] & E2 & H2).
  pose proof (truncate_entry_shrinks length (o1', c1')) as [F1 L1].
  pose proof (truncate_entry_shrinks length (o2', c2')) as [F2 L2].
  rewrite <- E1 in F1, L1. rewrite <- E2 in F2. simpl in *. subst.
  specialize (H _ _ _ _ H1 H2 Hlt). lia.
Qed.

(** C2 on the code: after [write(b"AA", 0)] and [write(b"BB", 1)] on a new
    ContentBuilder the map holds the regions [(0, b"AA")] and [(1, b"BB")],
    which overlap on byte 1: [write] has no case for a range that starts
    inside a stored region and ends after it. *)
Theorem ContentBuilder_write_leaves_overlap :
  let contents :=
    ContentBuilder.write (bs "BB") 1
      (ContentBuilder.write (bs "AA") 0 ContentBuilder.init) in
  contents = [(0, bs "AA"); (1, bs "BB")]
  /\ ContentBuilder.no_overlap (ContentBuilder.write (bs "AA") 0 ContentBuilder.init)
  /\ ~ ContentBuilder.no_overlap contents.
Proof.
  split; [reflexivity|]. split.
  - by apply no_overlapb_spec.
  - intros H. apply no_overlapb_spec in H. discriminate H.
Qed.

(** ** The scenarios of the specification, run on the embedded code *)

Example scenario_create_read :
  Sim.result_of (Sim.session [MWrite (bs "hello") 0]) (World_init Sim.rnd0)
  = Ok (bs "hello").
Proof. vm_compute. reflexivity. Qed.

Example scenario_overlapping_writes :
  Sim.result_of (Sim.session [MWrite (bs "AAAA") 0; MWrite (bs "BB") 1])
                (World_init Sim.rnd0)
  = Ok (bs "ABBA").
Proof. vm_compute. reflexivity. Qed.

Example scenario_truncate_then_write :
  Sim.result_of
    (Sim.session [MWrite (bs "123456789") 0; MTruncate 4; MWrite (bs "ZZ") 2])
    (World_init Sim.rnd0)
  = Ok (bs "12ZZ").
Proof. vm_compute. reflexivity. Qed.

(** Scenario 4: commit, edit, restore. *)
Definition scenario_restore : M (bytes * bytes * Z) :=
  let* self := FileEngine.create (E := Sim.externals) in
  FileEngine.write self (bs "alpha") 0 ;;
  let* _ := FileEngine.commit (E := Sim.externals) self in
  FileEngine.write self (bs "BETA") 0 ;;
  let* _ := FileEngine.commit (E := Sim.externals) self in
  let* before := FileEngine.read (E := Sim.externals) self None 0 in
  FileEngine.restore (E := Sim.externals) self (Some 1) ;;
  let* after := FileEngine.read (E := Sim.externals) self None 0 in
  let* f := get_self self in
  ret (before, after, FileEngine.get_version f).

Example scenario_commit_edit_restore :
  Sim.result_of scenario_restore (World_init Sim.rnd0)
  = Ok (bs "BETAa", bs "alpha", 3).
Proof. vm_compute. reflexivity. Qed.

(** C1 on the code: [write(b"AA", 0)], [write(b"BB", 1)], [write(b"C", 1)]
    on a new file, then [flush()] and [read()]. Every write starts inside
    the bytes written so far; the reference buffer holds [b"ACB"], the
    builder holds the single region [(0, b"CBB")] and [read()] returns
    [b"CBB"]. *)
Theorem flush_read_differs_from_reference :
  let ops := [MWrite (bs "AA") 0; MWrite (bs "BB") 1; MWrite (bs "C") 1] in
  Reference.dense ops = true
  /\ Reference.run ops = bs "ACB"
  /\ fst (fold_left merge_modification ops (ContentBuilder.init, None))
     = [(0, bs "CBB")]
  /\ Sim.result_of (Sim.session ops) (World_init Sim.rnd0) = Ok (bs "CBB").
Proof. vm_compute. repeat split; reflexivity. Qed.

(** ** Frames of generators

    [obeys R P m]: from every state, [m] ends in a state related to the
    initial one by [R], whether it returns or raises, and raises only
    exceptions in [P]. *)
Definition obeys {A} (R : World -> World -> Prop) (P : exn -> Prop) (m : M A)
  : Prop :=
  forall w, R w (snd (m w)) /\ forall e, fst (m w) = Raise e -> P e.

Section ObeysRules.
Context (R : World -> World -> Prop).
Context `{!Reflexive R, !Transitive R}.

Lemma obeys_ret {A} P (a : A) : obeys R P (ret a).
Proof. intros w. split; [reflexivity | discriminate]. Qed.

Lemma obeys_raise {A} (P : exn -> Prop) (e : exn) :
  P e -> obeys R P (raise (A := A) e).
Proof. intros He w. split; [reflexivity|]. simpl. by intros e' [= <-]. Qed.

Lemma obeys_lift_result {A} (P : exn -> Prop) (r : result A) :
  (forall e, r = Raise e -> P e) -> obeys R P (lift_result r).
Proof. intros He w. split; [reflexivity | apply He]. Qed.

Lemma obeys_get_self (P : exn -> Prop) (self : addr) :
  P KeyError -> obeys R P (get_self self).
Proof.
  intros He w. split; [reflexivity|]. unfold get_self. simpl.
  destruct (heap w !! self); simpl; [discriminate | by intros e [= <-]].
Qed.

Lemma obeys_registry_lookup P (id : ident) : obeys R P (registry_lookup id).
Proof. intros w. split; [reflexivity | discriminate]. Qed.

Lemma obeys_bind {A B} P (m : M A) (k : A -> M B) :
  obeys R P m -> (forall a, obeys R P (k a)) -> obeys R P (bind m k).
Proof.
  intros Hm Hk w. unfold bind. destruct (Hm w) as [HR HP].
  destruct (m w) as [[a|e] w1]; simpl in *.
  - destruct (Hk a w1) as [HR' HP']. split; [by etrans | done].
  - split; [done|]. intros e' [= <-]. by apply HP.
Qed.

Lemma obeys_for_each {S X} P (body : S -> X -> M S) (xs : list X) (st : S) :
  (forall st x, obeys R P (body st x)) -> obeys R P (for_each body xs st).
Proof.
  intros Hbody. revert st.
  induction xs as [|x xs IH]; intros st; simpl.
  - apply obeys_ret.
  - apply obeys_bind; [apply Hbody | intros st'; apply IH].
Qed.

Lemma obeys_try_except {A} (P P1 : exn -> Prop) (m h : M A) (caught : exn) :
  obeys R P1 m -> obeys R P h ->
  (forall e, P1 e -> e <> caught -> P e) ->
  obeys R P (try_except m caught h).
Proof.
  intros Hm Hh Himp w. unfold try_except. destruct (Hm w) as [HR HP].
  destruct (m w) as [[a|e] w1]; simpl in *.
  - split; [done | discriminate].
  - case_bool_decide as Hc.
    + destruct (Hh w1) as [HR' HP']. split; [by etrans | done].
    + split; [done|]. intros e' [= <-]. apply Himp; [by apply HP | done].
Qed.

Lemma obeys_weaken {A} (P P' : exn -> Prop) (m : M A) :
  obeys R P m -> (forall e, P e -> P' e) -> obeys R P' m.
Proof.
  intros Hm Himp w. destruct (Hm w) as [HR HP]. split; [done|].
  intros e He. by apply Himp, HP.
Qed.

End ObeysRules.

(** The exceptions of the synchronizer and of decoding; never [FileError]. *)
Definition not_file_error (e : exn) : Prop :=
  match e with FileError _ => False | _ => True end.

(** The registry and the id of every object are unchanged. *)
Definition same_ids (w w' : World) : Prop :=
  files w' = files w /\ file_id <$> heap w' = file_id <$> heap w.

#[global] Instance same_ids_refl : Reflexive same_ids.
Proof. by intros w. Qed.

#[global] Instance same_ids_trans : Transitive same_ids.
Proof. intros w1 w2 w3 [H1 H2] [H3 H4]. split; congruence. Qed.

(** Only read effects were performed: nothing but the trace changed. *)
Definition is_read (eff : effect) : Prop :=
  match eff with
  | EVlobRead _ _ _ | EBlockRead _ => True
  | _ => False
  end.

Definition only_reads (w w' : World) : Prop :=
  heap w' = heap w /\ files w' = files w /\ sync w' = sync w /\ rnd w' = rnd w
  /\ exists tr, trace w' = trace w ++ tr /\ Forall is_read tr.

#[global] Instance only_reads_refl : Reflexive only_reads.
Proof.
  intros w. repeat split. exists []. by rewrite app_nil_r.
Qed.

#[global] Instance only_reads_trans : Transitive only_reads.
Proof.
  intros w1 w2 w3 (H1 & H2 & H3 & H4 & tr & H5 & H6)
    (H1' & H2' & H3' & H4' & tr' & H5' & H6').
  repeat split; try congruence.
  exists (tr ++ tr'). split; [|by apply Forall_app].
  by rewrite H5', H5, app_assoc.
Qed.

(** Assignments that keep the id of the object. *)
Lemma same_ids_alter (g : File -> File) (self : addr) (w : World) h fs s r t :
  (forall f, file_id (g f) = file_id f) ->
  h = alter g self (heap w) -> fs = files w ->
  same_ids w (mkWorld h fs s r t).
Proof.
  intros Hg -> ->. split; [done|]. simpl.
  apply list_eq. intros i. rewrite !list_lookup_fmap.
  destruct (decide (i = self)) as [->|Hne].
  - rewrite list_lookup_alter_eq.
    destruct (heap w !! self) as [f|]; simpl.
    + by rewrite Hg.
    + done.
  - rewrite list_lookup_alter_ne; [done | congruence].
Qed.

(** The synchronizer never raises [FileError], and its reads leave it
    unchanged. *)
Ltac handler_cases :=
  intros; simpl in *;
  repeat match goal with
         | H : context [match ?x with _ => _ end] |- _ => destruct x eqn:?; simpl in H
         | H : context [if ?b then _ else _] |- _ => destruct b eqn:?; simpl in H
         end;
  simplify_eq/=; try done.

Lemma block_create_raises content s e :
  fst (Synchronizer.block_create content s) = Raise e -> not_file_error e.
Proof. unfold Synchronizer.block_create. handler_cases. Qed.

Lemma block_read_raises id s e :
  fst (Synchronizer.block_read id s) = Raise e -> not_file_error e.
Proof. unfold Synchronizer.block_read, of_option. handler_cases. Qed.

Lemma block_read_pure id s : snd (Synchronizer.block_read id s) = s.
Proof. unfold Synchronizer.block_read. by destruct (_ !! _). Qed.

Lemma block_delete_raises id s e :
  fst (Synchronizer.block_delete id s) = Raise e -> e = BlockNotFound.
Proof. unfold Synchronizer.block_delete. handler_cases. Qed.

Lemma block_synchronize_raises id s e :
  fst (Synchronizer.block_synchronize id s) = Raise e -> not_file_error e.
Proof. unfold Synchronizer.block_synchronize. handler_cases. Qed.

Lemma vlob_create_raises blob s e :
  fst (Synchronizer.vlob_create blob s) = Raise e -> not_file_error e.
Proof. unfold Synchronizer.vlob_create. handler_cases. Qed.

Lemma backend_read_raises id ts v s e :
  Synchronizer.backend_read id ts v s = Raise e -> not_file_error e.
Proof. unfold Synchronizer.backend_read. handler_cases. Qed.

Lemma vlob_read_raises id ts v s e :
  fst (Synchronizer.vlob_read id ts v s) = Raise e -> not_file_error e.
Proof.
  unfold Synchronizer.vlob_read.
  destruct (Synchronizer.local_vlobs s !! id); simpl;
    repeat (case_match; simpl); try discriminate;
    try apply backend_read_raises; by intros [= <-].
Qed.

Lemma vlob_read_pure id ts v s : snd (Synchronizer.vlob_read id ts v s) = s.
Proof. unfold Synchronizer.vlob_read. by repeat case_match. Qed.

Lemma vlob_update_raises id ts v blob s e :
  fst (Synchronizer.vlob_update id ts v blob s) = Raise e -> not_file_error e.
Proof. unfold Synchronizer.vlob_update. handler_cases. Qed.

Lemma vlob_delete_raises id s e :
  fst (Synchronizer.vlob_delete id s) = Raise e -> e = VlobNotFound.
Proof. unfold Synchronizer.vlob_delete. handler_cases. Qed.

Lemma vlob_list_raises s e :
  fst (Synchronizer.vlob_list s) = Raise e -> not_file_error e.
Proof. discriminate. Qed.

Lemma vlob_synchronize_raises id s e :
  fst (Synchronizer.vlob_synchronize id s) = Raise e -> not_file_error e.
Proof. unfold Synchronizer.vlob_synchronize. handler_cases. Qed.

Lemma block_delete_not_file_error id s e :
  fst (Synchronizer.block_delete id s) = Raise e -> not_file_error e.
Proof. by intros ->%block_delete_raises. Qed.

Lemma vlob_delete_not_file_error id s e :
  fst (Synchronizer.vlob_delete id s) = Raise e -> not_file_error e.
Proof. by intros ->%vlob_delete_raises. Qed.

Lemma of_option_raises {A} (e0 e : exn) (o : option A) :
  of_option e0 o = Raise e -> e = e0.
Proof. destruct o; simpl; [discriminate | by intros [= <-]]. Qed.

Lemma decrypt_raises {E : Externals} k c e :
  Crypto.decrypt k c = Raise e -> e = InvalidTag.
Proof. apply of_option_raises. Qed.

Lemma load_sym_key_raises raw_key e :
  Crypto.load_sym_key raw_key = Raise e -> e = ValueError.
Proof.
  unfold Crypto.load_sym_key, Crypto.AESKey_init.
  case_bool_decide; [discriminate | by intros [= <-]].
Qed.

(** Primitive steps under [same_ids]. *)
Lemma perform_same_ids {A} (P : exn -> Prop) (eff : effect)
    (h : Synchronizer.t -> result A * Synchronizer.t) :
  (forall s e, fst (h s) = Raise e -> P e) ->
  obeys same_ids P (perform eff h).
Proof.
  intros Hh w. unfold perform. specialize (Hh (sync w)).
  destruct (h (sync w)) as [r s']. simpl in *. by split.
Qed.

Lemma with_entropy_same_ids {A} P (f : entropy -> A * entropy) :
  obeys same_ids P (with_entropy f).
Proof.
  intros w. unfold with_entropy. destruct (f (rnd w)). simpl.
  split; [done | discriminate].
Qed.

Lemma set_self_same_ids P (self : addr) (g : File -> File) :
  (forall f, file_id (g f) = file_id f) ->
  obeys same_ids P (set_self self g).
Proof.
  intros Hg w. unfold set_self. simpl. split; [|discriminate].
  by eapply same_ids_alter.
Qed.

(** Primitive steps under [only_reads]. *)
Lemma perform_only_reads {A} (P : exn -> Prop) (eff : effect)
    (h : Synchronizer.t -> result A * Synchronizer.t) :
  is_read eff -> (forall s, snd (h s) = s) ->
  (forall s e, fst (h s) = Raise e -> P e) ->
  obeys only_reads P (perform eff h).
Proof.
  intros Heff Hpure Hh w. unfold perform.
  specialize (Hh (sync w)). specialize (Hpure (sync w)).
  destruct (h (sync w)) as [r s']. simpl in *. subst s'.
  split; [|done]. repeat split. exists [eff]. split; [done|].
  by apply Forall_singleton.
Qed.

Create HintDb obeys.

Ltac obeys_side :=
  first
    [ done
    | by intros []
    | solve [ eauto 3 using block_create_raises, block_read_raises,
                block_delete_not_file_error, vlob_delete_not_file_error,
                block_synchronize_raises, vlob_create_raises, vlob_read_raises,
                vlob_update_raises, vlob_list_raises, vlob_synchronize_raises ]
    | intros ? ?Hr;
      first [ apply of_option_raises in Hr | apply decrypt_raises in Hr
            | apply load_sym_key_raises in Hr ];
      by subst ].

Ltac obeys_step :=
  lazymatch goal with
  | |- obeys ?R ?P (ret _) => apply (obeys_ret R P)
  | |- obeys ?R ?P (bind _ _) => apply (obeys_bind R P); [|intros]
  | |- obeys ?R ?P (for_each _ _ _) => apply (obeys_for_each R P); intros
  | |- obeys ?R ?P (get_self _) => apply (obeys_get_self R P); done
  | |- obeys ?R ?P (registry_lookup _) => apply (obeys_registry_lookup R P)
  | |- obeys ?R ?P (lift_result _) => apply (obeys_lift_result R P); obeys_side
  | |- obeys ?R ?P (raise _) => apply (obeys_raise R P); done
  | |- obeys same_ids ?P (perform _ _) => apply perform_same_ids; obeys_side
  | |- obeys only_reads ?P (perform _ _) =>
      apply perform_only_reads;
      [ done
      | first [ apply block_read_pure | apply vlob_read_pure ]
      | obeys_side ]
  | |- obeys same_ids ?P (with_entropy _) => apply with_entropy_same_ids
  | |- obeys same_ids ?P (set_self _ _) => apply set_self_same_ids; obeys_side
  | |- obeys ?R ?P (try_except _ _ _) =>
      apply (obeys_try_except R P not_file_error); [ | | by intros ]
  | |- obeys _ _ (match ?x with _ => _ end) => destruct x
  | |- obeys ?R _ _ =>
      first
        [ solve [ auto 1 with obeys nocore ]
        | eapply (obeys_weaken R); [ solve [ auto 1 with obeys nocore ] | done ] ]
  end.

Ltac obeys_auto := repeat obeys_step.

Section FileFrames.
Context {E : Externals}.
Import FileEngine.

(** The read path performs only reads. *)
Lemma read_block_only_reads k id : obeys only_reads not_file_error (read_block k id).
Proof. unfold read_block. obeys_auto. Qed.
Hint Resolve read_block_only_reads : obeys.

Lemma find_block_only_reads sz off bk k st bp :
  obeys only_reads not_file_error (find_block sz off bk k st bp).
Proof. unfold find_block. obeys_auto. Qed.
Hint Resolve find_block_only_reads : obeys.

Lemma find_matching_blocks_only_reads self sz off :
  obeys only_reads not_file_error (_find_matching_blocks self sz off).
Proof. unfold _find_matching_blocks, read_payload, find_group. obeys_auto. Qed.
Hint Resolve find_matching_blocks_only_reads : obeys.

Lemma get_blocks_only_reads self : obeys only_reads not_file_error (get_blocks self).
Proof. unfold get_blocks. obeys_auto. Qed.

(** Everything but [create], [load], [commit] and [reencrypt] leaves the
    registry and the ids of the handles alone, and raises no [FileError]
    ([restore] apart). *)
Lemma write_same_ids self data offset :
  obeys same_ids not_file_error (write self data offset).
Proof. unfold write. obeys_auto. Qed.

Lemma truncate_same_ids self length :
  obeys same_ids not_file_error (truncate self length).
Proof. unfold truncate. obeys_auto. Qed.

Lemma read_block_same_ids k id : obeys same_ids not_file_error (read_block k id).
Proof. unfold read_block. obeys_auto. Qed.
Hint Resolve read_block_same_ids : obeys.

Lemma find_block_same_ids sz off bk k st bp :
  obeys same_ids not_file_error (find_block sz off bk k st bp).
Proof. unfold find_block. obeys_auto. Qed.
Hint Resolve find_block_same_ids : obeys.

Lemma find_matching_blocks_same_ids self sz off :
  obeys same_ids not_file_error (_find_matching_blocks self sz off).
Proof. unfold _find_matching_blocks, read_payload, find_group. obeys_auto. Qed.
Hint Resolve find_matching_blocks_same_ids : obeys.

Lemma get_blocks_same_ids self : obeys same_ids not_file_error (get_blocks self).
Proof. unfold get_blocks. obeys_auto. Qed.
Hint Resolve get_blocks_same_ids : obeys.

Lemma build_file_blocks_same_ids self data :
  obeys same_ids not_file_error (_build_file_blocks self data).
Proof. unfold _build_file_blocks, build_block. obeys_auto. Qed.
Hint Resolve build_file_blocks_same_ids : obeys.

Lemma update_vlob_same_ids self blob :
  obeys same_ids not_file_error (update_vlob self blob).
Proof. unfold update_vlob. obeys_auto. Qed.
Hint Resolve update_vlob_same_ids : obeys.

Lemma flush_same_ids self : obeys same_ids not_file_error (flush self).
Proof. unfold flush, flush_region, clean_block. obeys_auto. Qed.
Hint Resolve flush_same_ids : obeys.

Lemma read_same_ids self sz off : obeys same_ids not_file_error (read self sz off).
Proof. unfold read, read_group, read_chunk. obeys_auto. Qed.

Lemma discard_same_ids self : obeys same_ids not_file_error (discard self).
Proof. unfold discard, discard_block. obeys_auto. Qed.
Hint Resolve discard_same_ids : obeys.

Lemma restore_same_ids self v : obeys same_ids (fun _ => True) (restore self v).
Proof. unfold restore. obeys_auto. Qed.

(** After the version check [restore] raises no [FileError]. *)
Lemma restore_tail_no_file_error self (k : bool -> M unit) :
  (forall b, obeys same_ids not_file_error (k b)) ->
  obeys same_ids not_file_error (bind (discard self) k).
Proof. intros Hk. obeys_auto. Qed.

End FileFrames.

(** C10: for every File handle whose modification queue is empty,
    [flush()] returns at once: the whole state is unchanged, so no effect is
    performed (the trace is the same) and the handle (id, version, dirty
    flag, encryptor) and the registry are as before. *)
Theorem flush_empty_queue_is_noop
    (E : Externals) (self : addr) (w : World) (f : File) :
  heap w !! self = Some f ->
  modifications f = [] ->
  FileEngine.flush self w = (Ok tt, w)
  /\ trace (snd (FileEngine.flush self w)) = trace w
  /\ heap (snd (FileEngine.flush self w)) !! self = Some f
  /\ files (snd (FileEngine.flush self w)) = files w
  /\ sync (snd (FileEngine.flush self w)) = sync w.
Proof.
  intros Hf Hm.
  assert (H : FileEngine.flush self w = (Ok tt, w)).
  { unfold FileEngine.flush, bind, get_self. rewrite Hf. simpl. by rewrite Hm. }
  rewrite H. done.
Qed.

Lemma flush_empty_queue_is_noop_witness :
  heap world_created !! 0%nat = Some file_created
  /\ modifications file_created = []
  /\ FileEngine.flush (E := Sim.externals) 0%nat world_created
     = (Ok tt, world_created).
Proof.
  assert (H1 : heap world_created !! 0%nat = Some file_created)
    by (vm_compute; reflexivity).
  assert (H2 : modifications file_created = []) by (vm_compute; reflexivity).
  split; [exact H1|]. split; [exact H2|].
  apply (flush_empty_queue_is_noop Sim.externals 0%nat world_created
           file_created H1 H2).
Defined.

(** C9 (as the code has it): [discard()] never touches [File.files]: from
    every state, and whether it returns or raises, the registry after
    [discard()] is the registry before, and every handle keeps its id; a
    handle registered before the call is still registered after it. *)
Theorem discard_keeps_registry (E : Externals) (self : addr) (w : World) :
  files (snd (FileEngine.discard self w)) = files w
  /\ file_id <$> heap (snd (FileEngine.discard self w)) = file_id <$> heap w.
Proof. apply (discard_same_ids self w). Qed.

(** C9 (as stated) fails: after [create()] and a [discard()] that completes
    and returns [True], the registry still maps the handle's id (1) to the
    handle. *)
Lemma discard_does_not_release_handle :
  let w' := FileEngine.discard (E := Sim.externals) 0%nat world_created in
  file_id <$> heap world_created !! 0%nat = Some 1%nat
  /\ files world_created !! 1%nat = Some 0%nat
  /\ fst w' = Ok true
  /\ file_id <$> heap (snd w') !! 0%nat = Some 1%nat
  /\ files (snd w') !! 1%nat = Some 0%nat.
Proof. vm_compute. repeat split; reflexivity. Qed.

(** C7 (as the code has it): [restore(version)] fails with
    [FileError('bad_version')] if and only if the requested version, which
    for the default argument is [get_version() - 1], is less than 1 or
    greater than or equal to [get_version()]. So an in-range version never
    raises it, and the default argument raises it exactly when
    [get_version() <= 1]. *)
Theorem restore_bad_version_iff
    (E : Externals) (self : addr) (version : option Z) (w : World) (f : File) :
  heap w !! self = Some f ->
  let requested :=
    match version with
    | None => FileEngine.get_version f - 1
    | Some v => v
    end in
  (fst (FileEngine.restore self version w) = Raise (FileError "bad_version")
   <-> requested < 1 \/ requested >= FileEngine.get_version f)
  /\ (fst (FileEngine.restore self None w) = Raise (FileError "bad_version")
      <-> FileEngine.get_version f <= 1).
Proof.
  intros Hf requested.
  assert (Hgen : forall v,
    let req := match v with None => FileEngine.get_version f - 1 | Some v => v end in
    fst (FileEngine.restore self v w) = Raise (FileError "bad_version")
    <-> req < 1 \/ req >= FileEngine.get_version f).
  { intros v req. unfold FileEngine.restore.
    unfold bind at 1. unfold get_self at 1. rewrite Hf. simpl.
    fold req.
    destruct ((req <? 1) || (req >=? FileEngine.get_version f)) eqn:Hc.
    - simpl. split; [intros _ | done].
      apply orb_true_iff in Hc. destruct Hc as [Hc|Hc]; [left | right]; lia.
    - apply orb_false_iff in Hc. destruct Hc as [Hc1 Hc2].
      split; [|lia]. intros Hr. exfalso.
      match type of Hr with
      | fst (bind (FileEngine.discard self) ?k w) = _ =>
          assert (Ho : obeys same_ids not_file_error
                         (bind (FileEngine.discard self) k))
      end.
      { apply restore_tail_no_file_error. intros b. obeys_auto. }
      destruct (Ho w) as [_ Hp]. by apply Hp in Hr. }
  split; [apply Hgen|].
  rewrite (Hgen None). simpl. lia.
Qed.

Lemma restore_bad_version_iff_witness :
  heap world_created !! 0%nat = Some file_created
  /\ (fst (FileEngine.restore (E := Sim.externals) 0%nat None world_created)
      = Raise (FileError "bad_version")
      <-> FileEngine.get_version file_created <= 1).
Proof.
  assert (H1 : heap world_created !! 0%nat = Some file_created)
    by (vm_compute; reflexivity).
  split; [exact H1|].
  apply (restore_bad_version_iff Sim.externals 0%nat None world_created
           file_created H1).
Defined.

(** C7 (as stated) fails for the default argument: on a newly created file
    ([version = 0], [dirty], so [get_version() = 1]) [restore()] raises
    [FileError('bad_version')]. *)
Lemma restore_default_raises_bad_version_on_new_file :
  FileEngine.get_version file_created = 1
  /\ fst (FileEngine.restore (E := Sim.externals) 0%nat None world_created)
     = Raise (FileError "bad_version").
Proof. vm_compute. split; reflexivity. Qed.

(** ** Chunks and block metadata *)

Lemma py_range0_length (stop step : Z) :
  length (py_range0 stop step) = Z.to_nat ((stop + step - 1) / step).
Proof. unfold py_range0. by rewrite length_map, length_seq. Qed.

(** A slice of [chunk_size] bytes that starts inside the data. *)
Lemma slice_chunk (data : bytes) (k : nat) :
  Z.of_nat k * chunk_size <= len data ->
  slice (Z.of_nat k * chunk_size) (Z.of_nat k * chunk_size + chunk_size) data
  = take 4096 (drop (k * 4096) data).
Proof.
  intros Hk. unfold slice, py_index, chunk_size in *.
  destruct (Z.ltb_spec (Z.of_nat k * 4096) 0); [lia|].
  destruct (Z.ltb_spec (Z.of_nat k * 4096 + 4096) 0); [lia|].
  rewrite (Z.min_l (Z.of_nat k * 4096)) by lia.
  replace (Z.to_nat (Z.of_nat k * 4096)) with (k * 4096)%nat by lia.
  destruct (Z.le_ge_cases (Z.of_nat k * 4096 + 4096) (len data)) as [Hle|Hge].
  - rewrite Z.min_l by lia. f_equal. lia.
  - rewrite Z.min_r by lia.
    assert (Hd : length (drop (k * 4096) data) = Z.to_nat (len data - Z.of_nat k * 4096)).
    { rewrite length_drop. unfold len. lia. }
    rewrite <- Hd. rewrite firstn_all.
    symmetry. apply take_ge. rewrite Hd. unfold len in *. lia.
Qed.

(** The chunks are the consecutive 4096-byte pieces of the data. *)
Lemma make_chunks_pieces (data : bytes) :
  data <> [] ->
  make_chunks data
  = map (fun k => take 4096 (drop (k * 4096) data))
        (seq 0 (Z.to_nat ((len data + 4095) / 4096))).
Proof.
  intros Hne. unfold make_chunks, py_range0.
  change (len data + chunk_size - 1) with (len data + 4096 - 1).
  replace (len data + 4096 - 1) with (len data + 4095) by lia.
  change ((len data + 4095) / chunk_size) with ((len data + 4095) / 4096).
  set (n := Z.to_nat ((len data + 4095) / 4096)).
  assert (Hn : (1 <= n)%nat).
  { subst n. assert (0 < len data) by (unfold len; destruct data; simpl; [done | lia]).
    assert (1 <= (len data + 4095) / 4096) by (apply Z.div_le_lower_bound; lia).
    lia. }
  rewrite map_map.
  assert (Heq : map (fun k => slice (Z.of_nat k * chunk_size)
                                (Z.of_nat k * chunk_size + chunk_size) data) (seq 0 n)
                = map (fun k => take 4096 (drop (k * 4096) data)) (seq 0 n)).
  { apply map_ext_in. intros k Hk. apply in_seq in Hk. apply slice_chunk.
    unfold chunk_size. subst n.
    assert (Z.of_nat k < (len data + 4095) / 4096) by lia.
    assert (Z.of_nat k + 1 <= (len data + 4095) / 4096) by lia.
    assert (4096 * ((len data + 4095) / 4096) <= len data + 4095)
      by (apply Z.mul_div_le; lia).
    lia. }
  rewrite Heq.
  destruct n as [|n]; [lia|]. reflexivity.
Qed.

Lemma make_chunks_empty : make_chunks [] = [[]].
Proof. reflexivity. Qed.

Lemma concat_pieces (n : nat) (data : bytes) :
  (length data <= n * 4096)%nat ->
  concat (map (fun k => take 4096 (drop (k * 4096) data)) (seq 0 n)) = data.
Proof.
  revert data. induction n as [|n IH]; intros data Hlen.
  - simpl in *. destruct data; [done | simpl in Hlen; lia].
  - rewrite <- cons_seq, <- fmap_S_seq. simpl seq. rewrite map_cons, concat_cons.
    change (S <$> seq 0 n) with (map S (seq 0 n)). rewrite map_map.
    rewrite drop_0.
    rewrite (map_ext (fun k => take 4096 (drop (S k * 4096) data))
                     (fun k => take 4096 (drop (k * 4096) (drop 4096 data)))).
    + rewrite IH; [apply take_drop|]. rewrite length_drop. lia.
    + intros k. rewrite drop_drop. do 2 f_equal; lia.
Qed.

Lemma make_chunks_concat (data : bytes) : concat (make_chunks data) = data.
Proof.
  destruct data as [|b data]; [reflexivity|].
  rewrite make_chunks_pieces by done. apply concat_pieces.
  assert (4096 * ((len (b :: data) + 4095) / 4096) > len (b :: data) + 4095 - 4096).
  { pose proof (Z.mod_pos_bound (len (b :: data) + 4095) 4096 eq_refl).
    pose proof (Z.div_mod (len (b :: data) + 4095) 4096). lia. }
  pose proof (len_nonneg (b :: data)).
  assert (0 <= (len (b :: data) + 4095) / 4096) by (apply Z.div_pos; lia).
  unfold len in *. lia.
Qed.

Lemma make_chunks_length (data : bytes) :
  length (make_chunks data) = Z.to_nat (Z.max 1 ((len data + 4095) / 4096)).
Proof.
  destruct data as [|b data]; [reflexivity|].
  rewrite make_chunks_pieces by done. rewrite length_map, length_seq.
  assert (1 <= (len (b :: data) + 4095) / 4096).
  { apply Z.div_le_lower_bound; [lia|]. unfold len. simpl length. lia. }
  lia.
Qed.

Lemma make_chunks_lookup (data : bytes) (i : nat) (chunk : bytes) :
  make_chunks data !! i = Some chunk ->
  chunk = take 4096 (drop (i * 4096) data) /\ len chunk <= chunk_size.
Proof.
  intros Hi.
  assert (Hc : chunk = take 4096 (drop (i * 4096) data)).
  { destruct data as [|b data].
    - destruct i; simpl in Hi; [|done]. injection Hi as <-.
      by rewrite drop_nil.
    - rewrite make_chunks_pieces in Hi by done.
      rewrite list_lookup_fmap in Hi.
      destruct (seq 0 _ !! i) as [k|] eqn:Hk; [|done].
      apply lookup_seq in Hk as [-> _]. simpl in Hi. by injection Hi as <-. }
  split; [done|]. subst chunk. unfold len, chunk_size. rewrite length_take. lia.
Qed.

(** What [_build_file_blocks] records for one chunk. *)
Definition meta_of_chunk {E : Externals} (bp : BlockMeta) (chunk : bytes) : Prop :=
  bm_digest bp = digest chunk /\ bm_size bp = len chunk.

Section BuildFileBlocks.
Context {E : Externals}.
Import FileEngine.

Lemma build_block_spec (k : AESKey) (acc : list BlockMeta) (chunk : bytes) (w : World) :
  exists id w',
    build_block k acc chunk w
    = (Ok (acc ++ [mkBlockMeta id (digest chunk) (len chunk)]), w')
    /\ trace w'
       = trace w ++ [EBlockCreate (to_jsonb64 (fst (Crypto.encrypt k chunk (rnd w))))]
    /\ heap w' = heap w /\ files w' = files w.
Proof.
  unfold build_block, bind, with_entropy, perform, Synchronizer.block_create, ret.
  destruct (Crypto.encrypt k chunk (rnd w)) as [c r'] eqn:Hc. simpl.
  eexists _, _. split; [reflexivity|]. done.
Qed.

Lemma build_blocks_spec (k : AESKey) (chunks : list bytes) (acc : list BlockMeta)
    (w : World) :
  exists bps w',
    for_each (build_block k) chunks acc w = (Ok (acc ++ bps), w')
    /\ Forall2 meta_of_chunk bps chunks
    /\ Forall2 (fun eff chunk => exists r,
                  eff = EBlockCreate (to_jsonb64 (fst (Crypto.encrypt k chunk r))))
               (drop (length (trace w)) (trace w')) chunks
    /\ (length (trace w) <= length (trace w'))%nat
    /\ take (length (trace w)) (trace w') = trace w
    /\ heap w' = heap w /\ files w' = files w.
Proof.
  revert acc w. induction chunks as [|chunk chunks IH]; intros acc w.
  - exists [], w. simpl. unfold ret. rewrite app_nil_r, drop_all, firstn_all.
    repeat split; try done; constructor.
  - simpl. unfold bind.
    destruct (build_block_spec k acc chunk w) as (id & w1 & -> & Ht & Hh & Hf).
    destruct (IH (acc ++ [mkBlockMeta id (digest chunk) (len chunk)]) w1)
      as (bps & w' & -> & Hm & Hc & Hle & Htk & Hh' & Hf').
    exists (mkBlockMeta id (digest chunk) (len chunk) :: bps), w'.
    rewrite <- app_assoc. split; [done|].
    assert (Hlen1 : length (trace w1) = S (length (trace w)))
      by (rewrite Ht, length_app; simpl; lia).
    assert (Hw' : trace w' = trace w1 ++ drop (length (trace w1)) (trace w'))
      by (rewrite <- Htk at 1; by rewrite take_drop).
    repeat split; try congruence; try lia.
    + by constructor.
    + rewrite Hw' at 1. rewrite Ht, <- app_assoc, drop_app_length. simpl.
      constructor; [by eexists | by rewrite <- Ht].
    + rewrite Hw'. rewrite Ht at 1. rewrite <- app_assoc. by rewrite take_app_length.
Qed.

(** The block [bp] is buffered as an encryption of [chunk] under [k]. *)
Definition stored_as (k : AESKey) (s : Synchronizer.t) (bp : BlockMeta)
    (chunk : bytes) : Prop :=
  exists r,
    Synchronizer.local_blocks s !! block bp
    = Some (to_jsonb64 (fst (Crypto.encrypt k chunk r))).

Lemma build_block_eq (k : AESKey) (acc : list BlockMeta) (chunk : bytes) (w : World) :
  let content := to_jsonb64 (fst (Crypto.encrypt k chunk (rnd w))) in
  build_block k acc chunk w
  = (Ok (acc ++ [mkBlockMeta (Synchronizer.next_id (sync w)) (digest chunk) (len chunk)]),
     mkWorld (heap w) (files w)
       (snd (Synchronizer.block_create content (sync w)))
       (snd (Crypto.encrypt k chunk (rnd w)))
       (trace w ++ [EBlockCreate content])).
Proof.
  unfold build_block, bind, with_entropy, perform, Synchronizer.block_create, ret.
  by destruct (Crypto.encrypt k chunk (rnd w)) as [c r'].
Qed.

Lemma build_blocks_stored (k : AESKey) (chunks : list bytes) (acc : list BlockMeta)
    (w : World) :
  exists bps w',
    for_each (build_block k) chunks acc w = (Ok (acc ++ bps), w')
    /\ Forall2 (stored_as k (sync w')) bps chunks
    /\ (Synchronizer.next_id (sync w) <= Synchronizer.next_id (sync w'))%nat
    /\ (forall id, (id < Synchronizer.next_id (sync w))%nat ->
          Synchronizer.local_blocks (sync w') !! id
          = Synchronizer.local_blocks (sync w) !! id).
Proof.
  revert acc w. induction chunks as [|chunk chunks IH]; intros acc w.
  - exists [], w. simpl. unfold ret. rewrite app_nil_r.
    repeat split; try done; constructor.
  - simpl. unfold bind. rewrite build_block_eq.
    set (content := to_jsonb64 (fst (Crypto.encrypt k chunk (rnd w)))).
    set (w1 := mkWorld _ _ _ _ _).
    destruct (IH (acc ++ [mkBlockMeta (Synchronizer.next_id (sync w))
                            (digest chunk) (len chunk)]) w1)
      as (bps & w' & -> & Hst & Hle & Hpres).
    exists (mkBlockMeta (Synchronizer.next_id (sync w)) (digest chunk) (len chunk)
              :: bps), w'.
    rewrite <- app_assoc. split; [done|].
    assert (Hn1 : Synchronizer.next_id (sync w1) = S (Synchronizer.next_id (sync w)))
      by done.
    split; [|split].
    + constructor; [|done]. exists (rnd w). simpl.
      rewrite Hpres by (rewrite Hn1; lia).
      subst w1. simpl. by rewrite lookup_insert_eq.
    + lia.
    + intros id Hid. rewrite Hpres by lia.
      subst w1. simpl. rewrite lookup_insert_ne; [done | lia].
Qed.

End BuildFileBlocks.

(** [_build_file_blocks] always returns: the group it builds, the key it
    drew and the blocks it created. *)
Lemma build_file_blocks_run
    (E : Externals) (self : addr) (data : bytes) (w : World) :
  exists (group : BlockGroup) (w' : World) (k : AESKey),
    FileEngine._build_file_blocks self data w = (Ok group, w')
    /\ key group = to_jsonb64 (Crypto.key_of k)
    /\ Crypto.load_sym_key (Crypto.key_of k) = Ok k
    /\ heap w' = alter (set_dirty true) self (heap w)
    /\ Forall2 meta_of_chunk (blocks group) (make_chunks data)
    /\ Forall2 (stored_as k (sync w')) (blocks group) (make_chunks data)
    /\ exists created,
         trace w' = trace w ++ created
         /\ Forall2 (fun eff chunk => exists r,
                       eff = EBlockCreate
                               (to_jsonb64 (fst (Crypto.encrypt k chunk r))))
                    created (make_chunks data).
Proof.
  unfold FileEngine._build_file_blocks.
  unfold bind at 1. unfold with_entropy at 1.
  pose proof (proj2 (generate_sym_key_accepted (rnd w))) as Hacc.
  destruct (Crypto.generate_sym_key (rnd w)) as [k r'] eqn:Hk.
  set (w0 := mkWorld (heap w) (files w) (sync w) r' (trace w)).
  unfold bind at 1.
  destruct (build_blocks_spec k (make_chunks data) [] w0)
    as (bps & w1 & Heq & Hm & Hc & Hle & Htk & Hheap & _).
  destruct (build_blocks_stored k (make_chunks data) [] w0)
    as (bps' & w1' & Heq' & Hst & _ & _).
  rewrite Heq in Heq'. injection Heq' as <- <-. rewrite Heq.
  simpl. eexists _, _, k. split; [reflexivity|]. simpl.
  split; [done|]. split; [done|]. split; [by rewrite Hheap|].
  split; [done|]. split; [done|].
  exists (drop (length (trace w)) (trace w1)). split; [|done].
  rewrite <- (take_drop (length (trace w0)) (trace w1)) at 1. by rewrite Htk.
Qed.

(** [_build_file_blocks(data)] always returns a block group with one
    BlockMeta per chunk, in order, where the chunks are the consecutive
    slices of [data] at 4096-byte boundaries (they concatenate to [data],
    chunk [i] is [data[4096*i : 4096*(i+1)]], there are
    [max(1, ceil(len(data)/4096))] of them, and empty data gives the single
    empty chunk); the [digest] field of every BlockMeta is the digest of its
    cleartext chunk and its [size] field is the chunk's length; exactly one
    [EBlockCreate] is performed per chunk, with an encryption of that chunk
    under the key of the group, and the block is buffered under the id the
    BlockMeta records. *)
Lemma build_file_blocks_chunking
    (E : Externals) (self : addr) (data : bytes) (w : World) :
  exists (group : BlockGroup) (w' : World) (k : AESKey),
    FileEngine._build_file_blocks self data w = (Ok group, w')
    /\ key group = to_jsonb64 (Crypto.key_of k)
    /\ Forall2 meta_of_chunk (blocks group) (make_chunks data)
    /\ Forall2 (stored_as k (sync w')) (blocks group) (make_chunks data)
    /\ (exists created,
          trace w' = trace w ++ created
          /\ Forall2 (fun eff chunk => exists r,
                        eff = EBlockCreate
                                (to_jsonb64 (fst (Crypto.encrypt k chunk r))))
                     created (make_chunks data))
    /\ concat (make_chunks data) = data
    /\ (forall i chunk,
          make_chunks data !! i = Some chunk ->
          chunk = take 4096 (drop (i * 4096) data) /\ len chunk <= chunk_size)
    /\ length (make_chunks data) = Z.to_nat (Z.max 1 ((len data + 4095) / 4096))
    /\ make_chunks [] = [[]].
Proof.
  destruct (build_file_blocks_run E self data w)
    as (group & w' & k & Heq & Hkey & _ & _ & Hm & Hst & Htr).
  exists group, w', k.
  split; [exact Heq|]. split; [exact Hkey|]. split; [exact Hm|].
  split; [exact Hst|]. split; [exact Htr|].
  split; [apply make_chunks_concat|].
  split; [apply make_chunks_lookup|].
  split; [apply make_chunks_length | reflexivity].
Qed.

(** The integrity anchor of the read path: every block that
    [_build_file_blocks] has just recorded reads back, under the key of its
    group, as the cleartext chunk whose digest and length the BlockMeta
    holds, so the two assertions of [read] hold for it. *)
Lemma build_file_blocks_integrity
    (E : Externals) (HG : GCMLaws E) (HB : Base64Laws E)
    (self : addr) (data : bytes) (w : World) :
  exists (group : BlockGroup) (w' : World) (raw_key : bytes) (k : AESKey),
    FileEngine._build_file_blocks self data w = (Ok group, w')
    /\ from_jsonb64 (key group) = Some raw_key
    /\ Crypto.load_sym_key raw_key = Ok k
    /\ Forall2 (fun bp chunk =>
                  fst (FileEngine.read_block k (block bp) w') = Ok chunk
                  /\ digest chunk = bm_digest bp
                  /\ len chunk = bm_size bp)
               (blocks group) (make_chunks data).
Proof.
  destruct (build_file_blocks_run E self data w)
    as (group & w' & k & Heq & Hkey & Hk & _ & Hm & Hst & _).
  exists group, w', (Crypto.key_of k), k. split; [done|].
  split; [by rewrite Hkey, (jsonb64_roundtrip E HB)|].
  split; [done|]. clear Heq Hkey Hk.
  revert Hm Hst. generalize (blocks group) (make_chunks data).
  induction l as [|bp bps IH]; intros chunks Hm Hst.
  - inversion Hm. constructor.
  - inversion Hm as [|? chunk ? chunks' [Hd Hs] Hm']; subst.
    inversion Hst as [|? ? ? ? [r Hr] Hst']; subst.
    constructor; [|by apply IH].
    split; [|by split].
    unfold FileEngine.read_block, bind, perform, Synchronizer.block_read,
      lift_result.
    rewrite Hr. simpl. rewrite (jsonb64_roundtrip E HB). simpl.
    by rewrite (decrypt_encrypt HG).
Qed.

Lemma Sim_base64_laws : Base64Laws Sim.externals.
Proof. split. intros b. simpl. by rewrite list_byte_of_string_of_list_byte. Qed.

(** The flush of a non-empty queue goes through [_build_file_blocks]: the
    payload written for a region is the untouched groups around one new
    group built from the new cleartext. *)
Example flush_region_builds_blocks :
  let w := snd (FileEngine.flush (E := Sim.externals) 0%nat
                  (snd (FileEngine.write 0%nat (replicate 4097 x41) 0
                          world_created))) in
  match fst (FileEngine.read_payload (E := Sim.externals) 0%nat w) with
  | Ok (_, blob) => Some (map blocks blob)
  | Raise _ => None
  end
  = Some [[mkBlockMeta 0%nat "" 0];
          [mkBlockMeta 4%nat (string_of_list_byte (replicate 4096 x41)) 4096;
           mkBlockMeta 5%nat (string_of_list_byte (replicate 1 x41)) 1]].
Proof. vm_compute. reflexivity. Qed.

(** ** The registry [File.files] *)

(** Every registered handle is registered under its own id. *)
Definition registry_ok (w : World) : Prop :=
  forall id a, files w !! id = Some a -> file_id <$> heap w !! a = Some id.

(** At most one registered handle per vlob id. *)
Definition one_handle_per_id (w : World) : Prop :=
  forall id1 id2 a1 a2 f1 f2,
    files w !! id1 = Some a1 -> files w !! id2 = Some a2 ->
    heap w !! a1 = Some f1 -> heap w !! a2 = Some f2 ->
    file_id f1 = file_id f2 -> a1 = a2.

(** The object at [self] exists and is not registered. *)
Definition unregistered (self : addr) (w : World) : Prop :=
  registry_ok w
  /\ (forall id, files w !! id <> Some self)
  /\ is_Some (heap w !! self).

(** The id of the object at [self]. *)
Definition id_at (self : addr) (id : ident) (w : World) : Prop :=
  file_id <$> heap w !! self = Some id.

(** Hoare triples for generators: [Q] when [m] returns, [X] when it raises. *)
Definition hoare {A} (P : World -> Prop) (m : M A)
    (Q : A -> World -> Prop) (X : World -> Prop) : Prop :=
  forall w, P w ->
    match m w with
    | (Ok a, w') => Q a w'
    | (Raise _, w') => X w'
    end.

(** Predicates that [same_ids] steps preserve. *)
Class IdsClosed (P : World -> Prop) : Prop :=
  ids_closed : forall w w', same_ids w w' -> P w -> P w'.

Lemma lookup_same_ids (w w' : World) (a : addr) :
  same_ids w w' -> file_id <$> heap w' !! a = file_id <$> heap w !! a.
Proof. intros [_ H]. by rewrite <- !list_lookup_fmap, H. Qed.

#[global] Instance registry_ok_closed : IdsClosed registry_ok.
Proof.
  intros w w' Hs H id a Ha. rewrite (lookup_same_ids w w' a Hs).
  apply H. destruct Hs as [Hf _]. by rewrite <- Hf.
Qed.

#[global] Instance id_at_closed self id : IdsClosed (id_at self id).
Proof. intros w w' Hs H. unfold id_at. by rewrite (lookup_same_ids w w' self Hs). Qed.

#[global] Instance unregistered_closed self : IdsClosed (unregistered self).
Proof.
  intros w w' Hs (H1 & H2 & H3). split; [by eapply registry_ok_closed|].
  split.
  - destruct Hs as [Hf _]. by rewrite Hf.
  - apply (lookup_same_ids w w' self) in Hs.
    destruct H3 as [f Hf]. rewrite Hf in Hs.
    destruct (heap w' !! self); [done | discriminate].
Qed.

#[global] Instance and_closed P Q :
  IdsClosed P -> IdsClosed Q -> IdsClosed (fun w => P w /\ Q w).
Proof. intros HP HQ w w' Hs [H1 H2]. split; [by eapply HP | by eapply HQ]. Qed.

Section HoareRules.

Lemma hoare_ret {A} (P : World -> Prop) (Q : A -> World -> Prop) X (a : A) :
  (forall w, P w -> Q a w) -> hoare P (ret a) Q X.
Proof. intros H w Hw. by apply H. Qed.

Lemma hoare_bind {A B} (P : World -> Prop) (m : M A) (k : A -> M B)
    (Q : A -> World -> Prop) (Q' : B -> World -> Prop) X :
  hoare P m Q X -> (forall a, hoare (Q a) (k a) Q' X) -> hoare P (bind m k) Q' X.
Proof.
  intros Hm Hk w Hw. unfold bind. specialize (Hm w Hw).
  destruct (m w) as [[a|e] w1]; [by apply Hk | done].
Qed.

Lemma hoare_post {A} (P : World -> Prop) (m : M A)
    (Q Q' : A -> World -> Prop) X :
  hoare P m Q X -> (forall a w, Q a w -> Q' a w) -> hoare P m Q' X.
Proof.
  intros Hm HQ w Hw. specialize (Hm w Hw).
  destruct (m w) as [[a|e] w1]; [by apply HQ | done].
Qed.

(** A step that leaves the registry and the ids alone keeps any closed
    predicate. *)
Lemma hoare_frame {A} (P : World -> Prop) (Pe : exn -> Prop) (m : M A) X :
  obeys same_ids Pe m -> IdsClosed P -> (forall w, P w -> X w) ->
  hoare P m (fun _ => P) X.
Proof.
  intros Hm HP HX w Hw. destruct (Hm w) as [Hs _].
  destruct (m w) as [[a|e] w1]; simpl in *.
  - by eapply HP.
  - apply HX. by eapply HP.
Qed.

Lemma hoare_get_self (P : World -> Prop) X (self : addr) :
  (forall w, P w -> X w) ->
  hoare P (get_self self) (fun f w => P w /\ id_at self (file_id f) w) X.
Proof.
  intros HX w Hw. unfold get_self, id_at.
  destruct (heap w !! self) as [f|] eqn:Hf; simpl; [done | by apply HX].
Qed.

Lemma hoare_alloc_file X :
  hoare registry_ok alloc_file (fun self => unregistered self) X.
Proof.
  intros w Hw. unfold alloc_file. simpl.
  assert (Hlt : forall id a, files w !! id = Some a -> (a < length (heap w))%nat).
  { intros id a Ha. apply Hw in Ha.
    destruct (heap w !! a) eqn:Hl; [|done]. by eapply lookup_lt_Some. }
  split; [|split]; simpl.
  - intros id a Ha. simpl in *. rewrite lookup_app_l by by eapply Hlt. by apply Hw.
  - intros id Ha. apply Hlt in Ha. lia.
  - rewrite lookup_app_r by done. rewrite Nat.sub_diag. by eexists.
Qed.

Lemma hoare_set_access X (self : addr) (v : vlob_access) :
  hoare (unregistered self) (set_self self (set_access v))
        (fun _ w => unregistered self w /\ id_at self (va_id v) w) X.
Proof.
  intros w (Hok & Hun & [f Hf]). unfold set_self. simpl.
  split; [split; [|split]|]; unfold id_at; simpl.
  - intros id a Ha. simpl in *.
    rewrite list_lookup_alter_ne; [by apply Hok|]. intros ->. by eapply Hun.
  - done.
  - rewrite list_lookup_alter_eq, Hf. by eexists.
  - by rewrite list_lookup_alter_eq, Hf.
Qed.

Lemma hoare_registry_set X (self : addr) (id : ident) :
  hoare (fun w => unregistered self w /\ id_at self id w) (registry_set id self)
        (fun _ => registry_ok) X.
Proof.
  intros w [(Hok & _ & _) Hid]. unfold registry_set. simpl.
  intros id' a. simpl. destruct (decide (id = id')) as [<-|Hne].
  - rewrite lookup_insert_eq. by intros [= <-].
  - rewrite lookup_insert_ne by done. apply Hok.
Qed.

Lemma hoare_registry_del (self : addr) (id : ident) :
  hoare (fun w => registry_ok w /\ id_at self id w) (registry_del id)
        (fun _ => unregistered self) registry_ok.
Proof.
  intros w [Hok Hid]. unfold registry_del.
  destruct (files w !! id) as [a|] eqn:Ha; simpl; [|done].
  split; [|split]; simpl.
  - intros id' a'. simpl. destruct (decide (id = id')) as [<-|Hne].
    + by rewrite lookup_delete_eq.
    + rewrite lookup_delete_ne by done. apply Hok.
  - intros id'. simpl. destruct (decide (id = id')) as [<-|Hne].
    + by rewrite lookup_delete_eq.
    + rewrite lookup_delete_ne by done. intros Hs. apply Hok in Hs.
      unfold id_at in Hid. congruence.
  - unfold id_at in Hid. destruct (heap w !! self); [by eexists | done].
Qed.

End HoareRules.

#[global] Hint Resolve build_file_blocks_same_ids find_matching_blocks_same_ids
  get_blocks_same_ids update_vlob_same_ids flush_same_ids discard_same_ids
  read_block_same_ids find_block_same_ids : obeys.

Lemma hoare_pre {A} (P P' : World -> Prop) (m : M A) (Q : A -> World -> Prop) X :
  (forall w, P w -> P' w) -> hoare P' m Q X -> hoare P m Q X.
Proof. intros HP Hm w Hw. by apply Hm, HP. Qed.

Lemma hoare_outcome {A} (P : World -> Prop) (m : M A) (Q : World -> Prop) :
  hoare P m (fun _ => Q) Q -> forall w, P w -> Q (snd (m w)).
Proof.
  intros Hm w Hw. specialize (Hm w Hw). by destruct (m w) as [[a|e] w1].
Qed.

Ltac to_registry_ok :=
  let H := fresh in
  intros ? H; unfold unregistered in H; tauto.

(** One step of a sequence that leaves the registry and the ids alone. *)
Ltac hframe :=
  lazy zeta;
  eapply hoare_bind;
  [ eapply (hoare_frame _ (fun _ => True)); [ obeys_auto | apply _ | to_registry_ok ] | intros ].

Section RegistryInvariant.
Context {E : Externals}.
Import FileEngine.

Lemma create_registry_ok : hoare registry_ok create (fun _ => registry_ok) registry_ok.
Proof.
  unfold create.
  eapply hoare_bind; [apply hoare_alloc_file | intros self].
  do 5 hframe.
  eapply hoare_bind; [apply hoare_set_access | intros ?].
  do 3 hframe.
  eapply hoare_bind; [apply hoare_registry_set | intros ?].
  by apply hoare_ret.
Qed.

Lemma load_registry_ok id k rts wts v :
  hoare registry_ok (load id k rts wts v) (fun _ => registry_ok) registry_ok.
Proof.
  unfold load. hframe. destruct a as [self|]; [by apply hoare_ret|].
  eapply hoare_bind; [apply hoare_alloc_file | intros self].
  eapply hoare_bind; [apply hoare_set_access | intros ?]. simpl va_id.
  do 9 hframe.
  eapply hoare_bind; [apply hoare_registry_set | intros ?].
  by apply hoare_ret.
Qed.

Lemma commit_registry_ok self :
  hoare registry_ok (commit self) (fun _ => registry_ok) registry_ok.
Proof.
  unfold commit. do 3 hframe.
  eapply hoare_bind; [by apply hoare_get_self | intros f].
  hframe.
  eapply hoare_bind with (Q := fun _ => registry_ok).
  - destruct a2 as [| |v].
    + apply hoare_ret. tauto.
    + eapply hoare_bind;
        [ eapply (hoare_frame _ (fun _ => True)); [obeys_auto | apply _ | tauto] | intros ].
      apply hoare_ret. tauto.
    + eapply hoare_bind; [apply hoare_registry_del | intros ?].
      eapply hoare_bind; [apply hoare_set_access | intros ?].
      eapply hoare_bind; [apply hoare_get_self; to_registry_ok | intros f'].
      eapply hoare_bind.
      { eapply hoare_pre; [|apply (hoare_registry_set _ self (file_id f'))].
        intros w [[H1 _] H2]. by split. }
      intros ?. hframe. by apply hoare_ret.
  - intros r. hframe. by apply hoare_ret.
Qed.

Lemma reencrypt_registry_ok self :
  hoare registry_ok (reencrypt self) (fun _ => registry_ok) registry_ok.
Proof.
  unfold reencrypt. hframe.
  eapply hoare_bind; [by apply hoare_get_self | intros f].
  do 7 (lazy zeta; eapply hoare_bind;
        [ eapply (hoare_frame _ (fun _ => True)); [obeys_auto | apply _ | tauto] | intros ]).
  eapply hoare_bind; [apply hoare_registry_del | intros ?].
  eapply hoare_bind; [apply hoare_set_access | intros ?].
  eapply hoare_bind; [apply hoare_registry_set | intros ?].
  eapply (hoare_frame _ (fun _ => True)); [obeys_auto | apply _ | done].
Qed.

End RegistryInvariant.

Lemma run_call_registry_ok {E : Externals} (c : api_call) (w : World) :
  registry_ok w -> registry_ok (run_call c w).
Proof.
  intros Hw. destruct c; simpl.
  - by apply (hoare_outcome _ _ _ create_registry_ok).
  - by apply (hoare_outcome _ _ _ (load_registry_ok _ _ _ _ _)).
  - eapply registry_ok_closed; [apply write_same_ids | done].
  - eapply registry_ok_closed; [apply truncate_same_ids | done].
  - eapply registry_ok_closed; [apply read_same_ids | done].
  - eapply registry_ok_closed; [apply flush_same_ids | done].
  - by apply (hoare_outcome _ _ _ (commit_registry_ok _)).
  - eapply registry_ok_closed; [apply discard_same_ids | done].
  - eapply registry_ok_closed; [apply restore_same_ids | done].
  - by apply (hoare_outcome _ _ _ (reencrypt_registry_ok _)).
Qed.

Lemma reachable_registry_ok {E : Externals} (w : World) :
  reachable w -> registry_ok w.
Proof.
  induction 1 as [w Hh Hf | w c _ IH].
  - intros id a. by rewrite Hf, lookup_empty.
  - by apply run_call_registry_ok.
Qed.

Lemma registry_ok_one_handle (w : World) : registry_ok w -> one_handle_per_id w.
Proof.
  intros Hok id1 id2 a1 a2 f1 f2 H1 H2 Hf1 Hf2 Hid.
  pose proof (Hok _ _ H1) as E1. pose proof (Hok _ _ H2) as E2.
  rewrite Hf1 in E1. rewrite Hf2 in E2. simpl in *.
  assert (id1 = id2) by congruence. subst. congruence.
Qed.

Lemma load_registered {E : Externals} (w : World) (id : ident) (self : addr)
    (key : string) (rts wts : seed) (version : option Z) :
  files w !! id = Some self ->
  FileEngine.load id key rts wts version w = (Ok self, w).
Proof.
  intros H. unfold FileEngine.load, bind, registry_lookup. by rewrite H.
Qed.

(** C6: in every state of a session the registry [File.files] holds at most
    one handle per vlob id (two registered handles with the same id are the
    same object, and every handle is registered under its own id), and
    [load(id, ...)] with a registered id returns the registered handle
    itself, without performing any effect or changing the state. *)
Theorem registry_one_handle_per_id (E : Externals) (w : World) :
  reachable w ->
  one_handle_per_id w
  /\ registry_ok w
  /\ forall id self key rts wts version,
       files w !! id = Some self ->
       FileEngine.load id key rts wts version w = (Ok self, w).
Proof.
  intros Hw. pose proof (reachable_registry_ok w Hw) as Hok.
  split; [by apply registry_ok_one_handle|]. split; [done|].
  intros. by apply load_registered.
Qed.

Lemma registry_one_handle_per_id_witness :
  reachable (E := Sim.externals) world_created
  /\ files world_created !! 1%nat = Some 0%nat
  /\ FileEngine.load (E := Sim.externals) 1%nat "" 0%nat 0%nat None world_created
     = (Ok 0%nat, world_created).
Proof.
  assert (Hr : reachable (E := Sim.externals) world_created).
  { unfold world_created. apply reachable_call. by apply reachable_start. }
  assert (Hf : files world_created !! 1%nat = Some 0%nat)
    by (vm_compute; reflexivity).
  split; [exact Hr|]. split; [exact Hf|].
  exact (proj2 (proj2 (registry_one_handle_per_id Sim.externals world_created Hr))
           1%nat 0%nat "" 0%nat 0%nat None Hf).
Defined.

(** ** [discard] and [restore]: the effects performed *)

(** [self.modifications = []] *)
Definition clear_modifications (self : addr) (w : World) : World :=
  snd (set_self self (set_modifications []) w).

(** The synchronizer after the requests of [discard]: [EBlockDelete] for
    each block id in turn, then [EVlobDelete]. *)
Definition discard_sync (block_ids : list ident) (id : ident)
    (s : Synchronizer.t) : Synchronizer.t :=
  snd (Synchronizer.vlob_delete id
         (fold_left (fun s block_id => snd (Synchronizer.block_delete block_id s))
                    block_ids s)).

Section Restore.
Context {E : Externals}.
Import FileEngine.

Lemma discard_block_spec (b : bool) (id : ident) (w : World) :
  exists b' w',
    discard_block b id w = (Ok b', w')
    /\ trace w' = trace w ++ [EBlockDelete id]
    /\ sync w' = snd (Synchronizer.block_delete id (sync w))
    /\ heap w' = heap w /\ files w' = files w.
Proof.
  unfold discard_block, try_except, bind, perform, Synchronizer.block_delete, ret.
  destruct (Synchronizer.local_blocks (sync w) !! id); simpl;
    eexists _, _; (split; [reflexivity | done]).
Qed.

Lemma discard_blocks_spec (ids : list ident) (b : bool) (w : World) :
  exists b' w',
    for_each discard_block ids b w = (Ok b', w')
    /\ trace w' = trace w ++ map EBlockDelete ids
    /\ sync w'
       = fold_left (fun s block_id => snd (Synchronizer.block_delete block_id s))
                   ids (sync w)
    /\ heap w' = heap w /\ files w' = files w.
Proof.
  revert b w. induction ids as [|id ids IH]; intros b w; simpl.
  - exists b, w. unfold ret. by rewrite app_nil_r.
  - unfold bind.
    destruct (discard_block_spec b id w) as (b1 & w1 & -> & Ht & Hs & Hh & Hf).
    destruct (IH b1 w1) as (b' & w' & -> & Ht' & Hs' & Hh' & Hf').
    exists b', w'. split; [done|].
    rewrite Ht', Ht, Hs', Hs, <- app_assoc. repeat split; congruence.
Qed.

(** Once the current block ids are read, [discard()] always returns: the
    deletions it requests may find nothing to delete, which it tolerates. It
    has then requested the deletion of every current block and of the vlob,
    and left the handle with an empty queue and [dirty = False]. *)
Lemma discard_run (self : addr) (w : World) (f : File)
    (block_ids : list ident) (w1 : World) :
  heap w !! self = Some f ->
  get_blocks self (clear_modifications self w) = (Ok block_ids, w1) ->
  exists r wd,
    discard self w = (Ok r, wd)
    /\ trace wd
       = trace w1 ++ map EBlockDelete block_ids ++ [EVlobDelete (file_id f)]
    /\ sync wd = discard_sync block_ids (file_id f) (sync w)
    /\ heap wd !! self = Some (set_dirty false (set_modifications [] f))
    /\ files wd = files w.
Proof.
  intros Hf. unfold discard, clear_modifications.
  unfold bind at 1. simpl.
  set (w0 := mkWorld (alter (set_modifications []) self (heap w)) (files w)
                     (sync w) (rnd w) (trace w)).
  intros Hg. unfold bind at 1. rewrite Hg.
  pose proof (get_blocks_only_reads self w0) as [Hro _].
  rewrite Hg in Hro. simpl in Hro. destruct Hro as (Hh1 & Hf1 & Hs1 & _).
  unfold bind at 1.
  destruct (discard_blocks_spec block_ids false w1)
    as (b' & w2 & -> & Ht2 & Hs2 & Hh2 & Hf2).
  assert (Hself : heap w2 !! self = Some (set_modifications [] f)).
  { rewrite Hh2, Hh1. subst w0. simpl. by rewrite list_lookup_alter_eq, Hf. }
  assert (Hsync : sync w2
                  = fold_left (fun s block_id =>
                                 snd (Synchronizer.block_delete block_id s))
                              block_ids (sync w))
    by (by rewrite Hs2, Hs1).
  unfold bind at 1. unfold get_self at 1. rewrite Hself. simpl.
  unfold bind at 1. unfold discard_sync. rewrite <- Hsync.
  unfold try_except, bind, perform, Synchronizer.vlob_delete, ret.
  destruct (Synchronizer.local_vlobs (sync w2) !! file_id f); simpl;
    eexists _, _; (split; [reflexivity|]); simpl;
    rewrite list_lookup_alter_eq, Hself, Ht2, <- app_assoc;
    repeat split; try done; by rewrite Hf2, Hf1.
Qed.

(** A [discard()] that returns has read the current block ids, performing
    only reads, and then done the above. *)
Lemma discard_spec (self : addr) (w : World) (f : File) (r : bool) (wd : World) :
  heap w !! self = Some f ->
  discard self w = (Ok r, wd) ->
  exists block_ids w1,
    get_blocks self (clear_modifications self w) = (Ok block_ids, w1)
    /\ only_reads (clear_modifications self w) w1
    /\ trace wd
       = trace w1 ++ map EBlockDelete block_ids ++ [EVlobDelete (file_id f)]
    /\ sync wd = discard_sync block_ids (file_id f) (sync w)
    /\ heap wd !! self = Some (set_dirty false (set_modifications [] f))
    /\ files wd = files w.
Proof.
  intros Hf Hd.
  pose proof (get_blocks_only_reads self (clear_modifications self w)) as [Hro _].
  destruct (get_blocks self (clear_modifications self w)) as [[ids|e] w1] eqn:Hg.
  - destruct (discard_run self w f ids w1 Hf Hg)
      as (r' & wd' & Hd' & Ht & Hs & Hh & Hfs).
    rewrite Hd in Hd'. injection Hd' as <- <-.
    by exists ids, w1.
  - exfalso. revert Hd. unfold discard. unfold bind at 1. simpl.
    unfold bind at 1. unfold clear_modifications in Hg. simpl in Hg.
    by rewrite Hg.
Qed.

End Restore.

(** C3 (as the code has it): a [restore(version)] that completes, with an
    in-range version given or with the default [get_version() - 1] in
    range, does not flush and does not leave the blocks intact. It empties
    the modification queue, reads the block ids of the current vlob version
    (performing only reads), requests [EBlockDelete] for each of them and
    [EVlobDelete] for the vlob (tolerating their absence from the
    synchronizer). It then reads the requested version from the
    synchronizer as these deletions have left it, and issues [EVlobUpdate]
    at [self.version + 1] with the blob this read returned, which the
    synchronizer receives in that same state; the handle ends with an empty
    queue and [dirty = True], and the registry is unchanged. *)
Theorem restore_discards_then_updates
    (E : Externals) (self : addr) (version : option Z) (w : World) (f : File)
    (w' : World) :
  heap w !! self = Some f ->
  let requested :=
    match version with
    | None => FileEngine.get_version f - 1
    | Some v => v
    end in
  1 <= requested < FileEngine.get_version f ->
  FileEngine.restore self version w = (Ok tt, w') ->
  exists block_ids w1 vlob,
    let discarded := discard_sync block_ids (file_id f) (sync w) in
    FileEngine.get_blocks self (clear_modifications self w) = (Ok block_ids, w1)
    /\ only_reads (clear_modifications self w) w1
    /\ Synchronizer.vlob_read (file_id f) (read_trust_seed f) (Some requested)
         discarded
       = (Ok vlob, discarded)
    /\ trace w'
       = trace w1 ++ map EBlockDelete block_ids
           ++ [EVlobDelete (file_id f);
               EVlobRead (file_id f) (read_trust_seed f) (Some requested);
               EVlobUpdate (file_id f) (write_trust_seed f) (file_version f + 1)
                           (vlob_blob vlob)]
    /\ Synchronizer.vlob_update (file_id f) (write_trust_seed f)
         (file_version f + 1) (vlob_blob vlob) discarded
       = (Ok tt, sync w')
    /\ heap w' !! self = Some (set_dirty true (set_modifications [] f))
    /\ files w' = files w.
Proof.
  intros Hf requested Hv. unfold FileEngine.restore.
  unfold bind at 1. unfold get_self at 1. rewrite Hf. simpl. fold requested.
  destruct ((requested <? 1) || (requested >=? FileEngine.get_version f)) eqn:Hc.
  { apply orb_true_iff in Hc. destruct Hc; lia. }
  unfold bind at 1.
  destruct (FileEngine.discard self w) as [[r|e] wd] eqn:Hd; [|discriminate].
  apply (discard_spec self w f r wd Hf) in Hd
    as (ids & w1 & Hg & Hro & Ht & Hs & Hh & Hfs).
  unfold bind at 1. unfold get_self at 1. rewrite Hh. simpl.
  unfold bind at 1. unfold perform at 1.
  pose proof (vlob_read_pure (file_id f) (read_trust_seed f) (Some requested)
                (sync wd)) as Hpure.
  destruct (Synchronizer.vlob_read (file_id f) (read_trust_seed f)
              (Some requested) (sync wd))
    as [[vlob|e] s1] eqn:Hread; [|discriminate].
  simpl in Hpure. subst s1.
  unfold bind at 1. unfold perform at 1. simpl.
  destruct (Synchronizer.vlob_update _ _ _ _ _) as [[[]|e] s2] eqn:Hupd;
    [|discriminate].
  simpl. intros [= <-]. simpl.
  exists ids, w1, vlob. rewrite <- Hs.
  split; [done|]. split; [done|]. split; [done|].
  split; [|split; [done|split; [|done]]].
  - rewrite Ht, <- !app_assoc. done.
  - by rewrite list_lookup_alter_eq, Hh.
Qed.

Lemma run_returns {A} (m : M A) (w : World) (a : A) :
  fst (m w) = Ok a -> m w = (Ok a, snd (m w)).
Proof. destruct (m w) as [r w']. simpl. by intros ->. Qed.

Lemma restore_discards_then_updates_witness :
  heap world_edited !! 0%nat = Some file_edited
  /\ 1 <= FileEngine.get_version file_edited - 1 < FileEngine.get_version file_edited
  /\ fst (FileEngine.restore (E := Sim.externals) 0%nat None world_edited) = Ok tt
  /\ files (snd (FileEngine.restore (E := Sim.externals) 0%nat None world_edited))
     = files world_edited.
Proof.
  assert (H1 : heap world_edited !! 0%nat = Some file_edited)
    by (vm_compute; reflexivity).
  assert (H2 : 1 <= FileEngine.get_version file_edited - 1
               < FileEngine.get_version file_edited)
    by (vm_compute; split; [discriminate 1 | reflexivity]).
  assert (H3 : fst (FileEngine.restore (E := Sim.externals) 0%nat None world_edited)
               = Ok tt)
    by (vm_compute; reflexivity).
  split; [exact H1|]. split; [exact H2|]. split; [exact H3|].
  pose proof (restore_discards_then_updates Sim.externals 0%nat None world_edited
                file_edited _ H1 H2 (run_returns _ _ _ H3)) as H.
  destruct H as (ids & w1 & vlob & H).
  exact (proj2 (proj2 (proj2 (proj2 (proj2 (proj2 H)))))).
Defined.

(** C3 (as stated) fails: with version 1 committed and version 2 staged by
    a flushed write, [restore(1)] is in range and completes, and it
    performs [EBlockDelete] for both blocks of the current version and
    [EVlobDelete] for the vlob; block 7, which held the flushed write, is
    gone from the block store afterwards. *)
Lemma restore_deletes_blocks_and_vlob :
  let r := FileEngine.restore (E := Sim.externals) 0%nat (Some 1) world_edited in
  FileEngine.get_version file_edited = 2
  /\ fst r = Ok tt
  /\ take 5 (drop (length (trace world_edited)) (trace (snd r)))
     = [EVlobRead 4%nat 5%nat (Some 2); EBlockDelete 0%nat; EBlockDelete 7%nat;
        EVlobDelete 4%nat; EVlobRead 4%nat 5%nat (Some 1)]
  /\ Synchronizer.block_known 7%nat (sync world_edited) = true
  /\ Synchronizer.block_known 7%nat (sync (snd r)) = false.
Proof. vm_compute. repeat split; reflexivity. Qed.

(** ** [flush]: the payloads written *)

Section FlushPayloads.
Context {E : Externals}.
Import FileEngine.

(** [_build_file_blocks(data)] run from [w] returns [group] and ends in
    [w']: [group] has one BlockMeta per chunk of [data], in order, each with
    the digest and the length of its chunk; each chunk was sent by one
    [EBlockCreate], encrypted under the key of the group, and is buffered
    under the id its BlockMeta records. *)
Definition builds (self : addr) (data : bytes) (w : World)
    (group : BlockGroup) (w' : World) : Prop :=
  _build_file_blocks self data w = (Ok group, w')
  /\ exists k : AESKey,
       key group = to_jsonb64 (Crypto.key_of k)
       /\ Forall2 meta_of_chunk (blocks group) (make_chunks data)
       /\ Forall2 (stored_as k (sync w')) (blocks group) (make_chunks data)
       /\ exists created,
            trace w' = trace w ++ created
            /\ Forall2 (fun eff chunk => exists r,
                          eff = EBlockCreate
                                  (to_jsonb64 (fst (Crypto.encrypt k chunk r))))
                       created (make_chunks data).

(** One payload written by [flush] from the state [w], for the handle whose
    id, write seed, version and key are those of [f]: the blocks matching
    [(size, offset)] are looked up in [w]; if that raises, the step ends
    there with the exception. Otherwise [_build_file_blocks] turns the new
    cleartext [new_data mb] into one new group, and [payload mb group],
    serialized and encrypted under the key of the handle, is sent by
    [EVlobUpdate] at [self.version + 1]; [r] is the outcome of that
    request. *)
Definition payload_step (self : addr) (f : File) (size offset : Z)
    (new_data : matching_blocks -> bytes)
    (payload : matching_blocks -> BlockGroup -> list BlockGroup)
    (w : World) (r : result unit) (w' : World) : Prop :=
  match _find_matching_blocks self (Some size) offset w with
  | (Raise e, w1) => r = Raise e /\ w' = w1
  | (Ok mb, w1) =>
      exists group w2,
        builds self (new_data mb) w1 group w2
        /\ update_vlob self (payload mb group) w2 = (r, w')
        /\ trace w'
           = trace w2
               ++ [EVlobUpdate (file_id f) (write_trust_seed f) (file_version f + 1)
                     (to_jsonb64
                        (fst (Crypto.encrypt (encryptor f)
                                (ejson_dumps (payload mb group)) (rnd w2))))]
  end.

(** The payloads written for the regions of the builder, in the order of
    the map, until one step raises: for the region [(offset, content)] the
    new cleartext is [pre_excluded_data + content + post_excluded_data] and
    the payload is the new group between [pre_excluded_blocks] and
    [post_excluded_blocks]. *)
Fixpoint region_steps (self : addr) (f : File) (regions : list (Z * bytes))
    (w : World) (r : result unit) (w' : World) : Prop :=
  match regions with
  | [] => r = Ok tt /\ w' = w
  | (offset, content) :: regions' =>
      exists r1 w1,
        payload_step self f (len content) offset
          (fun mb => pre_excluded_data mb ++ content ++ post_excluded_data mb)
          (fun mb group =>
             pre_excluded_blocks mb ++ [group] ++ post_excluded_blocks mb)
          w r1 w1
        /\ match r1 with
           | Ok _ => region_steps self f regions' w1 r w'
           | Raise e => r = Raise e /\ w' = w1
           end
  end.

(** The object at [self] has the id, the seeds, the key and the version of
    [f]. *)
Definition handle_of (self : addr) (f : File) (w : World) : Prop :=
  exists g,
    heap w !! self = Some g
    /\ file_id g = file_id f
    /\ read_trust_seed g = read_trust_seed f
    /\ write_trust_seed g = write_trust_seed f
    /\ encryptor g = encryptor f
    /\ file_version g = file_version f.

Lemma handle_of_alter (self : addr) (f : File) (w w' : World) (h : File -> File) :
  handle_of self f w ->
  heap w' = alter h self (heap w) ->
  (forall g, file_id (h g) = file_id g
             /\ read_trust_seed (h g) = read_trust_seed g
             /\ write_trust_seed (h g) = write_trust_seed g
             /\ encryptor (h g) = encryptor g
             /\ file_version (h g) = file_version g) ->
  handle_of self f w'.
Proof.
  intros (g & Hg & H1 & H2 & H3 & H4 & H5) Hw Hh.
  exists (h g). rewrite Hw, list_lookup_alter_eq, Hg.
  destruct (Hh g) as (-> & -> & -> & -> & ->). done.
Qed.

Lemma handle_of_same_heap (self : addr) (f : File) (w w' : World) :
  handle_of self f w -> heap w' = heap w -> handle_of self f w'.
Proof. intros (g & Hg & H) Hw. exists g. by rewrite Hw. Qed.

Lemma builds_run (self : addr) (f : File) (data : bytes) (w : World) :
  handle_of self f w ->
  exists group w',
    builds self data w group w' /\ handle_of self f w'.
Proof.
  intros Hf.
  destruct (build_file_blocks_run E self data w)
    as (group & w' & k & Heq & Hkey & _ & Hheap & Hm & Hst & Htr).
  exists group, w'. split.
  - split; [done|]. by exists k.
  - by apply (handle_of_alter self f w w' (set_dirty true)).
Qed.

Lemma update_vlob_run (self : addr) (f : File) (blob : list BlockGroup) (w : World) :
  handle_of self f w ->
  exists r w',
    update_vlob self blob w = (r, w')
    /\ trace w'
       = trace w
           ++ [EVlobUpdate (file_id f) (write_trust_seed f) (file_version f + 1)
                 (to_jsonb64
                    (fst (Crypto.encrypt (encryptor f) (ejson_dumps blob) (rnd w))))]
    /\ handle_of self f w'.
Proof.
  intros (g & Hg & H1 & H2 & H3 & H4 & H5).
  unfold update_vlob, bind, get_self, with_entropy, perform, set_self.
  rewrite Hg. simpl. rewrite H1, H3, H4, H5.
  destruct (Crypto.encrypt (encryptor f) (ejson_dumps blob) (rnd w)) as [c r'].
  simpl.
  destruct (Synchronizer.vlob_update _ _ _ _ _) as [[[]|e] s']; simpl;
    eexists _, _; (split; [reflexivity|]); (split; [done|]).
  - exists (set_dirty true g). simpl. by rewrite list_lookup_alter_eq, Hg.
  - by exists g.
Qed.

Lemma payload_step_run (self : addr) (f : File) (size offset : Z)
    (new_data : matching_blocks -> bytes)
    (payload : matching_blocks -> BlockGroup -> list BlockGroup) (w : World) :
  handle_of self f w ->
  exists r w',
    (let* mb := _find_matching_blocks self (Some size) offset in
     let* new_blocks := _build_file_blocks self (new_data mb) in
     update_vlob self (payload mb new_blocks)) w = (r, w')
    /\ payload_step self f size offset new_data payload w r w'
    /\ handle_of self f w'.
Proof.
  intros Hf. unfold payload_step. unfold bind at 1.
  pose proof (find_matching_blocks_only_reads self (Some size) offset w)
    as [(Hh1 & _) _].
  destruct (_find_matching_blocks self (Some size) offset w) as [[mb|e] w1].
  - simpl in Hh1.
    destruct (builds_run self f (new_data mb) w1) as (group & w2 & Hb & Hf2);
      [by apply (handle_of_same_heap self f w)|].
    destruct (update_vlob_run self f (payload mb group) w2 Hf2)
      as (r & w' & Hu & Ht & Hf').
    exists r, w'. unfold bind. rewrite (proj1 Hb), Hu.
    split; [done|]. split; [|done]. by exists group, w2.
  - exists (Raise e), w1. simpl in Hh1.
    split; [done|]. split; [done|]. by apply (handle_of_same_heap self f w).
Qed.

Lemma region_steps_run (self : addr) (f : File) (regions : list (Z * bytes))
    (w : World) :
  handle_of self f w ->
  exists r w',
    for_each (flush_region self) regions tt w = (r, w')
    /\ region_steps self f regions w r w'
    /\ handle_of self f w'.
Proof.
  revert w. induction regions as [|[offset content] regions IH]; intros w Hf.
  - exists (Ok tt), w. done.
  - cbn [for_each]. unfold bind at 1.
    change (flush_region self tt (offset, content))
      with (let* mb := _find_matching_blocks self (Some (len content)) offset in
            let* new_blocks :=
              _build_file_blocks self
                (pre_excluded_data mb ++ content ++ post_excluded_data mb) in
            update_vlob self
              (pre_excluded_blocks mb ++ [new_blocks] ++ post_excluded_blocks mb)).
    destruct (payload_step_run self f (len content) offset
                (fun mb => pre_excluded_data mb ++ content ++ post_excluded_data mb)
                (fun mb group =>
                   pre_excluded_blocks mb ++ [group] ++ post_excluded_blocks mb)
                w Hf) as (r1 & w1 & Hrun & Hstep & Hf1).
    rewrite Hrun. destruct r1 as [[]|e].
    + destruct (IH w1 Hf1) as (r & w' & Hrun' & Hsteps & Hf').
      exists r, w'. split; [done|]. split; [|done]. by exists (Ok tt), w1.
    + exists (Raise e), w1. split; [done|]. split; [|done].
      by exists (Raise e), w1.
Qed.

(** The garbage collection that ends [flush] requests nothing but the
    deletion of blocks, and returns. *)
Lemma clean_blocks_run (current previous : list ident) (w : World) :
  exists w' deleted,
    for_each (clean_block current) previous tt w = (Ok tt, w')
    /\ trace w' = trace w ++ map EBlockDelete deleted.
Proof.
  revert w. induction previous as [|id ids IH]; intros w.
  - exists w, []. simpl. unfold ret. by rewrite app_nil_r.
  - simpl. unfold bind at 1. unfold clean_block at 1.
    case_bool_decide.
    + unfold ret at 1. destruct (IH w) as (w' & deleted & -> & Ht).
      by exists w', deleted.
    + unfold try_except, perform, Synchronizer.block_delete.
      destruct (Synchronizer.local_blocks (sync w) !! id); simpl.
      * destruct (IH (mkWorld (heap w) (files w)
                        (Synchronizer.mk (delete id (Synchronizer.local_blocks (sync w)))
                           (Synchronizer.local_vlobs (sync w))
                           (Synchronizer.backend_blocks (sync w))
                           (Synchronizer.backend_vlobs (sync w))
                           (Synchronizer.next_id (sync w)))
                        (rnd w) (trace w ++ [EBlockDelete id])))
          as (w' & deleted & -> & Ht).
        exists w', (id :: deleted). split; [done|].
        rewrite Ht. simpl. by rewrite <- app_assoc.
      * destruct (IH (mkWorld (heap w) (files w) (sync w) (rnd w)
                        (trace w ++ [EBlockDelete id])))
          as (w' & deleted & -> & Ht).
        exists w', (id :: deleted). split; [done|].
        rewrite Ht. simpl. by rewrite <- app_assoc.
Qed.

(** A non-empty queue leaves a truncation or a region to write: a write
    stores a region, a truncation sets [shortest_truncate]. *)
Lemma merge_modifications_work (ms : list modification) :
  ms <> [] ->
  snd (fold_left merge_modification ms (ContentBuilder.init, None)) <> None
  \/ fst (fold_left merge_modification ms (ContentBuilder.init, None)) <> [].
Proof.
  intros Hms. destruct (exists_last Hms) as (ms' & m & ->).
  rewrite fold_left_app. simpl.
  destruct (fold_left merge_modification ms' (ContentBuilder.init, None))
    as [builder shortest].
  destruct m as [data offset|length]; simpl.
  - right. unfold ContentBuilder.write.
    generalize (ContentBuilder.ws_offset (ContentBuilder.write_loop data offset builder))
               (ContentBuilder.ws_new_data (ContentBuilder.write_loop data offset builder))
               (fold_left (fun d k => PyDict.del k d)
                  (ContentBuilder.ws_offsets_to_delete
                     (ContentBuilder.write_loop data offset builder))
                  builder).
    intros k v d. destruct d as [|[k' v'] d]; simpl; [done|].
    by destruct (k' =? k).
  - left. destruct shortest as [s|]; [|done]. by destruct ((s =? 0) || (s >? length)).
Qed.

Lemma flush_run (self : addr) (w : World) (f : File) :
  heap w !! self = Some f ->
  modifications f <> [] ->
  exists r w',
    flush self w = (r, w')
    /\ match get_blocks self (clear_modifications self w) with
       | (Raise e, w0) => r = Raise e /\ w' = w0
       | (Ok previous_block_ids, w0) =>
           exists rt wt,
             match snd (fold_left merge_modification (modifications f)
                          (ContentBuilder.init, None)) with
             | Some length =>
                 payload_step self f length 0 post_included_data
                   (fun mb group => included_blocks mb ++ [group]) w0 rt wt
             | None => rt = Ok tt /\ wt = w0
             end
             /\ match rt with
                | Raise e => r = Raise e /\ w' = wt
                | Ok _ =>
                    exists rr wr,
                      region_steps self f
                        (fst (fold_left merge_modification (modifications f)
                                (ContentBuilder.init, None))) wt rr wr
                      /\ match rr with
                         | Raise e => r = Raise e /\ w' = wr
                         | Ok _ =>
                             exists tail,
                               trace w' = trace wr ++ tail
                               /\ Forall (fun eff => is_read eff
                                                     \/ exists id, eff = EBlockDelete id)
                                         tail
                         end
                end
       end.
Proof.
  intros Hf Hms.
  unfold flush. unfold bind at 1. unfold get_self at 1. rewrite Hf. cbn [of_option].
  remember (fold_left merge_modification (modifications f)
              (ContentBuilder.init, None)) as merged eqn:Hmerged.
  destruct (modifications f) as [|m ms]; [done|]. clear Hmerged Hms.
  destruct merged as [builder shortest]. cbn [fst snd].
  unfold bind at 1. unfold set_self at 1.
  unfold clear_modifications, set_self. cbn [snd].
  set (wc := mkWorld (alter (set_modifications []) self (heap w)) (files w)
                     (sync w) (rnd w) (trace w)).
  assert (Hc : handle_of self f wc).
  { exists (set_modifications [] f). subst wc. simpl.
    by rewrite list_lookup_alter_eq, Hf. }
  unfold bind at 1.
  pose proof (get_blocks_only_reads self wc) as [(Hh0 & _) _].
  destruct (get_blocks self wc) as [[previous|e] w0];
    [|by exists (Raise e), w0].
  cbn [snd] in Hh0.
  assert (H0 : handle_of self f w0) by by apply (handle_of_same_heap self f wc).
  unfold bind at 1.
  assert (Ht : exists rt wt,
    match shortest with
    | Some length =>
        let* mb := _find_matching_blocks self (Some length) 0 in
        let* new_blocks := _build_file_blocks self (post_included_data mb) in
        update_vlob self (included_blocks mb ++ [new_blocks])
    | None => ret tt
    end w0 = (rt, wt)
    /\ match shortest with
       | Some length =>
           payload_step self f length 0 post_included_data
             (fun mb group => included_blocks mb ++ [group]) w0 rt wt
       | None => rt = Ok tt /\ wt = w0
       end
    /\ handle_of self f wt).
  { destruct shortest as [length|].
    - apply (payload_step_run self f length 0 post_included_data
               (fun mb group => included_blocks mb ++ [group]) w0 H0).
    - by exists (Ok tt), w0. }
  destruct Ht as (rt & wt & Hrun & Hstep & Hft).
  rewrite Hrun. clear Hrun.
  destruct rt as [[]|e];
    [|exists (Raise e), wt; split; [done|]; by exists (Raise e), wt].
  unfold bind at 1.
  destruct (region_steps_run self f builder wt Hft)
    as (rr & wr & Hrun & Hsteps & Hfr).
  rewrite Hrun. clear Hrun.
  destruct rr as [[]|e].
  2:{ exists (Raise e), wr. split; [done|]. exists (Ok tt), wt. split; [done|].
      by exists (Raise e), wr. }
  unfold bind at 1.
  pose proof (get_blocks_only_reads self wr)
    as [(_ & _ & _ & _ & tr & Htr & Hreads) _].
  destruct (get_blocks self wr) as [[current|e] w3]; cbn [snd] in Htr.
  - destruct (clean_blocks_run current previous w3) as (w4 & deleted & Hrun & Ht4).
    exists (Ok tt), w4. split; [done|]. exists (Ok tt), wt. split; [done|].
    exists (Ok tt), wr. split; [done|].
    exists (tr ++ map EBlockDelete deleted).
    split; [by rewrite Ht4, Htr, app_assoc|].
    apply Forall_app. split.
    + eapply Forall_impl; [exact Hreads|]. intros eff ?. by left.
    + apply Forall_forall. intros eff [id [-> _]]%list_elem_of_fmap.
      right. by exists id.
  - exists (Raise e), w3. split; [done|]. exists (Ok tt), wt. split; [done|].
    exists (Ok tt), wr. split; [done|].
    exists tr. split; [done|].
    eapply Forall_impl; [exact Hreads|]. intros eff ?. by left.
Qed.

End FlushPayloads.

(** C4: every [flush()] of a non-empty modification queue, whatever its
    outcome, writes its payloads as follows. It reads the current block ids
    and then, while nothing raises: if the queue holds a truncation it
    looks up the blocks matching [(shortest_truncate, 0)], passes the new
    cleartext [post_included_data] to [_build_file_blocks] and sends
    [included_blocks] followed by the new group with [EVlobUpdate]; for each
    region [(offset, content)] of the builder, in order, it looks up the
    blocks matching [(len(content), offset)], passes the new cleartext
    [pre_excluded_data + content + post_excluded_data] to
    [_build_file_blocks] and sends the new group between
    [pre_excluded_blocks] and [post_excluded_blocks] with [EVlobUpdate];
    what follows only reads and deletes blocks. There is a truncation or a
    region, so a payload is due. Each new group ([builds]) has one BlockMeta
    per chunk of the new cleartext, in order, whose [digest] is the digest
    of the chunk and whose [size] is its length, and each chunk was sent by
    one [EBlockCreate]; the chunks are the slices of the cleartext at
    4096-byte boundaries (they concatenate to it, chunk [i] is
    [data[4096*i : 4096*(i+1)]], there are [max(1, ceil(len(data)/4096))]
    of them), and an empty cleartext gives one chunk of length zero, hence
    exactly one BlockMeta of size 0. *)
Theorem flush_chunks_new_cleartext
    (E : Externals) (self : addr) (w : World) (f : File) :
  heap w !! self = Some f ->
  modifications f <> [] ->
  let r := fst (FileEngine.flush self w) in
  let w' := snd (FileEngine.flush self w) in
  let builder :=
    fst (fold_left merge_modification (modifications f) (ContentBuilder.init, None)) in
  let shortest_truncate :=
    snd (fold_left merge_modification (modifications f) (ContentBuilder.init, None)) in
  (shortest_truncate <> None \/ builder <> [])
  /\ match FileEngine.get_blocks self (clear_modifications self w) with
     | (Raise e, w0) => r = Raise e /\ w' = w0
     | (Ok previous_block_ids, w0) =>
         exists rt wt,
           match shortest_truncate with
           | Some length =>
               payload_step self f length 0 post_included_data
                 (fun mb group => included_blocks mb ++ [group]) w0 rt wt
           | None => rt = Ok tt /\ wt = w0
           end
           /\ match rt with
              | Raise e => r = Raise e /\ w' = wt
              | Ok _ =>
                  exists rr wr,
                    region_steps self f builder wt rr wr
                    /\ match rr with
                       | Raise e => r = Raise e /\ w' = wr
                       | Ok _ =>
                           exists tail,
                             trace w' = trace wr ++ tail
                             /\ Forall (fun eff => is_read eff
                                                   \/ exists id, eff = EBlockDelete id)
                                       tail
                       end
              end
     end
  /\ (forall data : bytes,
        concat (make_chunks data) = data
        /\ (forall i chunk,
              make_chunks data !! i = Some chunk ->
              chunk = take 4096 (drop (i * 4096) data) /\ len chunk <= chunk_size)
        /\ length (make_chunks data) = Z.to_nat (Z.max 1 ((len data + 4095) / 4096)))
  /\ (forall self' w1 group w2,
        builds self' [] w1 group w2 ->
        exists bp, blocks group = [bp] /\ bm_size bp = 0 /\ bm_digest bp = digest []).
Proof.
  intros Hf Hms. cbv zeta.
  split; [by apply merge_modifications_work|].
  split.
  { destruct (flush_run self w f Hf Hms) as (r & w' & -> & H). exact H. }
  split.
  - intros data. split; [apply make_chunks_concat|].
    split; [apply make_chunks_lookup | apply make_chunks_length].
  - intros self' w1 group w2 (_ & k & _ & Hm & _).
    rewrite make_chunks_empty in Hm.
    inversion Hm as [|bp chunk bps chunks [Hd Hs] Hrest]; subst.
    inversion Hrest; subst. by exists bp.
Qed.

(** The state after [write(b"A" * 4097, 0)] on the new handle of
    [world_created], not flushed. *)
Definition world_written : World :=
  run_call (E := Sim.externals) (CallWrite 0%nat (replicate 4097 x41) 0)
    world_created.

Definition file_written : File :=
  default File_new (heap world_written !! 0%nat).

Lemma flush_chunks_new_cleartext_witness :
  heap world_written !! 0%nat = Some file_written
  /\ modifications file_written <> []
  /\ (snd (fold_left merge_modification (modifications file_written)
             (ContentBuilder.init, None)) <> None
      \/ fst (fold_left merge_modification (modifications file_written)
                (ContentBuilder.init, None)) <> []).
Proof.
  assert (H1 : heap world_written !! 0%nat = Some file_written)
    by (vm_compute; reflexivity).
  assert (H2 : modifications file_written <> []) by (vm_compute; discriminate).
  split; [exact H1|]. split; [exact H2|].
  exact (proj1 (flush_chunks_new_cleartext Sim.externals 0%nat world_written
                  file_written H1 H2)).
Defined.


(** * Further properties of the embedded code *)

(** ** Slices with non-negative bounds *)

Lemma take_min_length {A} (n : nat) (l : list A) :
  take (Nat.min n (length l)) l = take n l.
Proof.
  destruct (Nat.le_ge_cases n (length l)) as [H|H].
  - by rewrite Nat.min_l.
  - rewrite Nat.min_r by done. by rewrite firstn_all, take_ge.
Qed.

Lemma slice_to_nonneg {A} (j : Z) (l : list A) :
  0 <= j -> slice_to j l = take (Z.to_nat j) l.
Proof.
  intros Hj. unfold slice_to, py_index, len.
  destruct (Z.ltb_spec j 0); [lia|].
  rewrite <- (take_min_length (Z.to_nat j) l). f_equal. lia.
Qed.

Lemma slice_from_nonneg {A} (i : Z) (l : list A) :
  0 <= i -> slice_from i l = drop (Z.to_nat i) l.
Proof.
  intros Hi. unfold slice_from, py_index, len.
  destruct (Z.ltb_spec i 0); [lia|].
  destruct (Z.le_ge_cases i (Z.of_nat (length l))) as [Hl|Hl].
  - by rewrite Z.min_l.
  - rewrite Z.min_r by lia. rewrite Nat2Z.id, drop_all.
    symmetry. apply drop_ge. lia.
Qed.

Lemma slice_nonneg {A} (i j : Z) (l : list A) :
  0 <= i -> 0 <= j ->
  slice i j l = take (Z.to_nat j - Z.to_nat i) (drop (Z.to_nat i) l).
Proof.
  intros Hi Hj. unfold slice, py_index, len.
  destruct (Z.ltb_spec i 0); [lia|]. destruct (Z.ltb_spec j 0); [lia|].
  destruct (Z.le_ge_cases i (Z.of_nat (length l))) as [H1|H1].
  - rewrite (Z.min_l i) by done.
    rewrite <- (take_min_length (Z.to_nat j - Z.to_nat i)).
    f_equal. rewrite length_drop. lia.
  - rewrite (Z.min_r i) by lia. rewrite Nat2Z.id, drop_all.
    rewrite (drop_ge l (Z.to_nat i)) by lia. by rewrite !take_nil.
Qed.

(** ** ContentBuilder.truncate *)

(** The entry [truncate] keeps for a region that starts at or before the
    new length. *)
Definition trim_entry (length : Z) (e : Z * bytes) : Z * bytes :=
  (fst e, take (Z.to_nat (length - fst e)) (snd e)).

Lemma truncate_entry_trim (length : Z) (e : Z * bytes) :
  fst e <= length -> ContentBuilder.truncate_entry length e = trim_entry length e.
Proof.
  intros He. unfold ContentBuilder.truncate_entry, trim_entry.
  destruct (Z.gtb_spec (fst e) length); [lia|].
  destruct (Z.gtb_spec (fst e + len (snd e)) length).
  - by rewrite slice_to_nonneg by lia.
  - rewrite take_ge; [by destruct e|]. unfold len in *. lia.
Qed.

Lemma fold_del_filter {V} (ks : list Z) (d : PyDict.t V) :
  fold_left (fun d k => PyDict.del k d) ks d
  = List.filter (fun e => forallb (fun k => negb (fst e =? k)) ks) d.
Proof.
  revert d. induction ks as [|k ks IH]; intros d; simpl.
  - induction d as [|e d IHd]; simpl; [done | by rewrite <- IHd].
  - rewrite IH. unfold PyDict.del.
    induction d as [|e d IHd]; simpl; [done|].
    destruct (fst e =? k); simpl; by rewrite IHd.
Qed.

(** [truncate] keeps the regions that start at or before the new length,
    in order, each cut at the new length. *)
Lemma truncate_spec (length : Z) (contents : ContentBuilder.t) :
  ContentBuilder.truncate length contents
  = map (trim_entry length) (List.filter (fun e => fst e <=? length) contents).
Proof.
  unfold ContentBuilder.truncate. rewrite fold_del_filter.
  set (ks := PyDict.keys (List.filter (fun e => fst e >? length) contents)).
  assert (Hks : forall e, In e contents ->
            forallb (fun k => negb (fst e =? k)) ks = (fst e <=? length)).
  { intros e He. subst ks. unfold PyDict.keys.
    destruct (Z.leb_spec (fst e) length) as [Hle|Hgt].
    - apply forallb_forall. intros k Hk. apply in_map_iff in Hk.
      destruct Hk as (e' & <- & He'). apply filter_In in He' as [_ He'].
      apply negb_true_iff, Z.eqb_neq. lia.
    - apply not_true_is_false. intros Hall.
      rewrite forallb_forall in Hall.
      specialize (Hall (fst e)). rewrite Z.eqb_refl in Hall.
      assert (Hin : In (fst e) (map fst (List.filter (fun e => fst e >? length) contents))).
      { apply in_map, filter_In. split; [done | lia]. }
      by specialize (Hall Hin). }
  clearbody ks.
  induction contents as [|e contents IH]; simpl; [done|].
  assert (He : fst (ContentBuilder.truncate_entry length e) = fst e)
    by apply truncate_entry_shrinks.
  rewrite He, (Hks e) by by left.
  destruct (Z.leb_spec (fst e) length).
  - simpl. rewrite truncate_entry_trim by done. f_equal.
    apply IH. intros e' He'. apply Hks. by right.
  - apply IH. intros e' He'. apply Hks. by right.
Qed.

(** X2: after [truncate(length)] every region starts and ends at or before
    [length]. *)
Theorem ContentBuilder_truncate_bounds (length : Z) (contents : ContentBuilder.t) :
  Forall (fun e => fst e <= length /\ fst e + len (snd e) <= length)
         (ContentBuilder.truncate length contents).
Proof.
  rewrite truncate_spec. apply Forall_forall. intros e He.
  apply list_elem_of_In, in_map_iff in He. destruct He as (e0 & <- & He0).
  apply filter_In in He0 as [_ Hle]. apply Z.leb_le in Hle.
  unfold trim_entry, len. simpl. rewrite length_take. lia.
Qed.

(** X3: two truncations in a row are one truncation to the smaller
    length. *)
Theorem ContentBuilder_truncate_truncate (a b : Z) (contents : ContentBuilder.t) :
  ContentBuilder.truncate a (ContentBuilder.truncate b contents)
  = ContentBuilder.truncate (Z.min a b) contents.
Proof.
  rewrite !truncate_spec.
  induction contents as [|e contents IH]; simpl; [done|].
  destruct (Z.leb_spec (fst e) b) as [Hb|Hb]; simpl.
  - destruct (Z.leb_spec (fst e) a) as [Ha|Ha]; simpl.
    + destruct (Z.leb_spec (fst e) (Z.min a b)); [|lia]. simpl.
      rewrite IH. f_equal. unfold trim_entry. simpl. f_equal.
      rewrite take_take. f_equal. lia.
    + destruct (Z.leb_spec (fst e) (Z.min a b)); [lia|]. apply IH.
  - destruct (Z.leb_spec (fst e) (Z.min a b)); [lia|]. apply IH.
Qed.

(** ** ContentBuilder.write: two writes *)

(** Applying the regions of a builder to a buffer one after the other, in
    the order of the map: what [flush] does with [builder.contents.items()]. *)
Definition replay (contents : ContentBuilder.t) (buf : bytes) : bytes :=
  fold_left (fun buf e => Reference.apply buf (MWrite (snd e) (fst e))) contents buf.

Lemma slice_from_all {A} (i : Z) (l : list A) : len l <= i -> slice_from i l = [].
Proof.
  intros Hi. pose proof (len_nonneg l).
  rewrite slice_from_nonneg by lia. apply drop_ge. unfold len in *. lia.
Qed.

Lemma apply_write_empty (data : bytes) : Reference.apply [] (MWrite data 0) = data.
Proof. simpl. unfold slice_to, slice_from. simpl. by rewrite drop_nil, app_nil_r. Qed.

Lemma slice_from_nil {A} (i : Z) : slice_from i (@nil A) = [].
Proof. unfold slice_from. by rewrite drop_nil. Qed.

Lemma slice_to_nil {A} (j : Z) : slice_to j (@nil A) = [].
Proof. unfold slice_to. by rewrite take_nil. Qed.

Lemma replay_one (data : bytes) : replay [(0, data)] [] = data.
Proof.
  unfold replay. cbn [fold_left fst snd Reference.apply].
  by rewrite slice_to_nil, slice_from_nil, app_nil_r.
Qed.

(** X4: a first write at offset 0 and a second write that starts inside the
    first or at its end are coalesced correctly: replaying the regions of
    the builder on an empty buffer gives the bytes of the reference
    buffer. *)
Theorem ContentBuilder_two_dense_writes (d1 d2 : bytes) (o2 : Z) :
  0 <= o2 <= len d1 ->
  replay (ContentBuilder.write d2 o2
            (ContentBuilder.write d1 0 ContentBuilder.init)) []
  = Reference.run [MWrite d1 0; MWrite d2 o2].
Proof.
  intros Ho. unfold Reference.run. cbn [fold_left].
  rewrite apply_write_empty. cbn [Reference.apply].
  change (ContentBuilder.write d1 0 ContentBuilder.init) with [(0, d1)].
  unfold ContentBuilder.write, ContentBuilder.write_loop. cbn [fold_left].
  unfold ContentBuilder.write_step.
  cbn [fst snd ContentBuilder.ws_offset ContentBuilder.ws_new_data
       ContentBuilder.ws_offsets_to_delete].
  rewrite !Z.add_0_l, !Z.sub_0_r.
  pose proof (len_nonneg d2) as Hd2.
  destruct (Z.geb_spec o2 0) as [_|]; [|lia].
  destruct (Z.leb_spec (o2 + len d2) (len d1)) as [Hin|Hout]; cbn [andb].
  - (* Insert inside *)
    cbn [fold_left PyDict.set ContentBuilder.ws_offset
         ContentBuilder.ws_new_data ContentBuilder.ws_offsets_to_delete].
    rewrite Z.eqb_refl. apply replay_one.
  - destruct (Z.leb_spec o2 0) as [Hz|Hpos]; cbn [andb].
    + (* Insert before and merge *)
      assert (o2 = 0) by lia. subst o2.
      destruct (Z.geb_spec (0 + len d2) 0) as [_|]; [|lia].
      cbn [ContentBuilder.ws_offset ContentBuilder.ws_new_data
           ContentBuilder.ws_offsets_to_delete].
      set (new_data := d2 ++ slice_from (0 + len d2) d1).
      change (replay [(0, new_data)] [] = slice_to 0 d1 ++ new_data).
      rewrite replay_one. by rewrite (slice_to_nonneg 0 d1) by lia.
    + destruct (Z.eqb_spec o2 (len d1)) as [->|Hne].
      * (* Insert after *)
        cbn [fold_left PyDict.set ContentBuilder.ws_offset
             ContentBuilder.ws_new_data ContentBuilder.ws_offsets_to_delete].
        rewrite Z.eqb_refl, replay_one.
        rewrite (slice_from_all (len d1 + len d2) d1) by lia.
        by rewrite app_nil_r.
      * (* No case of [write] applies: the region is stored as it is *)
        cbn [fold_left PyDict.set ContentBuilder.ws_offset
             ContentBuilder.ws_new_data ContentBuilder.ws_offsets_to_delete].
        destruct (Z.eqb_spec 0 o2); [lia|].
        unfold replay. cbn [fold_left fst snd].
        rewrite apply_write_empty. done.
Qed.

Lemma ContentBuilder_two_dense_writes_witness :
  0 <= 2 <= len (bs "AAAA")
  /\ replay (ContentBuilder.write (bs "BBBB") 2
               (ContentBuilder.write (bs "AAAA") 0 ContentBuilder.init)) []
     = bs "AABBBB".
Proof.
  assert (H : 0 <= 2 <= len (bs "AAAA")) by (vm_compute; split; discriminate).
  split; [exact H|].
  apply (ContentBuilder_two_dense_writes (bs "AAAA") (bs "BBBB") 2 H).
Defined.

(** X1: [truncate] never creates an overlap: if no two regions of the
    builder overlap before [truncate(length)], none do after it. *)
Theorem ContentBuilder_truncate_no_overlap (length : Z) (contents : ContentBuilder.t) :
  ContentBuilder.no_overlap contents ->
  ContentBuilder.no_overlap (ContentBuilder.truncate length contents).
Proof. apply truncate_no_overlap. Qed.

Lemma ContentBuilder_truncate_no_overlap_witness :
  ContentBuilder.no_overlap [(0, bs "AAAA"); (6, bs "BB")]
  /\ ContentBuilder.no_overlap
       (ContentBuilder.truncate 2 [(0, bs "AAAA"); (6, bs "BB")]).
Proof.
  assert (H : ContentBuilder.no_overlap [(0, bs "AAAA"); (6, bs "BB")])
    by (by apply no_overlapb_spec).
  split; [exact H|].
  apply (ContentBuilder_truncate_no_overlap 2 [(0, bs "AAAA"); (6, bs "BB")] H).
Defined.

(** ** File.stat *)

(** The dictionary returned by [stat]. *)
Record file_stat := mkFileStat {
  stat_id : ident;
  stat_type : string;
  stat_created : string;
  stat_updated : string;
  stat_size : Z;
  stat_version : Z
}.

(** The body of [for modification in self.modifications] in [stat]. *)
Definition pending_size (size : Z) (m : modification) : Z :=
  match m with
  | MWrite data offset =>
      let end_offset := offset + len data in
      if size <? end_offset then end_offset else size
  | MTruncate length =>
      if size >? length then length else size
  end.

(** The two loops of [stat] over the payload: the sum of the block sizes. *)
Definition payload_size (blob : list BlockGroup) : Z :=
  fold_left (fun size blocks_and_key =>
               fold_left (fun size block => size + bm_size block)
                         (blocks blocks_and_key) size)
            blob 0.

Section Stat.
Context {E : Externals}.
Import FileEngine.

(** [stat(self)] *)
Definition stat (self : addr) : M file_stat :=
  let* (vlob, blob) := read_payload self in
  let size := payload_size blob in
  let* f := get_self self in
  let size := fold_left pending_size (modifications f) size in
  ret (mkFileStat (file_id f) "file" "2012-01-01T00:00:00" "2012-01-01T00:00:00"
                  size (vlob_version vlob)).

Lemma read_payload_only_reads self :
  obeys only_reads not_file_error (read_payload self).
Proof. unfold read_payload. obeys_auto. Qed.

End Stat.

Lemma pending_size_reference (ops : list modification) (buf : bytes) :
  Reference.dense_from buf ops = true ->
  fold_left pending_size ops (len buf) = len (fold_left Reference.apply ops buf).
Proof.
  revert buf. induction ops as [|m ops IH]; intros buf Hd; [done|].
  simpl in Hd. apply andb_true_iff in Hd as [Hm Hd].
  cbn [fold_left]. rewrite <- (IH _ Hd). f_equal.
  pose proof (len_nonneg buf) as Hb.
  destruct m as [data offset | lth]; cbn [pending_size Reference.apply].
  - apply andb_true_iff in Hm as [H0 H1].
    apply Z.leb_le in H0. apply Z.leb_le in H1.
    pose proof (len_nonneg data) as Hdt.
    rewrite slice_to_nonneg, slice_from_nonneg by lia.
    unfold len in *. rewrite !length_app, length_take, length_drop.
    destruct (Z.ltb_spec (Z.of_nat (length buf)) (offset + Z.of_nat (length data))); lia.
  - apply Z.leb_le in Hm. rewrite slice_to_nonneg by lia.
    unfold len in *. rewrite length_take.
    destruct (Z.gtb_spec (Z.of_nat (length buf)) lth); lia.
Qed.

(** X5: [stat()] does not flush: it performs only reads and changes nothing but
    the trace, and its size is the stored size adjusted by the pending
    modifications. When every pending write starts inside the buffer or at
    its end, that size is the length of a reference byte buffer of the
    stored size after the same writes and truncations ([Reference.apply]);
    this need not be the length of what [flush] stores for the same queue. *)
Theorem stat_size_is_reference_length
    (E : Externals) (self : addr) (w w1 : World) (f : File)
    (vlob : vlob_atom) (blob : list BlockGroup) (buf : bytes) :
  heap w !! self = Some f ->
  FileEngine.read_payload self w = (Ok (vlob, blob), w1) ->
  payload_size blob = len buf ->
  Reference.dense_from buf (modifications f) = true ->
  stat self w
  = (Ok (mkFileStat (file_id f) "file" "2012-01-01T00:00:00" "2012-01-01T00:00:00"
                    (len (fold_left Reference.apply (modifications f) buf))
                    (vlob_version vlob)),
     w1)
  /\ only_reads w w1
  /\ heap w1 !! self = Some f.
Proof.
  intros Hf Hp Hsize Hdense.
  pose proof (read_payload_only_reads self w) as [Hro _].
  rewrite Hp in Hro. simpl in Hro.
  assert (Hf1 : heap w1 !! self = Some f).
  { destruct Hro as (Hh & _). by rewrite Hh. }
  split; [|by split].
  unfold stat. unfold bind at 1. rewrite Hp.
  unfold bind, get_self. rewrite Hf1. simpl. unfold ret.
  by rewrite Hsize, pending_size_reference.
Qed.

(** ** Block groups: [append_block] *)

(** The blocks of a list of groups in file order, each with the key of its
    group. *)
Definition keyed_blocks (groups : list BlockGroup) : list (string * BlockMeta) :=
  concat (map (fun g => map (pair (key g)) (blocks g)) groups).

(** No two consecutive groups have the same key. *)
Fixpoint adjacent_keys_differ (groups : list BlockGroup) : Prop :=
  match groups with
  | [] => True
  | g :: gs =>
      match gs with
      | [] => True
      | g' :: _ => key g <> key g' /\ adjacent_keys_differ gs
      end
  end.

Lemma keyed_blocks_cons (g : BlockGroup) (gs : list BlockGroup) :
  keyed_blocks (g :: gs) = map (pair (key g)) (blocks g) ++ keyed_blocks gs.
Proof. reflexivity. Qed.

Lemma append_block_keyed (groups : list BlockGroup) (k : string) (bp : BlockMeta) :
  keyed_blocks (append_block groups k bp) = keyed_blocks groups ++ [(k, bp)].
Proof.
  induction groups as [|g gs IH]; [reflexivity|].
  destruct gs as [|g' gs].
  - cbn [append_block]. case_bool_decide as Hk.
    + unfold keyed_blocks. simpl. rewrite !app_nil_r, map_app. simpl. by rewrite Hk.
    + unfold keyed_blocks. simpl. by rewrite !app_nil_r.
  - change (append_block (g :: g' :: gs) k bp)
      with (g :: append_block (g' :: gs) k bp).
    rewrite !keyed_blocks_cons, IH, keyed_blocks_cons. by rewrite <- !app_assoc.
Qed.

Lemma append_block_head (g g' : BlockGroup) (gs : list BlockGroup)
    (k : string) (bp : BlockMeta) :
  exists h gs', append_block (g' :: gs) k bp = h :: gs' /\ key h = key g'.
Proof.
  destruct gs as [|g'' gs].
  - cbn [append_block]. case_bool_decide; eexists _, _; by split.
  - eexists _, _. by split.
Qed.

Lemma append_block_adjacent (groups : list BlockGroup) (k : string) (bp : BlockMeta) :
  adjacent_keys_differ groups -> adjacent_keys_differ (append_block groups k bp).
Proof.
  induction groups as [|g gs IH]; intros Hadj; [done|].
  destruct gs as [|g' gs].
  - cbn [append_block]. case_bool_decide as Hk; simpl; [done | by split].
  - change (append_block (g :: g' :: gs) k bp)
      with (g :: append_block (g' :: gs) k bp).
    destruct Hadj as [Hne Hadj]. specialize (IH Hadj).
    destruct (append_block_head g g' gs k bp) as (h & gs' & Heq & Hkey).
    rewrite Heq in *. simpl. split; [by rewrite Hkey | done].
Qed.

(** X6: [append_block] adds the block at the end of file order under its key,
    keeps every other block and its key, and never leaves two consecutive
    groups with the same key: a block whose key is that of the last group
    joins that group. *)
Theorem append_block_coalesces
    (groups : list BlockGroup) (k : string) (bp : BlockMeta) :
  adjacent_keys_differ groups ->
  keyed_blocks (append_block groups k bp) = keyed_blocks groups ++ [(k, bp)]
  /\ adjacent_keys_differ (append_block groups k bp).
Proof.
  intros H. split; [apply append_block_keyed | by apply append_block_adjacent].
Qed.

Lemma append_block_coalesces_witness :
  adjacent_keys_differ [mkBlockGroup [mkBlockMeta 1%nat "d1" 4] "k1"]
  /\ append_block [mkBlockGroup [mkBlockMeta 1%nat "d1" 4] "k1"] "k1"
       (mkBlockMeta 2%nat "d2" 3)
     = [mkBlockGroup [mkBlockMeta 1%nat "d1" 4; mkBlockMeta 2%nat "d2" 3] "k1"]
  /\ adjacent_keys_differ
       (append_block [mkBlockGroup [mkBlockMeta 1%nat "d1" 4] "k1"] "k1"
          (mkBlockMeta 2%nat "d2" 3)).
Proof.
  assert (H : adjacent_keys_differ [mkBlockGroup [mkBlockMeta 1%nat "d1" 4] "k1"])
    by exact I.
  split; [exact H|]. split; [reflexivity|].
  apply (append_block_coalesces _ "k1" (mkBlockMeta 2%nat "d2" 3) H).
Defined.

(** ** The read path: what the stored blocks hold *)

Section Holds.
Context {E : Externals}.

(** The block [bp] of a group whose decoded key is [raw] reads back as
    [chunk]: it is known to the synchronizer, decodes and decrypts under the
    key, and its metadata describe the cleartext. *)
Definition block_holds (s : Synchronizer.t) (raw : bytes) (bp : BlockMeta)
    (chunk : bytes) : Prop :=
  exists content cipher,
    fst (Synchronizer.block_read (block bp) s) = Ok content
    /\ from_jsonb64 content = Some cipher
    /\ Crypto.decrypt (mkAESKey raw) cipher = Ok chunk
    /\ digest chunk = bm_digest bp
    /\ len chunk = bm_size bp.

(** The key of the group decodes to a key of a size [AES] accepts, under
    which the blocks of the group hold [chunks]. *)
Definition group_holds (s : Synchronizer.t) (g : BlockGroup)
    (chunks : list bytes) : Prop :=
  exists raw,
    from_jsonb64 (key g) = Some raw
    /\ key_ok raw
    /\ Forall2 (block_holds s raw) (blocks g) chunks.

(** The groups hold the bytes [content], in file order. *)
Definition payload_holds (s : Synchronizer.t) (blob : list BlockGroup)
    (content : bytes) : Prop :=
  exists chunkss,
    Forall2 (group_holds s) blob chunkss
    /\ content = concat (concat chunkss).

Lemma payload_holds_nil (s : Synchronizer.t) : payload_holds s [] [].
Proof. exists []. split; [constructor | done]. Qed.

Lemma payload_holds_cons s g gs chunks content :
  group_holds s g chunks -> payload_holds s gs content ->
  payload_holds s (g :: gs) (concat chunks ++ content).
Proof.
  intros Hg (chunkss & Hgs & ->). exists (chunks :: chunkss).
  split; [by constructor|]. simpl. by rewrite concat_app.
Qed.

Lemma payload_holds_inv_cons s g gs content :
  payload_holds s (g :: gs) content ->
  exists chunks rest,
    group_holds s g chunks /\ payload_holds s gs rest
    /\ content = concat chunks ++ rest.
Proof.
  intros (chunkss & H & ->). inversion H as [|? chunks ? chunkss' Hg Hgs]; subst.
  exists chunks, (concat (concat chunkss')).
  split; [done|]. split; [by exists chunkss'|]. simpl. by rewrite concat_app.
Qed.

Lemma group_holds_snoc s g chunks raw bp chunk :
  group_holds s g chunks ->
  from_jsonb64 (key g) = Some raw ->
  block_holds s raw bp chunk ->
  group_holds s (mkBlockGroup (blocks g ++ [bp]) (key g)) (chunks ++ [chunk]).
Proof.
  intros (raw' & Hk & Hok & Hb) Hraw Hbp.
  assert (raw' = raw) by congruence. subst.
  exists raw. split; [done|]. split; [done|]. simpl.
  apply Forall2_app; [done | by constructor].
Qed.

(** Appending a block that holds [chunk] appends [chunk] to what the groups
    hold. *)
Lemma append_block_holds s groups content k raw bp chunk :
  payload_holds s groups content ->
  from_jsonb64 k = Some raw ->
  key_ok raw ->
  block_holds s raw bp chunk ->
  payload_holds s (append_block groups k bp) (content ++ chunk).
Proof.
  intros Hp Hk Hok Hbp.
  assert (Hnew : group_holds s (mkBlockGroup [bp] k) [chunk]).
  { exists raw. split; [done|]. split; [done|]. by constructor. }
  revert content Hp. induction groups as [|g gs IH]; intros content Hp.
  - destruct Hp as (chunkss & H & ->). inversion H; subst. simpl.
    replace chunk with (concat [chunk] ++ []) by (simpl; by rewrite !app_nil_r).
    apply payload_holds_cons; [done | apply payload_holds_nil].
  - apply payload_holds_inv_cons in Hp as (chunks & rest & Hg & Hgs & ->).
    destruct gs as [|g' gs].
    + destruct Hgs as (chunkss & H & ->). inversion H; subst.
      cbn [append_block]. simpl concat. rewrite app_nil_r.
      case_bool_decide as Hkey.
      * replace (concat chunks ++ chunk) with (concat (chunks ++ [chunk]) ++ [])
          by (rewrite concat_app; simpl; by rewrite !app_nil_r).
        apply payload_holds_cons; [|apply payload_holds_nil].
        apply (group_holds_snoc s g chunks raw); [done | by rewrite Hkey | done].
      * replace (concat chunks ++ chunk)
          with (concat chunks ++ (concat [chunk] ++ []))
          by (simpl; by rewrite !app_nil_r).
        apply payload_holds_cons; [done|].
        apply payload_holds_cons; [done | apply payload_holds_nil].
    + change (append_block (g :: g' :: gs) k bp)
        with (g :: append_block (g' :: gs) k bp).
      rewrite <- app_assoc. apply payload_holds_cons; [done|]. by apply IH.
Qed.

End Holds.

(** ** The read-range planner [_find_matching_blocks] *)

Lemma slice_to_neg {A} (d : Z) (l : list A) :
  0 < d <= len l -> slice_to (- d) l = take (length l - Z.to_nat d) l.
Proof.
  intros Hd. unfold slice_to, py_index, len in *.
  destruct (Z.ltb_spec (- d) 0); [|lia]. f_equal. lia.
Qed.

Lemma slice_from_neg {A} (d : Z) (l : list A) :
  0 < d <= len l -> slice_from (- d) l = drop (length l - Z.to_nat d) l.
Proof.
  intros Hd. unfold slice_from, py_index, len in *.
  destruct (Z.ltb_spec (- d) 0); [|lia]. f_equal. lia.
Qed.

Section FindMatchingBlocks.
Context {E : Externals}.
Import FileEngine.

(** What the planner has accumulated after the blocks holding the prefix
    [P] of the file, for the range of [sz] bytes at [a]: the three parts of
    [P] before, inside and after the range, each as blocks kept whole and
    bytes of the blocks that straddle an edge of the range. *)
Definition find_inv (s : Synchronizer.t) (a sz : Z) (P : bytes)
    (st : Z * matching_blocks) : Prop :=
  fst st = len P
  /\ exists Bpre Binc Bpost,
       payload_holds s (pre_excluded_blocks (snd st)) Bpre
       /\ payload_holds s (included_blocks (snd st)) Binc
       /\ payload_holds s (post_excluded_blocks (snd st)) Bpost
       /\ Bpre ++ pre_excluded_data (snd st) = take (Z.to_nat a) P
       /\ pre_included_data (snd st) ++ Binc ++ post_included_data (snd st)
          = take (Z.to_nat sz) (drop (Z.to_nat a) P)
       /\ post_excluded_data (snd st) ++ Bpost
          = drop (Z.to_nat a + Z.to_nat sz) P
       /\ (len P <= a -> pre_excluded_data (snd st) = [])
       /\ (len P <= a + sz -> post_included_data (snd st) = [])
       /\ (a <= 0 -> pre_included_data (snd st) = []).

Lemma find_inv_init (s : Synchronizer.t) (a sz : Z) :
  find_inv s a sz [] (0, mkMatching [] [] [] [] [] [] []).
Proof.
  split; [done|]. exists [], [], []. simpl.
  rewrite !take_nil, !drop_nil, take_nil.
  repeat split; try done; apply payload_holds_nil.
Qed.

Lemma read_block_holds (s : Synchronizer.t) (raw : bytes) (bp : BlockMeta)
    (chunk : bytes) (w : World) :
  sync w = s -> block_holds s raw bp chunk ->
  read_block (mkAESKey raw) (block bp) w
  = (Ok chunk,
     mkWorld (heap w) (files w) (sync w) (rnd w) (trace w ++ [EBlockRead (block bp)])).
Proof.
  intros <- (content & cipher & Hr & Hc & Hd & _).
  unfold read_block, bind, perform, lift_result.
  pose proof (block_read_pure (block bp) (sync w)) as Hp.
  destruct (Synchronizer.block_read (block bp) (sync w)) as [r s'].
  cbn [fst snd] in *. subst r s'.
  rewrite Hc. cbn [of_option]. rewrite Hd. done.
Qed.

Lemma only_reads_block_read (w : World) (id : ident) :
  only_reads w (mkWorld (heap w) (files w) (sync w) (rnd w)
                        (trace w ++ [EBlockRead id])).
Proof.
  repeat split. exists [EBlockRead id]. split; [done|]. by apply Forall_singleton.
Qed.

Lemma app_nil_inv3 {A} (x y z : list A) : x ++ y ++ z = [] -> x = [] /\ y = [] /\ z = [].
Proof.
  intros H. apply app_eq_nil in H as [-> H]. apply app_eq_nil in H as [-> ->]. done.
Qed.

(** One block more: the planner files it under the part of the range it
    falls in, reading it when it straddles an edge. *)
Lemma find_block_step (s : Synchronizer.t) (a sz : Z) (k : string) (raw : bytes)
    (bp : BlockMeta) (chunk P : bytes) (st : Z * matching_blocks) (w : World) :
  0 <= a -> 0 <= sz ->
  sync w = s ->
  from_jsonb64 k = Some raw ->
  key_ok raw ->
  block_holds s raw bp chunk ->
  find_inv s a sz P st ->
  exists st' w',
    find_block sz a k (mkAESKey raw) st bp w = (Ok st', w')
    /\ only_reads w w'
    /\ find_inv s a sz (P ++ chunk) st'.
Proof.
  intros Ha Hsz Hs Hk Hok Hbp [Hcur (Bpre & Binc & Bpost & Hpre & Hinc & Hpost
                                   & E1 & E2 & E3 & I4 & I5 & I6)].
  destruct st as [cursor mb]. simpl in *. subst cursor.
  assert (Hsize : bm_size bp = len chunk) by (by destruct Hbp as (? & ? & ? & ? & ? & ? & ->)).
  unfold find_block. rewrite Hsize.
  set (p := length P) in *. set (n := length chunk) in *.
  set (na := Z.to_nat a) in *. set (nsz := Z.to_nat sz) in *.
  assert (HlP : len P = Z.of_nat p) by done.
  assert (Hlc : len chunk = Z.of_nat n) by done.
  assert (T1 : take na (P ++ chunk) = take na P ++ take (na - p) chunk)
    by apply take_app.
  assert (T2 : take nsz (drop na (P ++ chunk))
               = take nsz (drop na P) ++ take (nsz - (p - na)) (drop (na - p) chunk)).
  { rewrite drop_app, take_app, length_drop. done. }
  assert (T3 : drop (na + nsz) (P ++ chunk)
               = drop (na + nsz) P ++ drop (na + nsz - p) chunk)
    by apply drop_app.
  assert (HlenPc : len (P ++ chunk) = Z.of_nat (p + n))
    by (unfold len; rewrite length_app; done).
  destruct (Z.leb_spec (len P + len chunk) a) as [B1|B1].
  { (* entirely before the range *)
    eexists _, w. split; [reflexivity|]. split; [reflexivity|].
    split; [simpl; rewrite HlenPc; lia|].
    rewrite (I4 ltac:(lia)) in *. rewrite app_nil_r in E1.
    assert (Hd : drop na P = []) by (apply drop_ge; lia).
    rewrite Hd, take_nil in E2. apply app_nil_inv3 in E2 as (Ep & Ei & Eo).
    assert (Hd3 : drop (na + nsz) P = []) by (apply drop_ge; lia).
    rewrite Hd3 in E3. apply app_eq_nil in E3 as [Ex Eb].
    exists (Bpre ++ chunk), Binc, Bpost. simpl. fold na nsz.
    split; [by eapply append_block_holds|]. split; [done|]. split; [done|].
    rewrite T1, T2, T3, Hd, Hd3, <- E1, Ep, Ei, Eo, Ex, Eb.
    rewrite (take_ge chunk) by lia. rewrite (drop_ge chunk (na - p)) by lia.
    rewrite (drop_ge chunk (na + nsz - p)) by lia.
    rewrite !take_nil, !app_nil_r. done. }
  destruct (Z.gtb_spec (len P + len chunk) a) as [_|]; [|lia].
  destruct (Z.ltb_spec (len P + len chunk - len chunk) a) as [B2|B2]; cbn [andb].
  { (* straddles the left edge *)
    unfold bind. rewrite (read_block_holds s raw bp chunk w Hs Hbp).
    eexists _, _. split; [reflexivity|]. split; [apply only_reads_block_read|].
    split; [simpl; rewrite HlenPc; lia|].
    rewrite (I4 ltac:(lia)) in *. rewrite app_nil_r in E1.
    assert (Hd : drop na P = []) by (apply drop_ge; lia).
    rewrite Hd, take_nil in E2. apply app_nil_inv3 in E2 as (Ep & Ei & Eo).
    assert (Hd3 : drop (na + nsz) P = []) by (apply drop_ge; lia).
    rewrite Hd3 in E3. apply app_eq_nil in E3 as [Ex Eb].
    exists Bpre, Binc, Bpost. simpl. fold na nsz.
    split; [done|]. split; [done|]. split; [done|].
    rewrite slice_to_neg, slice_from_neg by lia.
    replace (length chunk - Z.to_nat (len P + len chunk - a))%nat with (na - p)%nat
      by (fold n; lia).
    rewrite (slice_to_nonneg sz) by done.
    rewrite T1, T2, T3, Hd, Hd3, <- E1, Ei, Eo, Eb. fold nsz.
    replace (nsz - (p - na))%nat with nsz by lia.
    split; [done|]. split; [by rewrite take_nil, !app_nil_r|].
    assert (Hld : len (drop (na - p) chunk) = Z.of_nat (n - (na - p)))
      by (unfold len; by rewrite length_drop).
    rewrite Hld. split; [|split; [lia | split; [done | lia]]].
    destruct (Z.ltb_spec sz (Z.of_nat (n - (na - p)))) as [Hlt|Hge].
    - rewrite (slice_from_nonneg sz) by done. fold nsz.
      rewrite drop_drop, app_nil_r. simpl. f_equal. lia.
    - rewrite Ex. simpl. symmetry. apply drop_ge. lia. }
  destruct (Z.leb_spec (len P + len chunk) (a + sz)) as [B3|B3]; cbn [andb].
  { (* fully inside the range *)
    eexists _, w. split; [reflexivity|]. split; [reflexivity|].
    split; [simpl; rewrite HlenPc; lia|].
    exists Bpre, (Binc ++ chunk), Bpost. simpl. fold na nsz.
    split; [done|]. split; [by eapply append_block_holds|]. split; [done|].
    rewrite (I5 ltac:(lia)) in *.
    rewrite T1, T2, T3, <- E1, <- E2, <- E3.
    replace (na - p)%nat with 0%nat by lia.
    rewrite (drop_ge chunk (na + nsz - p)) by lia.
    rewrite take_0, drop_0, (take_ge chunk (nsz - (p - na))) by lia.
    rewrite !app_nil_r, <- !app_assoc.
    repeat split; try done; lia. }
  destruct (Z.gtb_spec (len P + len chunk) (a + sz)) as [_|]; [|lia].
  destruct (Z.ltb_spec (len P + len chunk - len chunk) (a + sz)) as [B4|B4];
    cbn [andb].
  { (* straddles the right edge *)
    unfold bind. rewrite (read_block_holds s raw bp chunk w Hs Hbp).
    eexists _, _. split; [reflexivity|]. split; [apply only_reads_block_read|].
    split; [simpl; rewrite HlenPc; lia|].
    rewrite (I5 ltac:(lia)) in *.
    assert (Hd3 : drop (na + nsz) P = []) by (apply drop_ge; lia).
    rewrite Hd3 in E3. apply app_eq_nil in E3 as [Ex Eb].
    exists Bpre, Binc, Bpost. simpl. fold na nsz.
    split; [done|]. split; [done|]. split; [done|].
    rewrite slice_to_nonneg, slice_from_nonneg by lia.
    replace (Z.to_nat (a + sz - (len P + len chunk - len chunk)))
      with (na + nsz - p)%nat by lia.
    rewrite T1, T2, T3, Hd3, <- E1, <- E2, Eb.
    replace (na - p)%nat with 0%nat by lia.
    replace (nsz - (p - na))%nat with (na + nsz - p)%nat by lia.
    simpl. rewrite !app_nil_r, <- !app_assoc.
    repeat split; try done; lia. }
  (* entirely after the range *)
  eexists _, w. split; [reflexivity|]. split; [reflexivity|].
  split; [simpl; rewrite HlenPc; lia|].
  exists Bpre, Binc, (Bpost ++ chunk). simpl. fold na nsz.
  split; [done|]. split; [done|]. split; [by eapply append_block_holds|].
  rewrite T1, T2, T3, <- E1, <- E2, <- E3.
  replace (na - p)%nat with 0%nat by lia.
  replace (nsz - (p - na))%nat with 0%nat by lia.
  replace (na + nsz - p)%nat with 0%nat by lia.
  simpl. rewrite !app_nil_r, <- !app_assoc.
  repeat split; try done; lia.
Qed.

End FindMatchingBlocks.

Section ReadPath.
Context {E : Externals}.
Import FileEngine.

Lemma only_reads_sync (w w' : World) : only_reads w w' -> sync w' = sync w.
Proof. by intros (_ & _ & ? & _). Qed.

Lemma find_blocks_loop (s : Synchronizer.t) (a sz : Z) (k : string) (raw : bytes)
    (bps : list BlockMeta) (chunks : list bytes) :
  0 <= a -> 0 <= sz ->
  from_jsonb64 k = Some raw ->
  key_ok raw ->
  Forall2 (block_holds s raw) bps chunks ->
  forall (P : bytes) (st : Z * matching_blocks) (w : World),
    sync w = s ->
    find_inv s a sz P st ->
    exists st' w',
      for_each (find_block sz a k (mkAESKey raw)) bps st w = (Ok st', w')
      /\ only_reads w w'
      /\ find_inv s a sz (P ++ concat chunks) st'.
Proof.
  intros Ha Hsz Hk Hok Hall. induction Hall as [|bp chunk bps chunks Hbp _ IH];
    intros P st w Hs Hinv.
  - exists st, w. simpl. rewrite app_nil_r. done.
  - destruct (find_block_step s a sz k raw bp chunk P st w Ha Hsz Hs Hk Hok Hbp Hinv)
      as (st1 & w1 & Hrun & Hro & Hinv1).
    destruct (IH (P ++ chunk) st1 w1) as (st2 & w2 & Hrun2 & Hro2 & Hinv2);
      [by rewrite (only_reads_sync _ _ Hro) | done |].
    exists st2, w2. split; [|split].
    + cbn [for_each]. unfold bind at 1. by rewrite Hrun.
    + by etrans.
    + simpl. by rewrite app_assoc.
Qed.

Lemma find_groups_loop (s : Synchronizer.t) (a sz : Z) (blob : list BlockGroup)
    (chunkss : list (list bytes)) :
  0 <= a -> 0 <= sz ->
  Forall2 (group_holds s) blob chunkss ->
  forall (P : bytes) (st : Z * matching_blocks) (w : World),
    sync w = s ->
    find_inv s a sz P st ->
    exists st' w',
      for_each (find_group sz a) blob st w = (Ok st', w')
      /\ only_reads w w'
      /\ find_inv s a sz (P ++ concat (concat chunkss)) st'.
Proof.
  intros Ha Hsz Hall. induction Hall as [|g chunks blob chunkss Hg _ IH];
    intros P st w Hs Hinv.
  - exists st, w. simpl. rewrite app_nil_r. done.
  - destruct Hg as (raw & Hk & Hok & Hbs).
    destruct (find_blocks_loop s a sz (key g) raw (blocks g) chunks Ha Hsz Hk Hok Hbs
                P st w Hs Hinv) as (st1 & w1 & Hrun & Hro & Hinv1).
    destruct (IH (P ++ concat chunks) st1 w1) as (st2 & w2 & Hrun2 & Hro2 & Hinv2);
      [by rewrite (only_reads_sync _ _ Hro) | done |].
    exists st2, w2. split; [|split].
    + cbn [for_each]. unfold bind at 1. unfold find_group at 1.
      unfold bind at 1, lift_result. rewrite Hk. cbn [of_option].
      unfold bind at 1. rewrite (load_sym_key_key_ok raw Hok). by rewrite Hrun.
    + by etrans.
    + simpl. by rewrite concat_app, app_assoc.
Qed.

(** The plan [_find_matching_blocks] returns for a payload that holds
    [content]. *)
Lemma find_matching_blocks_plan (self : addr) (size : option Z) (offset : Z)
    (w w1 : World) (vlob : vlob_atom) (blob : list BlockGroup) (content : bytes) :
  0 <= offset -> 0 <= default sys_maxsize size ->
  read_payload self w = (Ok (vlob, blob), w1) ->
  payload_holds (sync w1) blob content ->
  exists mb w2,
    _find_matching_blocks self size offset w = (Ok mb, w2)
    /\ only_reads w1 w2
    /\ find_inv (sync w1) offset (default sys_maxsize size) content (len content, mb).
Proof.
  intros Ha Hsz Hread (chunkss & Hall & ->).
  destruct (find_groups_loop (sync w1) offset (default sys_maxsize size) blob chunkss
              Ha Hsz Hall [] _ w1 eq_refl (find_inv_init _ _ _))
    as ([cursor mb] & w2 & Hrun & Hro & Hinv).
  exists mb, w2. split; [|split; [done|]].
  - unfold _find_matching_blocks. unfold bind at 1. rewrite Hread.
    unfold bind at 1. destruct size; simpl in *; by rewrite Hrun.
  - rewrite app_nil_l in Hinv. destruct Hinv as [Hc Hinv]. simpl in Hc. subst cursor.
    split; done.
Qed.

Lemma read_chunks_loop (s : Synchronizer.t) (raw : bytes)
    (bps : list BlockMeta) (chunks : list bytes) :
  Forall2 (block_holds s raw) bps chunks ->
  forall (data : bytes) (w : World),
    sync w = s ->
    exists w',
      for_each (read_chunk (mkAESKey raw)) bps data w
      = (Ok (data ++ concat chunks), w')
      /\ only_reads w w'.
Proof.
  induction 1 as [|bp chunk bps chunks Hbp _ IH]; intros data w Hs.
  - exists w. simpl. by rewrite app_nil_r.
  - pose proof Hbp as (content & cipher & _ & _ & _ & Hdig & Hlen).
    destruct (IH (data ++ chunk)
                (mkWorld (heap w) (files w) (sync w) (rnd w)
                         (trace w ++ [EBlockRead (block bp)])) Hs)
      as (w2 & Hrun & Hro).
    exists w2. split.
    + cbn [for_each]. unfold bind at 1. unfold read_chunk at 1. unfold bind at 1.
      rewrite (read_block_holds s raw bp chunk w Hs Hbp).
      rewrite bool_decide_eq_true_2 by done. cbn [negb].
      rewrite (proj2 (Z.eqb_eq _ _) Hlen). cbn [negb]. unfold ret at 1.
      rewrite Hrun. simpl. by rewrite app_assoc.
    + etrans; [apply only_reads_block_read | done].
Qed.

Lemma read_groups_loop (s : Synchronizer.t) (groups : list BlockGroup)
    (chunkss : list (list bytes)) :
  Forall2 (group_holds s) groups chunkss ->
  forall (data : bytes) (w : World),
    sync w = s ->
    exists w',
      for_each read_group groups data w = (Ok (data ++ concat (concat chunkss)), w')
      /\ only_reads w w'.
Proof.
  induction 1 as [|g chunks groups chunkss Hg _ IH]; intros data w Hs.
  - exists w. simpl. by rewrite app_nil_r.
  - destruct Hg as (raw & Hk & Hok & Hbs).
    destruct (read_chunks_loop s raw (blocks g) chunks Hbs data w Hs)
      as (w1 & Hrun & Hro).
    destruct (IH (data ++ concat chunks) w1) as (w2 & Hrun2 & Hro2);
      [by rewrite (only_reads_sync _ _ Hro)|].
    exists w2. split.
    + cbn [for_each]. unfold bind at 1. unfold read_group at 1.
      unfold bind at 1, lift_result. rewrite Hk. cbn [of_option].
      unfold bind at 1. rewrite (load_sym_key_key_ok raw Hok). rewrite Hrun.
      rewrite Hrun2. simpl. by rewrite concat_app, app_assoc.
    + by etrans.
Qed.

(** [read] once its [flush] has returned: the range is cut out of what
    the payload holds. *)
Lemma read_after_flush (self : addr) (size : option Z) (offset : Z)
    (w w0 w1 : World) (vlob : vlob_atom) (blob : list BlockGroup) (content : bytes) :
  flush self w = (Ok tt, w0) ->
  read_payload self w0 = (Ok (vlob, blob), w1) ->
  payload_holds (sync w0) blob content ->
  0 <= offset -> 0 <= default sys_maxsize size ->
  exists w',
    read self size offset w
    = (Ok (slice offset (offset + default sys_maxsize size) content), w')
    /\ only_reads w0 w'.
Proof.
  intros Hflush Hread Hholds Ha Hsz.
  assert (Hro1 : only_reads w0 w1).
  { pose proof (read_payload_only_reads self w0) as [Hro _].
    by rewrite Hread in Hro. }
  rewrite <- (only_reads_sync _ _ Hro1) in Hholds.
  destruct (find_matching_blocks_plan self size offset w0 w1 vlob blob content
              Ha Hsz Hread Hholds)
    as (mb & w2 & Hfind & Hro2 & _ & Bpre & Binc & Bpost & _ & (css & Hinc & ->) & _
        & _ & E2 & _).
  cbn [snd] in *.
  destruct (read_groups_loop (sync w1) (included_blocks mb) css Hinc
              (pre_included_data mb) w2 (only_reads_sync _ _ Hro2))
    as (w3 & Hrun & Hro3).
  exists w3. split.
  - unfold read. unfold bind at 1. rewrite Hflush.
    unfold bind at 1. rewrite Hfind. unfold bind at 1. rewrite Hrun.
    unfold ret. f_equal. f_equal.
    rewrite <- app_assoc, E2, slice_nonneg by lia. f_equal. lia.
  - etrans; [done|]. by etrans.
Qed.

(** The handle at [self] has nothing queued and its current version of the
    vlob holds [content]. *)
Definition file_holds (w : World) (self : addr) (content : bytes) : Prop :=
  exists f vlob blob w1,
    heap w !! self = Some f
    /\ modifications f = []
    /\ read_payload self w = (Ok (vlob, blob), w1)
    /\ payload_holds (sync w) blob content.

End ReadPath.

(** X7: [read] on a handle with an empty queue whose payload holds
    [content] (every group key decodes to a key of a size [AES] accepts,
    every block reads back under it with the digest and the size recorded)
    returns the requested range of the content
    ([content[offset:offset + size]], to the end when [size] is [None] and
    the content is shorter than [sys.maxsize]) and changes nothing: it only
    records read requests. *)
Theorem read_returns_slice (E : Externals) (w : World) (self : addr)
    (content : bytes) (size : option Z) (offset : Z) :
  file_holds w self content ->
  0 <= offset -> 0 <= default sys_maxsize size ->
  exists w',
    FileEngine.read self size offset w
    = (Ok (slice offset (offset + default sys_maxsize size) content), w')
    /\ only_reads w w'.
Proof.
  intros (f & vlob & blob & w1 & Hf & Hq & Hread & Hholds) Ha Hsz.
  apply (read_after_flush self size offset w w w1 vlob blob content); try done.
  unfold FileEngine.flush. unfold bind at 1. unfold get_self at 1. rewrite Hf.
  cbn [of_option]. by rewrite Hq.
Qed.

(** X13: for a payload that holds [content] (every group key decodes to a
    key of a size [AES] accepts, every block reads back under it with the
    digest and the size recorded), the plan of
    [_find_matching_blocks(size, offset)] partitions the content: the
    blocks and bytes it files before the
    range hold [content[:offset]], those inside the range hold
    [content[offset:offset + size]] and those after it hold the rest, in
    file order; only reads are requested. *)
Theorem find_matching_blocks_partitions (E : Externals) (self : addr)
    (size : option Z) (offset : Z) (w w1 : World) (vlob : vlob_atom)
    (blob : list BlockGroup) (content : bytes) :
  0 <= offset -> 0 <= default sys_maxsize size ->
  FileEngine.read_payload self w = (Ok (vlob, blob), w1) ->
  payload_holds (sync w) blob content ->
  exists mb w2 before inside after,
    FileEngine._find_matching_blocks self size offset w = (Ok mb, w2)
    /\ only_reads w w2
    /\ payload_holds (sync w) (pre_excluded_blocks mb) before
    /\ payload_holds (sync w) (included_blocks mb) inside
    /\ payload_holds (sync w) (post_excluded_blocks mb) after
    /\ before ++ pre_excluded_data mb = slice_to offset content
    /\ pre_included_data mb ++ inside ++ post_included_data mb
       = slice offset (offset + default sys_maxsize size) content
    /\ post_excluded_data mb ++ after
       = slice_from (offset + default sys_maxsize size) content.
Proof.
  intros Ha Hsz Hread Hholds.
  assert (Hro1 : only_reads w w1).
  { pose proof (read_payload_only_reads self w) as [Hro _].
    by rewrite Hread in Hro. }
  pose proof (only_reads_sync _ _ Hro1) as Hs1. rewrite <- Hs1 in Hholds.
  destruct (find_matching_blocks_plan self size offset w w1 vlob blob content
              Ha Hsz Hread Hholds)
    as (mb & w2 & Hfind & Hro2 & _ & Bpre & Binc & Bpost & Hpre & Hinc & Hpost
        & E1 & E2 & E3 & _).
  cbn [snd] in *. rewrite Hs1 in *.
  exists mb, w2, Bpre, Binc, Bpost.
  split; [done|]. split; [by etrans|]. split; [done|]. split; [done|].
  split; [done|].
  rewrite slice_to_nonneg, slice_nonneg, slice_from_nonneg by lia.
  split; [done|]. split.
  - rewrite E2. f_equal. lia.
  - rewrite E3. f_equal. lia.
Qed.

(** ** Checking what a payload holds *)

Section Fetch.
Context {E : Externals}.
Import FileEngine.

(** The cleartext of the block [bp] under the key [raw], if it is stored and
    agrees with its metadata. *)
Definition fetch_block (s : Synchronizer.t) (raw : bytes) (bp : BlockMeta)
  : option bytes :=
  match fst (Synchronizer.block_read (block bp) s) with
  | Ok content =>
      match from_jsonb64 content with
      | Some cipher =>
          match Crypto.decrypt (mkAESKey raw) cipher with
          | Ok chunk =>
              if bool_decide (digest chunk = bm_digest bp)
                 && (len chunk =? bm_size bp)
              then Some chunk else None
          | Raise _ => None
          end
      | None => None
      end
  | Raise _ => None
  end.

Definition fetch_group (s : Synchronizer.t) (g : BlockGroup)
  : option (list bytes) :=
  match from_jsonb64 (key g) with
  | Some raw =>
      match Crypto.load_sym_key raw with
      | Ok _ => mapM (fetch_block s raw) (blocks g)
      | Raise _ => None
      end
  | None => None
  end.

Definition fetch_payload (s : Synchronizer.t) (blob : list BlockGroup)
  : option bytes :=
  match mapM (fetch_group s) blob with
  | Some chunkss => Some (concat (concat chunkss))
  | None => None
  end.

(** The content of the handle at [self], if it has nothing queued and its
    current payload can be fetched. *)
Definition fetch_file (w : World) (self : addr) : option bytes :=
  match heap w !! self with
  | Some f =>
      match modifications f, fst (read_payload self w) with
      | [], Ok (_, blob) => fetch_payload (sync w) blob
      | _, _ => None
      end
  | None => None
  end.

Lemma fetch_block_holds s raw bp chunk :
  fetch_block s raw bp = Some chunk -> block_holds s raw bp chunk.
Proof.
  unfold fetch_block, block_holds. intros H.
  destruct (fst (Synchronizer.block_read (block bp) s)) as [content|]; [|done].
  destruct (from_jsonb64 content) as [cipher|] eqn:Hc; [|done].
  destruct (Crypto.decrypt (mkAESKey raw) cipher) as [chunk'|] eqn:Hdec;
    [|done].
  destruct (bool_decide (digest chunk' = bm_digest bp)) eqn:Hd; [|done].
  destruct (Z.eqb_spec (len chunk') (bm_size bp)) as [Hl|]; [|done].
  simpl in H. injection H as ->. apply bool_decide_eq_true_1 in Hd.
  by exists content, cipher.
Qed.

Lemma fetch_group_holds s g chunks :
  fetch_group s g = Some chunks -> group_holds s g chunks.
Proof.
  unfold fetch_group, group_holds. intros H.
  destruct (from_jsonb64 (key g)) as [raw|] eqn:Hk; [|done].
  destruct (Crypto.load_sym_key raw) as [k|] eqn:Hload; [|done].
  apply load_sym_key_Ok in Hload as [Hok _].
  exists raw. split; [done|]. split; [done|]. apply mapM_Some in H.
  eapply Forall2_impl; [exact H|]. intros ? ?. apply fetch_block_holds.
Qed.

Lemma fetch_payload_holds s blob content :
  fetch_payload s blob = Some content -> payload_holds s blob content.
Proof.
  unfold fetch_payload, payload_holds. intros H.
  destruct (mapM (fetch_group s) blob) as [chunkss|] eqn:Hm; [|done].
  injection H as <-. exists chunkss. split; [|done]. apply mapM_Some in Hm.
  eapply Forall2_impl; [exact Hm|]. intros ? ?. apply fetch_group_holds.
Qed.

Lemma fetch_file_holds w self content :
  fetch_file w self = Some content -> file_holds w self content.
Proof.
  unfold fetch_file, file_holds. intros H.
  destruct (heap w !! self) as [f|] eqn:Hf; [|done].
  destruct (modifications f) eqn:Hq; [|done].
  destruct (read_payload self w) as [[[vlob blob]|] w1] eqn:Hr; [|done].
  simpl in H. exists f, vlob, blob, w1. repeat split; try done.
  by apply fetch_payload_holds.
Qed.

End Fetch.

Lemma read_returns_slice_witness :
  fetch_file (E := Sim.externals) world_edited 0%nat = Some (bs "hello")
  /\ exists w',
       FileEngine.read (E := Sim.externals) 0%nat (Some 3) 1 world_edited
       = (Ok (slice 1 (1 + 3) (bs "hello")), w')
       /\ only_reads world_edited w'.
Proof.
  assert (H1 : fetch_file (E := Sim.externals) world_edited 0%nat = Some (bs "hello"))
    by (vm_compute; reflexivity).
  split; [exact H1|].
  apply (read_returns_slice Sim.externals world_edited 0%nat (bs "hello")
           (Some 3) 1 (fetch_file_holds _ _ _ H1)); simpl; lia.
Defined.

(** The state after one more [write(b"xy", 5)] on the handle of
    [world_edited], not flushed. *)
Definition world_pending : World :=
  run_call (E := Sim.externals) (CallWrite 0%nat (bs "xy") 5) world_edited.

Definition file_pending : File :=
  default File_new (heap world_pending !! 0%nat).

Definition payload_pending : vlob_atom * list BlockGroup :=
  match fst (FileEngine.read_payload (E := Sim.externals) 0%nat world_pending) with
  | Ok p => p
  | Raise _ => (mkVlobAtom 0%nat "" 0, [])
  end.

Lemma stat_size_is_reference_length_witness :
  Reference.dense_from (bs "hello") (modifications file_pending) = true
  /\ fst (stat (E := Sim.externals) 0%nat world_pending)
     = Ok (mkFileStat 4%nat "file" "2012-01-01T00:00:00" "2012-01-01T00:00:00" 7 2).
Proof.
  assert (H1 : heap world_pending !! 0%nat = Some file_pending)
    by (vm_compute; reflexivity).
  assert (H2 : fst (FileEngine.read_payload (E := Sim.externals) 0%nat world_pending)
               = Ok (fst payload_pending, snd payload_pending))
    by (vm_compute; reflexivity).
  assert (H3 : payload_size (snd payload_pending) = len (bs "hello"))
    by (vm_compute; reflexivity).
  assert (H4 : Reference.dense_from (bs "hello") (modifications file_pending) = true)
    by (vm_compute; reflexivity).
  assert (H5 : mkFileStat (file_id file_pending) "file" "2012-01-01T00:00:00"
                 "2012-01-01T00:00:00"
                 (len (fold_left Reference.apply (modifications file_pending)
                                 (bs "hello")))
                 (vlob_version (fst payload_pending))
               = mkFileStat 4%nat "file" "2012-01-01T00:00:00" "2012-01-01T00:00:00" 7 2)
    by (vm_compute; reflexivity).
  split; [exact H4|].
  pose proof (stat_size_is_reference_length Sim.externals 0%nat world_pending _
                file_pending _ _ (bs "hello") H1 (run_returns _ _ _ H2) H3 H4)
    as [H _].
  rewrite H. cbn [fst]. exact (f_equal Ok H5).
Defined.

(** ** File.get_blocks *)

(** The block ids of a list of groups, in file order. *)
Definition all_ids (groups : list BlockGroup) : list ident :=
  concat (map (fun g => map block (blocks g)) groups).

Lemma all_ids_keyed (groups : list BlockGroup) :
  all_ids groups = map (fun kb => block (snd kb)) (keyed_blocks groups).
Proof.
  unfold all_ids, keyed_blocks. induction groups as [|g gs IH]; [done|].
  simpl. rewrite map_app, IH. f_equal. rewrite map_map. done.
Qed.

Lemma all_ids_append_block (groups : list BlockGroup) (k : string) (bp : BlockMeta) :
  all_ids (append_block groups k bp) = all_ids groups ++ [block bp].
Proof. by rewrite !all_ids_keyed, append_block_keyed, map_app. Qed.

Lemma all_ids_app (gs1 gs2 : list BlockGroup) :
  all_ids (gs1 ++ gs2) = all_ids gs1 ++ all_ids gs2.
Proof. unfold all_ids. by rewrite map_app, concat_app. Qed.

(** The inner loop of [stat]: the sizes of the blocks of one group. *)
Definition add_sizes (bps : list BlockMeta) (size : Z) : Z :=
  fold_left (fun size block => size + bm_size block) bps size.

Lemma add_sizes_mono (bps : list BlockMeta) (size : Z) :
  Forall (fun bp => 0 <= bm_size bp) bps -> size <= add_sizes bps size.
Proof.
  intros H. revert size. induction H as [|bp bps Hbp _ IH]; intros size; [done|].
  unfold add_sizes in *. simpl. specialize (IH (size + bm_size bp)). lia.
Qed.

Definition sizes_ok (g : BlockGroup) : Prop :=
  Forall (fun bp => 0 <= bm_size bp) (blocks g).

Lemma payload_size_from_mono (blob : list BlockGroup) (size : Z) :
  Forall sizes_ok blob ->
  size <= fold_left (fun size g => add_sizes (blocks g) size) blob size.
Proof.
  intros H. revert size. induction H as [|g blob Hg _ IH]; intros size; [done|].
  simpl. specialize (IH (add_sizes (blocks g) size)).
  pose proof (add_sizes_mono (blocks g) size Hg). lia.
Qed.

Section GetBlocks.
Context {E : Externals}.
Import FileEngine.

(** The planner's state when it is asked for the whole file: [ids] are
    the blocks seen so far and [total] their sizes. *)
Definition whole_inv (ids : list ident) (total : Z) (st : Z * matching_blocks)
  : Prop :=
  fst st = total /\ 0 <= total
  /\ all_ids (pre_excluded_blocks (snd st)) ++ all_ids (included_blocks (snd st)) = ids
  /\ (total <= 0 -> included_blocks (snd st) = []).

Lemma find_block_whole (k : string) (enc : AESKey) (bp : BlockMeta)
    (ids : list ident) (total : Z) (st : Z * matching_blocks) (w : World) :
  0 <= bm_size bp -> total + bm_size bp <= sys_maxsize ->
  whole_inv ids total st ->
  exists st',
    find_block sys_maxsize 0 k enc st bp w = (Ok st', w)
    /\ whole_inv (ids ++ [block bp]) (total + bm_size bp) st'.
Proof.
  intros Hs Hmax (Hc & H0 & Hids & Hinc). destruct st as [cursor mb].
  simpl in *. subst cursor. unfold find_block.
  destruct (Z.leb_spec (total + bm_size bp) 0) as [B1|B1].
  { eexists. split; [reflexivity|]. split; [done|]. split; [lia|]. simpl.
    rewrite all_ids_append_block, <- Hids, (Hinc ltac:(lia)).
    split; [by rewrite !app_nil_r | done]. }
  destruct (Z.gtb_spec (total + bm_size bp) 0) as [_|]; [|lia].
  destruct (Z.ltb_spec (total + bm_size bp - bm_size bp) 0) as [|_]; [lia|].
  destruct (Z.leb_spec (total + bm_size bp) (0 + sys_maxsize)) as [_|]; [|lia].
  cbn [andb]. eexists. split; [reflexivity|]. split; [done|]. split; [lia|]. simpl.
  rewrite all_ids_append_block, <- Hids, app_assoc. split; [done | lia].
Qed.

Lemma find_blocks_whole (k : string) (enc : AESKey) (bps : list BlockMeta) :
  Forall (fun bp => 0 <= bm_size bp) bps ->
  forall (ids : list ident) (total : Z) (st : Z * matching_blocks) (w : World),
    add_sizes bps total <= sys_maxsize ->
    whole_inv ids total st ->
    exists st',
      for_each (find_block sys_maxsize 0 k enc) bps st w = (Ok st', w)
      /\ whole_inv (ids ++ map block bps) (add_sizes bps total) st'.
Proof.
  induction 1 as [|bp bps Hbp Hbps IH]; intros ids total st w Hmax Hinv.
  - exists st. simpl. by rewrite app_nil_r.
  - pose proof (add_sizes_mono bps (total + bm_size bp) Hbps) as Hm.
    change (add_sizes (bp :: bps) total) with (add_sizes bps (total + bm_size bp)) in *.
    destruct (find_block_whole k enc bp ids total st w Hbp ltac:(lia) Hinv)
      as (st1 & Hrun & Hinv1).
    destruct (IH _ _ st1 w Hmax Hinv1) as (st2 & Hrun2 & Hinv2).
    exists st2. split.
    + cbn [for_each]. unfold bind at 1. by rewrite Hrun.
    + simpl. by rewrite <- app_assoc in Hinv2.
Qed.

(** The key of a group as [_find_matching_blocks] loads it: decoded by
    [from_jsonb64] and accepted by [load_sym_key]. *)
Definition group_key (g : BlockGroup) : option AESKey :=
  match from_jsonb64 (key g) with
  | Some raw =>
      match Crypto.load_sym_key raw with
      | Ok k => Some k
      | Raise _ => None
      end
  | None => None
  end.

Definition group_ok (g : BlockGroup) : Prop :=
  is_Some (group_key g) /\ sizes_ok g.

Lemma group_key_Some (g : BlockGroup) :
  is_Some (group_key g) ->
  exists raw, from_jsonb64 (key g) = Some raw /\ key_ok raw.
Proof.
  unfold group_key. intros [k Hk].
  destruct (from_jsonb64 (key g)) as [raw|]; [|done].
  destruct (Crypto.load_sym_key raw) as [k'|] eqn:Hload; [|done].
  apply load_sym_key_Ok in Hload as [Hok _]. by exists raw.
Qed.

Lemma find_groups_whole (blob : list BlockGroup) :
  Forall group_ok blob ->
  forall (ids : list ident) (total : Z) (st : Z * matching_blocks) (w : World),
    fold_left (fun size g => add_sizes (blocks g) size) blob total <= sys_maxsize ->
    whole_inv ids total st ->
    exists st',
      for_each (find_group sys_maxsize 0) blob st w = (Ok st', w)
      /\ whole_inv (ids ++ all_ids blob)
           (fold_left (fun size g => add_sizes (blocks g) size) blob total) st'.
Proof.
  induction 1 as [|g blob [Hkey Hg] Hblob IH]; intros ids total st w Hmax Hinv.
  - exists st. simpl. by rewrite app_nil_r.
  - apply group_key_Some in Hkey as (raw & Hk & Hok). simpl in Hmax.
    assert (Hm : add_sizes (blocks g) total
                 <= fold_left (fun size g => add_sizes (blocks g) size) blob
                      (add_sizes (blocks g) total)).
    { apply payload_size_from_mono. eapply Forall_impl; [exact Hblob|].
      by intros ? [_ ?]. }
    destruct (find_blocks_whole (key g) (mkAESKey raw) (blocks g) Hg
                ids total st w ltac:(lia) Hinv) as (st1 & Hrun & Hinv1).
    destruct (IH _ _ st1 w Hmax Hinv1) as (st2 & Hrun2 & Hinv2).
    exists st2. split.
    + cbn [for_each]. unfold bind at 1. unfold find_group at 1.
      unfold bind at 1, lift_result. rewrite Hk. cbn [of_option].
      unfold bind at 1. rewrite (load_sym_key_key_ok raw Hok). by rewrite Hrun.
    + simpl. unfold all_ids in *. simpl. by rewrite app_assoc.
Qed.

Lemma get_blocks_all (self : addr) (w w1 : World) (vlob : vlob_atom)
    (blob : list BlockGroup) :
  read_payload self w = (Ok (vlob, blob), w1) ->
  Forall group_ok blob ->
  payload_size blob <= sys_maxsize ->
  get_blocks self w = (Ok (all_ids blob), w1).
Proof.
  intros Hread Hok Hmax.
  destruct (find_groups_whole blob Hok [] 0 (0, mkMatching [] [] [] [] [] [] []) w1
              Hmax) as ([cursor mb] & Hrun & _ & _ & Hids & _).
  { repeat split; simpl; done. }
  unfold get_blocks, _find_matching_blocks. unfold bind at 1. unfold bind at 1.
  rewrite Hread. unfold bind at 1. rewrite Hrun. unfold ret.
  simpl in Hids. fold (all_ids (pre_excluded_blocks mb ++ included_blocks mb)).
  by rewrite all_ids_app, Hids.
Qed.

End GetBlocks.

(** X8: [get_blocks] returns the ids of all the blocks of the current
    payload, in file order, with no request but the read of the vlob,
    provided that every group key decodes to a key of a size [AES] accepts
    (16, 24 or 32 bytes), no block has a negative size and the sizes add up
    to at most [sys.maxsize]. *)
Theorem get_blocks_lists_all (E : Externals) (self : addr) (w w1 : World)
    (vlob : vlob_atom) (blob : list BlockGroup) :
  FileEngine.read_payload self w = (Ok (vlob, blob), w1) ->
  Forall group_ok blob ->
  payload_size blob <= sys_maxsize ->
  FileEngine.get_blocks self w = (Ok (all_ids blob), w1).
Proof. apply get_blocks_all. Qed.

#[global] Instance group_ok_dec {E : Externals} (g : BlockGroup) :
  Decision (group_ok g).
Proof. unfold group_ok, sizes_ok. apply _. Defined.

Definition payload_edited : vlob_atom * list BlockGroup :=
  match fst (FileEngine.read_payload (E := Sim.externals) 0%nat world_edited) with
  | Ok p => p
  | Raise _ => (mkVlobAtom 0%nat "" 0, [])
  end.

Lemma get_blocks_lists_all_witness :
  Forall (group_ok (E := Sim.externals)) (snd payload_edited)
  /\ payload_size (snd payload_edited) <= sys_maxsize
  /\ fst (FileEngine.get_blocks (E := Sim.externals) 0%nat world_edited)
     = Ok [0%nat; 7%nat].
Proof.
  assert (H1 : fst (FileEngine.read_payload (E := Sim.externals) 0%nat world_edited)
               = Ok (fst payload_edited, snd payload_edited))
    by (vm_compute; reflexivity).
  assert (H2 : Forall (group_ok (E := Sim.externals)) (snd payload_edited))
    by (apply (bool_decide_eq_true_1 _ (Decision0 := Forall_dec _ _)); vm_compute; reflexivity).
  assert (H3 : payload_size (snd payload_edited) <= sys_maxsize)
    by (vm_compute; discriminate 1).
  assert (H4 : all_ids (snd payload_edited) = [0%nat; 7%nat])
    by (vm_compute; reflexivity).
  split; [exact H2|]. split; [exact H3|].
  rewrite (get_blocks_lists_all Sim.externals 0%nat world_edited _ _ _
             (run_returns _ _ _ H1) H2 H3).
  cbn [fst]. exact (f_equal Ok H4).
Defined.

Lemma find_matching_blocks_partitions_witness :
  fetch_payload (E := Sim.externals) (sync world_edited) (snd payload_edited)
  = Some (bs "hello")
  /\ exists mb,
       fst (FileEngine._find_matching_blocks (E := Sim.externals) 0%nat (Some 3) 1
              world_edited) = Ok mb
       /\ pre_excluded_data mb = bs "h"
       /\ pre_included_data mb = bs "ell"
       /\ post_excluded_data mb = bs "o".
Proof.
  assert (H1 : fst (FileEngine.read_payload (E := Sim.externals) 0%nat world_edited)
               = Ok (fst payload_edited, snd payload_edited))
    by (vm_compute; reflexivity).
  assert (H2 : fetch_payload (E := Sim.externals) (sync world_edited)
                 (snd payload_edited) = Some (bs "hello"))
    by (vm_compute; reflexivity).
  split; [exact H2|].
  destruct (find_matching_blocks_partitions Sim.externals 0%nat (Some 3) 1
              world_edited _ _ _ (bs "hello") ltac:(lia) ltac:(simpl; lia)
              (run_returns _ _ _ H1) (fetch_payload_holds _ _ _ H2))
    as (mb & w2 & before & inside & after & Hrun & _).
  assert (H4 : match fst (FileEngine._find_matching_blocks (E := Sim.externals)
                            0%nat (Some 3) 1 world_edited) with
               | Ok m => (pre_excluded_data m, pre_included_data m,
                          post_excluded_data m)
               | Raise _ => ([], [], [])
               end = (bs "h", bs "ell", bs "o")) by (vm_compute; reflexivity).
  rewrite Hrun in H4. cbn [fst] in H4.
  exists mb. rewrite Hrun. split; [reflexivity|].
  split; [exact (f_equal (fun t => fst (fst t)) H4)|].
  split; [exact (f_equal (fun t => snd (fst t)) H4) | exact (f_equal snd H4)].
Defined.

(** ** Writing a payload: [_build_file_blocks] and [EVlobUpdate] *)

(** What the embedded code relies on from [ejson_dumps] and [ejson_loads]. *)
Record EjsonLaws (E : Externals) : Prop := {
  ejson_roundtrip : forall blob, ejson_loads (ejson_dumps blob) = Some blob
}.

(** The second synchronizer has the blocks of the first under the ids the
    first had assigned. *)
Definition extends (s s' : Synchronizer.t) : Prop :=
  Synchronizer.backend_blocks s' = Synchronizer.backend_blocks s
  /\ (Synchronizer.next_id s <= Synchronizer.next_id s')%nat
  /\ forall id, (id < Synchronizer.next_id s)%nat ->
       Synchronizer.local_blocks s' !! id = Synchronizer.local_blocks s !! id.

(** The two synchronizers have the same vlobs, staged and committed. *)
Definition same_vlobs (s s' : Synchronizer.t) : Prop :=
  Synchronizer.local_vlobs s' = Synchronizer.local_vlobs s
  /\ Synchronizer.backend_vlobs s' = Synchronizer.backend_vlobs s.

(** Every stored block has an id the synchronizer has already assigned. *)
Definition blocks_fresh (s : Synchronizer.t) : Prop :=
  forall id, Synchronizer.block_known id s = true ->
             (id < Synchronizer.next_id s)%nat.

(** The synchronizer accepts an update of the handle's vlob at
    [self.version + 1]. *)
Definition staged_ok (s : Synchronizer.t) (f : File) : Prop :=
  Synchronizer.seeds_of (file_id f) s = Some (read_trust_seed f, write_trust_seed f)
  /\ Synchronizer.committed_version (file_id f) s = file_version f.

(** The handle and the synchronizer agree on the vlob: a staged version
    is the one after [self.version] and the handle is dirty exactly when
    there is one; the committed vlob, if any, has the seeds of the handle. *)
Definition vlob_sync (s : Synchronizer.t) (f : File) : Prop :=
  match Synchronizer.local_vlobs s !! file_id f with
  | Some sv => dirty f = true /\ Synchronizer.sv_version sv = file_version f + 1
  | None => dirty f = false
  end
  /\ forall bv, Synchronizer.backend_vlobs s !! file_id f = Some bv ->
        Synchronizer.bv_read_trust_seed bv = read_trust_seed f
        /\ Synchronizer.bv_write_trust_seed bv = write_trust_seed f.

(** Every vlob, staged or committed, has an id the synchronizer has already
    assigned. *)
Definition vlobs_fresh (s : Synchronizer.t) : Prop :=
  forall id, is_Some (Synchronizer.local_vlobs s !! id)
             \/ is_Some (Synchronizer.backend_vlobs s !! id) ->
             (id < Synchronizer.next_id s)%nat.

#[global] Instance extends_refl : Reflexive extends.
Proof. intros s. repeat split; done. Qed.

#[global] Instance extends_trans : Transitive extends.
Proof.
  intros s1 s2 s3 (A2 & A4 & A5) (B2 & B4 & B5).
  repeat split; try congruence; try lia.
  intros id Hid. rewrite B5 by lia. by apply A5.
Qed.

#[global] Instance same_vlobs_refl : Reflexive same_vlobs.
Proof. intros s. by split. Qed.

#[global] Instance same_vlobs_trans : Transitive same_vlobs.
Proof. intros s1 s2 s3 [A1 A2] [B1 B2]. split; congruence. Qed.

Lemma staged_ok_same_vlobs (s s' : Synchronizer.t) (f : File) :
  same_vlobs s s' -> staged_ok s f -> staged_ok s' f.
Proof.
  intros [Hl Hb] [H1 H2].
  unfold staged_ok, Synchronizer.seeds_of, Synchronizer.committed_version in *.
  by rewrite Hl, Hb.
Qed.

Lemma vlob_sync_same_vlobs (s s' : Synchronizer.t) (f : File) :
  same_vlobs s s' -> vlob_sync s f -> vlob_sync s' f.
Proof. intros [Hl Hb]. unfold vlob_sync. by rewrite Hl, Hb. Qed.

Lemma vlobs_fresh_same_vlobs (s s' : Synchronizer.t) :
  same_vlobs s s' -> (Synchronizer.next_id s <= Synchronizer.next_id s')%nat ->
  vlobs_fresh s -> vlobs_fresh s'.
Proof.
  intros [Hl Hb] Hle Hf id Hid. rewrite Hl, Hb in Hid. specialize (Hf id Hid). lia.
Qed.

Lemma seeds_of_known (s : Synchronizer.t) (id : ident) (p : seed * seed) :
  Synchronizer.seeds_of id s = Some p ->
  is_Some (Synchronizer.local_vlobs s !! id)
  \/ is_Some (Synchronizer.backend_vlobs s !! id).
Proof.
  unfold Synchronizer.seeds_of. intros H.
  destruct (Synchronizer.local_vlobs s !! id); [by left|].
  destruct (Synchronizer.backend_vlobs s !! id); [by right | done].
Qed.

Lemma block_known_spec (id : ident) (s : Synchronizer.t) :
  Synchronizer.block_known id s = true
  <-> is_Some (Synchronizer.local_blocks s !! id)
      \/ is_Some (Synchronizer.backend_blocks s !! id).
Proof.
  unfold Synchronizer.block_known. rewrite orb_true_iff, !bool_decide_eq_true. done.
Qed.

Lemma block_read_known (id : ident) (s : Synchronizer.t) (content : string) :
  fst (Synchronizer.block_read id s) = Ok content ->
  Synchronizer.block_known id s = true.
Proof.
  unfold Synchronizer.block_read. intros H. apply block_known_spec.
  destruct (Synchronizer.local_blocks s !! id); [by left|].
  destruct (Synchronizer.backend_blocks s !! id); [by right | done].
Qed.

Lemma block_read_extends (s s' : Synchronizer.t) (id : ident) (content : string) :
  blocks_fresh s -> extends s s' ->
  fst (Synchronizer.block_read id s) = Ok content ->
  fst (Synchronizer.block_read id s') = Ok content.
Proof.
  intros Hfresh (Hb & _ & Hl) H.
  pose proof (Hfresh id (block_read_known id s content H)) as Hid.
  unfold Synchronizer.block_read in *. rewrite (Hl id Hid), Hb.
  by destruct (Synchronizer.local_blocks s !! id).
Qed.

Section WritePayload.
Context {E : Externals}.
Context (HG : GCMLaws E) (HB : Base64Laws E) (HJ : EjsonLaws E).
Import FileEngine.

Lemma block_holds_extends s s' raw bp chunk :
  blocks_fresh s -> extends s s' ->
  block_holds s raw bp chunk -> block_holds s' raw bp chunk.
Proof.
  intros Hf He (content & cipher & Hr & H). exists content, cipher.
  split; [by eapply block_read_extends | done].
Qed.

Lemma group_holds_extends s s' g chunks :
  blocks_fresh s -> extends s s' ->
  group_holds s g chunks -> group_holds s' g chunks.
Proof.
  intros Hf He (raw & Hk & Hok & H). exists raw. split; [done|]. split; [done|].
  eapply Forall2_impl; [exact H|]. intros ? ?. by apply block_holds_extends.
Qed.

Lemma payload_holds_extends s s' blob content :
  blocks_fresh s -> extends s s' ->
  payload_holds s blob content -> payload_holds s' blob content.
Proof.
  intros Hf He (chunkss & H & ->). exists chunkss. split; [|done].
  eapply Forall2_impl; [exact H|]. intros ? ?. by apply group_holds_extends.
Qed.

Lemma payload_holds_app s blob1 blob2 c1 c2 :
  payload_holds s blob1 c1 -> payload_holds s blob2 c2 ->
  payload_holds s (blob1 ++ blob2) (c1 ++ c2).
Proof.
  intros (css1 & H1 & ->) (css2 & H2 & ->). exists (css1 ++ css2).
  split; [by apply Forall2_app|]. by rewrite !concat_app.
Qed.

Lemma block_create_extends (content : string) (s : Synchronizer.t) :
  extends s (snd (Synchronizer.block_create content s)).
Proof.
  unfold Synchronizer.block_create. simpl. repeat split; simpl; try done; try lia.
  intros id Hid. rewrite lookup_insert_ne; [done | lia].
Qed.

Lemma block_create_fresh (content : string) (s : Synchronizer.t) :
  blocks_fresh s -> blocks_fresh (snd (Synchronizer.block_create content s)).
Proof.
  intros Hf id Hk. apply block_known_spec in Hk. simpl in *.
  destruct (decide (id = Synchronizer.next_id s)) as [->|Hne]; [lia|].
  rewrite lookup_insert_ne in Hk by done.
  apply block_known_spec in Hk. specialize (Hf id Hk). lia.
Qed.

(** The loop of [_build_file_blocks]: every chunk is stored under a new id
    and reads back under the key. *)
Lemma build_blocks_hold (k : AESKey) (chunks : list bytes) :
  forall (acc : list BlockMeta) (w : World),
    blocks_fresh (sync w) ->
    exists bps w',
      for_each (build_block k) chunks acc w = (Ok (acc ++ bps), w')
      /\ heap w' = heap w /\ files w' = files w
      /\ extends (sync w) (sync w')
      /\ same_vlobs (sync w) (sync w')
      /\ blocks_fresh (sync w')
      /\ Forall2 (block_holds (sync w') (Crypto.key_of k)) bps chunks.
Proof.
  induction chunks as [|chunk chunks IH]; intros acc w Hf.
  - exists [], w. simpl. unfold ret. rewrite app_nil_r.
    repeat split; try done.
  - cbn [for_each]. unfold bind at 1. rewrite build_block_eq.
    set (content := to_jsonb64 (fst (Crypto.encrypt k chunk (rnd w)))).
    set (s1 := snd (Synchronizer.block_create content (sync w))).
    set (w1 := mkWorld _ _ _ _ _).
    set (bp := mkBlockMeta (Synchronizer.next_id (sync w)) (digest chunk) (len chunk)).
    assert (Hf1 : blocks_fresh (sync w1)) by by apply block_create_fresh.
    destruct (IH (acc ++ [bp]) w1 Hf1)
      as (bps & w' & Hrun & Hh & Hfs & He & Hv & Hf' & Hall).
    exists (bp :: bps), w'. rewrite Hrun, <- app_assoc.
    split; [done|]. split; [done|]. split; [done|].
    split; [etrans; [apply (block_create_extends content)|exact He]|].
    split; [exact Hv|].
    split; [done|]. constructor; [|done].
    apply (block_holds_extends (sync w1)); [done..|].
    exists content, (fst (Crypto.encrypt k chunk (rnd w))).
    split; [|split; [|split]].
    + unfold Synchronizer.block_read. simpl. by rewrite lookup_insert_eq.
    + apply (jsonb64_roundtrip E HB).
    + replace (mkAESKey (Crypto.key_of k)) with k by by destruct k.
      by apply decrypt_encrypt.
    + done.
Qed.

(** [_build_file_blocks(data)] returns a group that holds [data], stores
    nothing but new blocks and marks the handle dirty. *)
Lemma build_file_blocks_holds (self : addr) (data : bytes) (w : World) :
  blocks_fresh (sync w) ->
  exists group w',
    _build_file_blocks self data w = (Ok group, w')
    /\ heap w' = alter (set_dirty true) self (heap w)
    /\ files w' = files w
    /\ extends (sync w) (sync w')
    /\ same_vlobs (sync w) (sync w')
    /\ blocks_fresh (sync w')
    /\ payload_holds (sync w') [group] data.
Proof.
  intros Hf. unfold _build_file_blocks.
  unfold bind at 1. unfold with_entropy at 1.
  pose proof (generate_sym_key_length (rnd w)) as Hlen.
  destruct (Crypto.generate_sym_key (rnd w)) as [k r'] eqn:Hk.
  cbn [fst] in Hlen.
  set (w0 := mkWorld (heap w) (files w) (sync w) r' (trace w)).
  destruct (build_blocks_hold k (make_chunks data) [] w0 Hf)
    as (bps & w1 & Hrun & Hh & Hfs & He & Hv & Hf1 & Hall).
  unfold bind at 1. rewrite Hrun. cbn [app].
  eexists _, _. split; [reflexivity|]. simpl.
  split; [by rewrite Hh|]. split; [done|]. split; [done|]. split; [done|].
  split; [done|].
  exists [make_chunks data]. split.
  - constructor; [|constructor]. exists (Crypto.key_of k). simpl.
    split; [apply (jsonb64_roundtrip E HB)|].
    split; [unfold key_ok; lia | done].
  - simpl. by rewrite app_nil_r, make_chunks_concat.
Qed.

(** The payload the handle reads at its current version. *)
Definition current_blob (s : Synchronizer.t) (f : File)
  : result (vlob_atom * list BlockGroup) :=
  match fst (Synchronizer.vlob_read (file_id f) (read_trust_seed f)
               (Some (get_version f)) s) with
  | Ok vlob =>
      match from_jsonb64 (vlob_blob vlob) with
      | Some cipher =>
          match Crypto.decrypt (encryptor f) cipher with
          | Ok blob =>
              match ejson_loads blob with
              | Some blob => Ok (vlob, blob)
              | None => Raise ValueError
              end
          | Raise e => Raise e
          end
      | None => Raise ValueError
      end
  | Raise e => Raise e
  end.

Definition after_vlob_read (f : File) (w : World) : World :=
  mkWorld (heap w) (files w) (sync w) (rnd w)
    (trace w ++ [EVlobRead (file_id f) (read_trust_seed f) (Some (get_version f))]).

Lemma read_payload_eq (self : addr) (w : World) (f : File) :
  heap w !! self = Some f ->
  read_payload self w = (current_blob (sync w) f, after_vlob_read f w).
Proof.
  intros Hf. unfold read_payload, current_blob, after_vlob_read.
  unfold bind at 1. unfold get_self at 1. rewrite Hf. cbn [of_option].
  unfold bind at 1. unfold perform at 1.
  pose proof (vlob_read_pure (file_id f) (read_trust_seed f) (Some (get_version f))
                (sync w)) as Hp.
  destruct (Synchronizer.vlob_read (file_id f) (read_trust_seed f)
              (Some (get_version f)) (sync w)) as [[vlob|e] s']; simpl in Hp; subst s';
    [|done].
  cbn [fst]. unfold bind at 1, lift_result at 1.
  destruct (from_jsonb64 (vlob_blob vlob)) as [cipher|]; [|done]. cbn [of_option].
  unfold bind at 1, lift_result at 1.
  destruct (Crypto.decrypt (encryptor f) cipher) as [blob|]; [|done].
  unfold bind at 1, lift_result at 1.
  destruct (ejson_loads blob); done.
Qed.

End WritePayload.

Section FlushRegion.
Context {E : Externals}.
Context (HG : GCMLaws E) (HB : Base64Laws E) (HJ : EjsonLaws E).
Import FileEngine.

(** The handle at [self] is [f], the synchronizer accepts its next update
    and its current payload holds [content]. *)
Definition ready (w : World) (self : addr) (f : File) (content : bytes) : Prop :=
  heap w !! self = Some f
  /\ staged_ok (sync w) f
  /\ blocks_fresh (sync w)
  /\ vlob_sync (sync w) f
  /\ vlobs_fresh (sync w)
  /\ exists vlob blob,
       current_blob (sync w) f = Ok (vlob, blob)
       /\ payload_holds (sync w) blob content.

(** Encrypting and staging a payload: the handle then reads it back. *)
Lemma update_vlob_spec (self : addr) (blob : list BlockGroup) (content : bytes)
    (w : World) (f : File) :
  heap w !! self = Some f ->
  staged_ok (sync w) f ->
  blocks_fresh (sync w) ->
  (forall bv, Synchronizer.backend_vlobs (sync w) !! file_id f = Some bv ->
     Synchronizer.bv_read_trust_seed bv = read_trust_seed f
     /\ Synchronizer.bv_write_trust_seed bv = write_trust_seed f) ->
  vlobs_fresh (sync w) ->
  payload_holds (sync w) blob content ->
  exists w',
    update_vlob self blob w = (Ok tt, w')
    /\ heap w' = <[self := set_dirty true f]> (heap w)
    /\ files w' = files w
    /\ ready w' self (set_dirty true f) content.
Proof.
  intros Hf [Hseeds Hver] Hfresh Hbv Hvf Hholds.
  unfold update_vlob. unfold bind at 1. unfold get_self at 1. rewrite Hf.
  cbn [of_option]. unfold bind at 1. unfold with_entropy at 1.
  destruct (Crypto.encrypt (encryptor f) (ejson_dumps blob) (rnd w)) as [c r'] eqn:Hc.
  assert (Hdec : Crypto.decrypt (encryptor f) c = Ok (ejson_dumps blob)).
  { replace c with (fst (Crypto.encrypt (encryptor f) (ejson_dumps blob) (rnd w)))
      by by rewrite Hc.
    by apply decrypt_encrypt. }
  unfold bind at 1. unfold perform at 1. cbn [sync].
  unfold Synchronizer.vlob_update. rewrite Hseeds.
  rewrite bool_decide_eq_true_2 by done. cbn [negb].
  rewrite Hver, Z.eqb_refl. cbn [negb].
  unfold set_self. eexists. split; [reflexivity|]. cbn [heap files].
  assert (Hh : alter (set_dirty true) self (heap w) = <[self := set_dirty true f]> (heap w)).
  { apply list_eq. intros i. destruct (decide (i = self)) as [->|Hne].
    - rewrite list_lookup_alter_eq, Hf. simpl.
      symmetry. apply list_lookup_insert_eq. by eapply lookup_lt_Some.
    - by rewrite list_lookup_alter_ne, list_lookup_insert_ne. }
  split; [exact Hh|]. split; [done|].
  unfold ready. cbn [heap sync]. split.
  { rewrite Hh. apply list_lookup_insert_eq. by eapply lookup_lt_Some. }
  split.
  { unfold staged_ok, Synchronizer.seeds_of, Synchronizer.committed_version.
    cbn. rewrite lookup_insert_eq. split; [done | exact Hver]. }
  split; [exact Hfresh|].
  split.
  { unfold vlob_sync. cbn. rewrite lookup_insert_eq. split; [done | exact Hbv]. }
  split.
  { intros id Hid. cbn in *. destruct (decide (id = file_id f)) as [->|Hne].
    - apply Hvf. by eapply seeds_of_known.
    - rewrite lookup_insert_ne in Hid by done. by apply Hvf. }
  eexists _, blob. split.
  - unfold current_blob, Synchronizer.vlob_read. cbn.
    rewrite lookup_insert_eq. cbn.
    rewrite bool_decide_eq_true_2 by done. cbn.
    rewrite Z.leb_refl. cbn.
    rewrite (jsonb64_roundtrip E HB), Hdec, (ejson_roundtrip E HJ). reflexivity.
  - destruct Hholds as (css & Hall & ->). exists css. split; [|done].
    eapply Forall2_impl; [exact Hall|]. intros g chunks (raw & Hk & Hok & Hbs).
    exists raw. split; [done|]. split; [done|]. eapply Forall2_impl; [exact Hbs|].
    intros bp chunk (content' & cipher & Hr & Hrest). exists content', cipher.
    split; [|done]. unfold Synchronizer.block_read in *. cbn.
    by destruct (Synchronizer.local_blocks (sync w) !! block bp).
Qed.

Lemma insert_alter_self (l : list File) (self : addr) (g : File -> File) (f' : File) :
  <[self := f']> (alter g self l) = <[self := f']> l.
Proof.
  apply list_eq. intros i. destruct (decide (i = self)) as [->|Hne].
  - destruct (decide (self < length l)%nat) as [Hlt|Hge].
    + rewrite !list_lookup_insert_eq; [done | done | by rewrite length_alter].
    + rewrite !lookup_ge_None_2; [done | |].
      * rewrite length_insert. lia.
      * rewrite length_insert, length_alter. lia.
  - by rewrite !list_lookup_insert_ne, list_lookup_alter_ne.
Qed.

(** One region of the builder: the bytes from [offset] on are replaced by
    [content] in the payload, as a write to a buffer would. *)
Lemma flush_region_spec (self : addr) (offset : Z) (content : bytes)
    (w : World) (f : File) (C : bytes) :
  ready w self f C ->
  0 <= offset ->
  exists w',
    flush_region self tt (offset, content) w = (Ok tt, w')
    /\ heap w' = <[self := set_dirty true f]> (heap w)
    /\ files w' = files w
    /\ ready w' self (set_dirty true f) (Reference.apply C (MWrite content offset)).
Proof.
  intros (Hf & Hst & Hfresh & Hvs & Hvf & vlob & blob & Hcb & Hholds) Ha.
  pose proof (read_payload_eq self w f Hf) as Hread. rewrite Hcb in Hread.
  pose proof (len_nonneg content) as Hsz.
  destruct (find_matching_blocks_plan self (Some (len content)) offset w _ vlob blob C
              Ha Hsz Hread Hholds)
    as (mb & w2 & Hfind & (Hh2 & Hfs2 & Hs2 & _) & _ & Bpre & Binc & Bpost
        & Hpre & _ & Hpost & E1 & _ & E3 & _).
  cbn [snd after_vlob_read heap files sync default id] in *.
  set (new_data := pre_excluded_data mb ++ content ++ post_excluded_data mb).
  destruct (build_file_blocks_holds HG HB self new_data w2 ltac:(by rewrite Hs2))
    as (group & w3 & Hbuild & Hh3 & Hfs3 & He3 & Hv3 & Hfresh3 & Hgroup).
  rewrite Hs2 in He3, Hv3. rewrite Hh2 in Hh3. rewrite Hfs2 in Hfs3.
  assert (Hf3 : heap w3 !! self = Some (set_dirty true f)).
  { by rewrite Hh3, list_lookup_alter_eq, Hf. }
  assert (Hst3 : staged_ok (sync w3) (set_dirty true f)).
  { by apply (staged_ok_same_vlobs (sync w)). }
  assert (Hholds3 : payload_holds (sync w3)
                      (pre_excluded_blocks mb ++ [group] ++ post_excluded_blocks mb)
                      (Bpre ++ new_data ++ Bpost)).
  { apply payload_holds_app; [by apply (payload_holds_extends (sync w))|].
    apply payload_holds_app; [done|]. by apply (payload_holds_extends (sync w)). }
  assert (Hbv3 : forall bv,
            Synchronizer.backend_vlobs (sync w3) !! file_id (set_dirty true f) = Some bv ->
            Synchronizer.bv_read_trust_seed bv = read_trust_seed (set_dirty true f)
            /\ Synchronizer.bv_write_trust_seed bv = write_trust_seed (set_dirty true f)).
  { destruct Hv3 as [_ Hb3]. rewrite Hb3. exact (proj2 Hvs). }
  assert (Hvf3 : vlobs_fresh (sync w3)).
  { apply (vlobs_fresh_same_vlobs (sync w)); [done | by destruct He3 as (_ & ? & _) | done]. }
  destruct (update_vlob_spec self _ _ w3 _ Hf3 Hst3 Hfresh3 Hbv3 Hvf3 Hholds3)
    as (w4 & Hupd & Hh4 & Hfs4 & Hready).
  exists w4. split; [|split; [|split]].
  - unfold flush_region. unfold bind at 1. rewrite Hfind.
    unfold bind at 1. fold new_data. rewrite Hbuild. exact Hupd.
  - rewrite Hh4, Hh3. apply insert_alter_self.
  - congruence.
  - replace (Reference.apply C (MWrite content offset))
      with (Bpre ++ new_data ++ Bpost); [exact Hready|].
    unfold Reference.apply, new_data.
    rewrite slice_to_nonneg, slice_from_nonneg by lia.
    rewrite <- !app_assoc, (app_assoc Bpre), E1. f_equal. f_equal.
    rewrite E3. f_equal. lia.
Qed.

End FlushRegion.

(** ** The merge of the modification queue *)

(** Offsets and lengths are not negative. *)
Definition nonneg_mod (m : modification) : Prop :=
  match m with
  | MWrite _ offset => 0 <= offset
  | MTruncate length => 0 <= length
  end.

Definition nonneg_keys (contents : ContentBuilder.t) : Prop :=
  Forall (fun e => 0 <= fst e) contents.

Lemma Forall_List_filter {A} (P : A -> Prop) (f : A -> bool) (l : list A) :
  Forall P l -> Forall P (List.filter f l).
Proof.
  induction 1 as [|x l Hx _ IH]; simpl; [constructor|].
  destruct (f x); [by constructor | done].
Qed.

Lemma write_loop_offset (data : bytes) (offset : Z) (contents : ContentBuilder.t) :
  nonneg_keys contents -> 0 <= offset ->
  0 <= ContentBuilder.ws_offset (ContentBuilder.write_loop data offset contents).
Proof.
  intros Hk Ho. unfold ContentBuilder.write_loop.
  generalize (offset + len data). intros end_offset.
  assert (H : 0 <= ContentBuilder.ws_offset (ContentBuilder.WriteState offset data []))
    by done.
  revert H. generalize (ContentBuilder.WriteState offset data []).
  induction Hk as [|e contents He _ IH]; intros st Hst; [done|].
  simpl. apply IH. unfold ContentBuilder.write_step.
  repeat case_match; simpl; done.
Qed.

Lemma PyDict_set_nonneg (k : Z) (v : bytes) (d : ContentBuilder.t) :
  0 <= k -> nonneg_keys d -> nonneg_keys (PyDict.set k v d).
Proof.
  intros Hk Hd. induction Hd as [|[k' v'] d He Hd IH]; simpl.
  - by repeat constructor.
  - case_match; constructor; done.
Qed.

Lemma PyDict_set_not_nil (k : Z) (v : bytes) (d : ContentBuilder.t) :
  PyDict.set k v d <> [].
Proof. destruct d as [|[k' v'] d]; simpl; [done|]. by case_match. Qed.

Lemma write_nonneg (data : bytes) (offset : Z) (contents : ContentBuilder.t) :
  nonneg_keys contents -> 0 <= offset ->
  nonneg_keys (ContentBuilder.write data offset contents).
Proof.
  intros Hk Ho. unfold ContentBuilder.write.
  apply PyDict_set_nonneg; [by apply write_loop_offset|].
  rewrite fold_del_filter. by apply Forall_List_filter.
Qed.

Lemma truncate_nonneg (length : Z) (contents : ContentBuilder.t) :
  nonneg_keys contents -> nonneg_keys (ContentBuilder.truncate length contents).
Proof.
  intros Hk. rewrite truncate_spec. unfold nonneg_keys.
  rewrite Forall_map. apply Forall_List_filter.
  eapply Forall_impl; [exact Hk|]. done.
Qed.

Definition merged_ok (st : ContentBuilder.t * option Z) : Prop :=
  nonneg_keys (fst st) /\ forall l, snd st = Some l -> 0 <= l.

Lemma merge_modification_ok (st : ContentBuilder.t * option Z) (m : modification) :
  merged_ok st -> nonneg_mod m -> merged_ok (merge_modification st m).
Proof.
  destruct st as [builder st]. intros [Hk Hs] Hm. simpl in *.
  destruct m as [data offset | lth]; simpl.
  - split; [by apply write_nonneg | done].
  - split; [by apply truncate_nonneg|]. simpl in Hm.
    destruct st as [s|]; [|by intros ? [= <-]].
    specialize (Hs s eq_refl). case_match; intros ? [= <-]; done.
Qed.

Lemma merge_queue_ok (q : list modification) (st : ContentBuilder.t * option Z) :
  merged_ok st -> Forall nonneg_mod q ->
  merged_ok (fold_left merge_modification q st).
Proof.
  intros Hst Hq. revert st Hst. induction Hq as [|m q Hm _ IH]; intros st Hst; [done|].
  simpl. apply IH. by apply merge_modification_ok.
Qed.

(** A queue that is not empty leaves a region to write or a length to
    truncate to. *)
Lemma merge_queue_not_empty (q : list modification) (st : ContentBuilder.t * option Z) :
  q <> [] ->
  fst (fold_left merge_modification q st) <> []
  \/ snd (fold_left merge_modification q st) <> None.
Proof.
  intros Hq. destruct q as [|m q _] using rev_ind; [done|].
  rewrite fold_left_app. simpl.
  destruct (fold_left merge_modification q st) as [builder tr].
  destruct m as [data offset | lth]; simpl.
  - left. apply PyDict_set_not_nil.
  - right. destruct tr; [case_match|]; done.
Qed.

(** What [flush] makes of the content [C] with the queue [q]: [C] cut at
    the value its variable [shortest_truncate] ends with, then the regions
    of the builder written in the order of its map. [shortest_truncate] is
    replaced by a queued length when it is unset, when it is 0 ([not 0]
    holds) or when it is larger than that length, so it is the shortest
    queued length unless a truncation to 0 is followed by another one. *)
Definition flushed_content (q : list modification) (C : bytes) : bytes :=
  let st := fold_left merge_modification q (ContentBuilder.init, None) in
  replay (fst st)
         (match snd st with
          | Some length => Reference.apply C (MTruncate length)
          | None => C
          end).

(** ** File.flush *)

Section PayloadFacts.
Context {E : Externals}.

Lemma block_holds_size s raw bp chunk :
  block_holds s raw bp chunk -> bm_size bp = len chunk.
Proof. by intros (? & ? & ? & ? & ? & ? & ->). Qed.

Lemma add_sizes_holds s raw bps chunks (acc : Z) :
  Forall2 (block_holds s raw) bps chunks ->
  add_sizes bps acc = acc + len (concat chunks).
Proof.
  intros H. revert acc. induction H as [|bp chunk bps chunks Hbp _ IH]; intros acc.
  - unfold add_sizes, len. simpl. lia.
  - change (add_sizes (bp :: bps) acc) with (add_sizes bps (acc + bm_size bp)).
    rewrite IH, (block_holds_size _ _ _ _ Hbp). simpl. rewrite len_app. lia.
Qed.

Lemma payload_holds_size s blob content :
  payload_holds s blob content -> payload_size blob = len content.
Proof.
  intros (chunkss & H & ->). unfold payload_size.
  change (fold_left _ blob 0)
    with (fold_left (fun size g => add_sizes (blocks g) size) blob 0).
  assert (Hgen : forall acc,
            fold_left (fun size g => add_sizes (blocks g) size) blob acc
            = acc + len (concat (concat chunkss))); [|by rewrite Hgen].
  induction H as [|g chunks blob chunkss (raw & _ & _ & Hg) _ IH]; intros acc.
  - unfold len. simpl. lia.
  - simpl. rewrite IH, (add_sizes_holds _ _ _ _ _ Hg), concat_app, len_app. lia.
Qed.

Lemma payload_holds_group_ok s blob content :
  payload_holds s blob content -> Forall group_ok blob.
Proof.
  intros (chunkss & H & _). induction H as [|g chunks blob chunkss (raw & Hk & Hok & Hg) _ IH];
    constructor; [|done].
  split.
  { exists (mkAESKey raw). unfold group_key.
    by rewrite Hk, (load_sym_key_key_ok raw Hok). }
  unfold sizes_ok.
  clear Hk. induction Hg as [|bp chunk bps chunks' Hbp _ IH']; constructor; [|done].
  rewrite (block_holds_size _ _ _ _ Hbp). apply len_nonneg.
Qed.

Lemma Forall2_impl_elem {A B} (P Q : A -> B -> Prop) (l : list A) (k : list B) :
  Forall2 P l k ->
  (forall x y, x ∈ l -> P x y -> Q x y) ->
  Forall2 Q l k.
Proof.
  induction 1 as [|x y l k Hxy _ IH]; intros Himp; constructor.
  - apply Himp; [apply list_elem_of_here | done].
  - apply IH. intros x' y' Hin. apply Himp. by apply list_elem_of_further.
Qed.

Lemma elem_of_concat {A} (x : A) (l : list A) (ls : list (list A)) :
  x ∈ l -> l ∈ ls -> x ∈ concat ls.
Proof.
  intros Hx Hl. induction Hl as [l ls | l l' ls _ IH]; simpl; apply elem_of_app.
  - by left.
  - right. auto.
Qed.

(** A payload still holds its content when its blocks read the same. *)
Lemma payload_holds_keeps s s' blob content :
  (forall id, id ∈ all_ids blob ->
     fst (Synchronizer.block_read id s') = fst (Synchronizer.block_read id s)) ->
  payload_holds s blob content -> payload_holds s' blob content.
Proof.
  intros Hkeep (chunkss & H & ->). exists chunkss. split; [|done].
  eapply Forall2_impl_elem; [exact H|].
  intros g chunks Hg (raw & Hk & Hok & Hbs). exists raw. split; [done|]. split; [done|].
  eapply Forall2_impl_elem; [exact Hbs|].
  intros bp chunk Hbp (c & ci & Hr & Hrest). exists c, ci. split; [|done].
  rewrite Hkeep; [done|]. unfold all_ids.
  apply (elem_of_concat _ (map block (blocks g))); [by apply list_elem_of_fmap_2|].
  by apply (list_elem_of_fmap_2 (fun g => map block (blocks g))).
Qed.

End PayloadFacts.

Section FlushSpec.
Context {E : Externals}.
Context (HG : GCMLaws E) (HB : Base64Laws E) (HJ : EjsonLaws E).
Import FileEngine.

Lemma ready_transfer (w w' : World) (self : addr) (f : File) (content : bytes) :
  heap w' !! self = heap w !! self -> sync w' = sync w ->
  ready w self f content -> ready w' self f content.
Proof.
  intros Hh Hs (Hf & Hst & Hfresh & Hvs & Hvf & Hblob). unfold ready.
  rewrite Hh, Hs. done.
Qed.

Lemma ready_only_reads (w w' : World) (self : addr) (f : File) (content : bytes) :
  only_reads w w' -> ready w self f content -> ready w' self f content.
Proof.
  intros (Hh & _ & Hs & _). apply ready_transfer; [by rewrite Hh | done].
Qed.

(** [get_blocks] on a ready handle returns, and only reads. *)
Lemma get_blocks_ready (self : addr) (w : World) (f : File) (content : bytes) :
  ready w self f content ->
  exists ids w',
    get_blocks self w = (Ok ids, w') /\ only_reads w w'.
Proof.
  intros (Hf & _ & _ & _ & _ & vlob & blob & Hcb & Hholds).
  pose proof (read_payload_eq self w f Hf) as Hread. rewrite Hcb in Hread.
  destruct (find_matching_blocks_plan self None 0 w _ vlob blob content
              ltac:(done) ltac:(done) Hread Hholds)
    as (mb & w2 & Hfind & _).
  pose proof (get_blocks_only_reads self w) as [Hro _].
  unfold get_blocks in *. unfold bind in *. rewrite Hfind in *.
  eexists _, _. split; [reflexivity | exact Hro].
Qed.

(** ... and all the ids of the payload when the content is not longer than
    [sys.maxsize]. *)
Lemma get_blocks_ready_all (self : addr) (w : World) (f : File) (content : bytes)
    (vlob : vlob_atom) (blob : list BlockGroup) :
  heap w !! self = Some f ->
  current_blob (sync w) f = Ok (vlob, blob) ->
  payload_holds (sync w) blob content ->
  len content <= sys_maxsize ->
  exists w',
    get_blocks self w = (Ok (all_ids blob), w') /\ only_reads w w'.
Proof.
  intros Hf Hcb Hholds Hlen.
  pose proof (read_payload_eq self w f Hf) as Hread. rewrite Hcb in Hread.
  pose proof (get_blocks_only_reads self w) as [Hro _].
  rewrite (get_blocks_all self w _ vlob blob Hread) in *.
  - eexists. split; [reflexivity | exact Hro].
  - by eapply payload_holds_group_ok.
  - by rewrite (payload_holds_size _ _ _ Hholds).
  - by eapply payload_holds_group_ok.
  - by rewrite (payload_holds_size _ _ _ Hholds).
Qed.

(** The truncation step of [flush]: the payload is cut at [length]. *)
Lemma flush_truncate_spec (self : addr) (length : Z) (w : World) (f : File)
    (C : bytes) :
  ready w self f C ->
  0 <= length ->
  exists w',
    (let* mb := _find_matching_blocks self (Some length) 0 in
     let* new_blocks := _build_file_blocks self (post_included_data mb) in
     update_vlob self (included_blocks mb ++ [new_blocks])) w = (Ok tt, w')
    /\ heap w' = <[self := set_dirty true f]> (heap w)
    /\ files w' = files w
    /\ ready w' self (set_dirty true f) (Reference.apply C (MTruncate length)).
Proof.
  intros (Hf & Hst & Hfresh & Hvs & Hvf & vlob & blob & Hcb & Hholds) Hl.
  pose proof (read_payload_eq self w f Hf) as Hread. rewrite Hcb in Hread.
  destruct (find_matching_blocks_plan self (Some length) 0 w _ vlob blob C
              ltac:(done) Hl Hread Hholds)
    as (mb & w2 & Hfind & (Hh2 & Hfs2 & Hs2 & _) & _ & Bpre & Binc & Bpost
        & _ & Hinc & _ & _ & E2 & _ & _ & _ & I6).
  cbn [snd after_vlob_read heap files sync default id] in *.
  destruct (build_file_blocks_holds HG HB self (post_included_data mb) w2
              ltac:(by rewrite Hs2))
    as (group & w3 & Hbuild & Hh3 & Hfs3 & He3 & Hv3 & Hfresh3 & Hgroup).
  rewrite Hs2 in He3, Hv3. rewrite Hh2 in Hh3. rewrite Hfs2 in Hfs3.
  assert (Hf3 : heap w3 !! self = Some (set_dirty true f)).
  { by rewrite Hh3, list_lookup_alter_eq, Hf. }
  assert (Hst3 : staged_ok (sync w3) (set_dirty true f)).
  { by apply (staged_ok_same_vlobs (sync w)). }
  assert (Hholds3 : payload_holds (sync w3) (included_blocks mb ++ [group])
                      (Binc ++ post_included_data mb)).
  { apply payload_holds_app; [by apply (payload_holds_extends (sync w)) | done]. }
  assert (Hbv3 : forall bv,
            Synchronizer.backend_vlobs (sync w3) !! file_id (set_dirty true f) = Some bv ->
            Synchronizer.bv_read_trust_seed bv = read_trust_seed (set_dirty true f)
            /\ Synchronizer.bv_write_trust_seed bv = write_trust_seed (set_dirty true f)).
  { destruct Hv3 as [_ Hb3]. rewrite Hb3. exact (proj2 Hvs). }
  assert (Hvf3 : vlobs_fresh (sync w3)).
  { apply (vlobs_fresh_same_vlobs (sync w)); [done | by destruct He3 as (_ & ? & _) | done]. }
  destruct (update_vlob_spec HG HB HJ self _ _ w3 _ Hf3 Hst3 Hfresh3 Hbv3 Hvf3 Hholds3)
    as (w4 & Hupd & Hh4 & Hfs4 & Hready).
  exists w4. split; [|split; [|split]].
  - unfold bind at 1. rewrite Hfind. unfold bind at 1. rewrite Hbuild. exact Hupd.
  - rewrite Hh4, Hh3. apply insert_alter_self.
  - congruence.
  - replace (Reference.apply C (MTruncate length))
      with (Binc ++ post_included_data mb); [exact Hready|].
    unfold Reference.apply. rewrite slice_to_nonneg by lia.
    rewrite (I6 ltac:(done)) in E2. change (Z.to_nat 0) with 0%nat in E2.
    rewrite drop_0 in E2. by rewrite <- E2.
Qed.

(** The loop of [flush] over the regions of the builder. *)
Lemma flush_regions_spec (self : addr) (builder : ContentBuilder.t) :
  nonneg_keys builder ->
  forall (w : World) (f : File) (C : bytes),
    ready w self f C ->
    exists w',
      for_each (flush_region self) builder tt w = (Ok tt, w')
      /\ heap w' = <[self := match builder with [] => f | _ => set_dirty true f end]>
                     (heap w)
      /\ files w' = files w
      /\ ready w' self (match builder with [] => f | _ => set_dirty true f end)
               (replay builder C).
Proof.
  induction 1 as [|[offset content] builder Ho Hk IH]; intros w f C Hready.
  - exists w. split; [done|]. split; [|done].
    symmetry. apply list_insert_id. by destruct Hready.
  - destruct (flush_region_spec HG HB HJ self offset content w f C Hready Ho)
      as (w1 & Hrun & Hh1 & Hfs1 & Hready1).
    destruct (IH w1 _ _ Hready1) as (w2 & Hrun2 & Hh2 & Hfs2 & Hready2).
    assert (Hsame : match builder with
                    | [] => set_dirty true f
                    | _ => set_dirty true (set_dirty true f)
                    end = set_dirty true f) by by destruct builder.
    rewrite Hsame in *.
    exists w2. split; [|split; [|split]].
    + cbn [for_each]. unfold bind at 1. by rewrite Hrun.
    + rewrite Hh2, Hh1. apply list_insert_insert_eq.
    + congruence.
    + exact Hready2.
Qed.

(** What the garbage collection of [flush] may change in the synchronizer:
    the blocks in [current] read as before, no block appears, and the vlobs
    and the next id are the same. *)
Definition gc_rel (current : list ident) (s s' : Synchronizer.t) : Prop :=
  same_vlobs s s'
  /\ Synchronizer.next_id s' = Synchronizer.next_id s
  /\ (forall id, id ∈ current ->
        fst (Synchronizer.block_read id s') = fst (Synchronizer.block_read id s))
  /\ (forall id, Synchronizer.block_known id s' = true ->
        Synchronizer.block_known id s = true).

Lemma gc_rel_refl (current : list ident) (s : Synchronizer.t) : gc_rel current s s.
Proof. repeat split; done. Qed.

Lemma gc_rel_trans (current : list ident) (s1 s2 s3 : Synchronizer.t) :
  gc_rel current s1 s2 -> gc_rel current s2 s3 -> gc_rel current s1 s3.
Proof.
  intros (A1 & A2 & A3 & A4) (B1 & B2 & B3 & B4).
  split; [by etrans|]. split; [congruence|]. split.
  - intros id Hid. rewrite B3, A3; done.
  - intros id Hid. auto.
Qed.

Lemma clean_block_spec (current : list ident) (id : ident) (w : World) :
  exists w',
    clean_block current tt id w = (Ok tt, w')
    /\ heap w' = heap w /\ files w' = files w
    /\ gc_rel current (sync w) (sync w').
Proof.
  unfold clean_block. case_bool_decide as Hin.
  { exists w. split; [done|]. split; [done|]. split; [done|]. apply gc_rel_refl. }
  unfold try_except, perform, Synchronizer.block_delete.
  destruct (Synchronizer.local_blocks (sync w) !! id) as [c|] eqn:Hl.
  - eexists. split; [reflexivity|]. split; [done|]. split; [done|]. cbn [sync].
    split; [done|]. split; [done|]. split.
    + intros id' Hid'. unfold Synchronizer.block_read. cbn.
      rewrite lookup_delete_ne by (intros ->; done).
      by destruct (Synchronizer.local_blocks (sync w) !! id').
    + intros id' Hk. apply block_known_spec in Hk. apply block_known_spec.
      cbn in Hk. destruct Hk as [Hk|Hk]; [left | by right].
      destruct (decide (id' = id)) as [->|Hne].
      * by rewrite lookup_delete_eq in Hk; destruct Hk.
      * by rewrite lookup_delete_ne in Hk.
  - rewrite bool_decide_eq_true_2 by done. unfold ret.
    eexists. split; [reflexivity|]. split; [done|]. split; [done|].
    apply gc_rel_refl.
Qed.

Lemma clean_blocks_spec (current prev : list ident) (w : World) :
  exists w',
    for_each (clean_block current) prev tt w = (Ok tt, w')
    /\ heap w' = heap w /\ files w' = files w
    /\ gc_rel current (sync w) (sync w').
Proof.
  revert w. induction prev as [|id prev IH]; intros w.
  - exists w. split; [done|]. split; [done|]. split; [done|]. apply gc_rel_refl.
  - destruct (clean_block_spec current id w) as (w1 & Hrun & Hh & Hfs & Hgc).
    destruct (IH w1) as (w2 & Hrun2 & Hh2 & Hfs2 & Hgc2).
    exists w2. split; [|split; [congruence | split; [congruence|]]].
    + cbn [for_each]. unfold bind at 1. by rewrite Hrun.
    + by eapply gc_rel_trans.
Qed.

Lemma current_blob_same_vlobs (s s' : Synchronizer.t) (f : File) :
  same_vlobs s s' -> current_blob s' f = current_blob s f.
Proof.
  intros [Hl Hb]. unfold current_blob.
  replace (fst (Synchronizer.vlob_read (file_id f) (read_trust_seed f)
                  (Some (get_version f)) s'))
    with (fst (Synchronizer.vlob_read (file_id f) (read_trust_seed f)
                 (Some (get_version f)) s)); [done|].
  unfold Synchronizer.vlob_read. rewrite Hl.
  replace (Synchronizer.backend_read (file_id f) (read_trust_seed f)
             (Some (get_version f)) s')
    with (Synchronizer.backend_read (file_id f) (read_trust_seed f)
            (Some (get_version f)) s)
    by (unfold Synchronizer.backend_read; by rewrite Hb).
  destruct (Synchronizer.local_vlobs s !! file_id f) as [sv|]; [|done].
  repeat case_match; done.
Qed.

Lemma ready_gc (w w' : World) (self : addr) (f : File) (content : bytes)
    (vlob : vlob_atom) (blob : list BlockGroup) :
  heap w' = heap w ->
  gc_rel (all_ids blob) (sync w) (sync w') ->
  heap w !! self = Some f ->
  staged_ok (sync w) f ->
  blocks_fresh (sync w) ->
  vlob_sync (sync w) f ->
  vlobs_fresh (sync w) ->
  current_blob (sync w) f = Ok (vlob, blob) ->
  payload_holds (sync w) blob content ->
  ready w' self f content.
Proof.
  intros Hh (Hv & Hn & Hkeep & Hknown) Hf Hst Hfresh Hvs Hvf Hcb Hholds.
  split; [by rewrite Hh|]. split; [by apply (staged_ok_same_vlobs (sync w))|].
  split.
  { intros id Hk. rewrite Hn. by apply Hfresh, Hknown. }
  split; [by apply (vlob_sync_same_vlobs (sync w))|].
  split; [apply (vlobs_fresh_same_vlobs (sync w)); [done | lia | done]|].
  exists vlob, blob. split; [by rewrite (current_blob_same_vlobs (sync w))|].
  by apply (payload_holds_keeps (sync w)).
Qed.

(** [flush] on a ready handle. *)
Lemma flush_spec (self : addr) (w : World) (f : File) (C : bytes) :
  ready w self f C ->
  Forall nonneg_mod (modifications f) ->
  len (flushed_content (modifications f) C) <= sys_maxsize ->
  exists w',
    flush self w = (Ok tt, w')
    /\ heap w'
       = <[self := match modifications f with
                   | [] => f
                   | _ => set_dirty true (set_modifications [] f)
                   end]> (heap w)
    /\ files w' = files w
    /\ ready w' self
         (match modifications f with
          | [] => f
          | _ => set_dirty true (set_modifications [] f)
          end)
         (flushed_content (modifications f) C).
Proof.
  intros Hready Hq Hlen.
  pose proof Hready as (Hf & Hst & Hfresh & Hvs & Hvf & vlob & blob & Hcb & Hholds).
  unfold flush. unfold bind at 1. unfold get_self at 1. rewrite Hf. cbn [of_option].
  destruct (modifications f) as [|m q] eqn:Hmods.
  { exists w. split; [done|]. split; [symmetry; by apply list_insert_id|].
    split; [done|]. exact Hready. }
  rewrite <- Hmods in *.
  assert (Hne : modifications f <> []) by by rewrite Hmods.
  unfold flushed_content in *.
  pose proof (merge_queue_ok (modifications f) (ContentBuilder.init, None)
                ltac:(split; [constructor | done]) Hq) as [Hkeys Htr].
  pose proof (merge_queue_not_empty (modifications f) (ContentBuilder.init, None) Hne)
    as Hsome.
  destruct (fold_left merge_modification (modifications f) (ContentBuilder.init, None))
    as [builder tr].
  cbn [fst snd] in *.
  set (f0 := set_modifications [] f).
  unfold bind at 1. unfold set_self at 1.
  set (w0 := mkWorld _ _ _ _ _).
  assert (Hready0 : ready w0 self f0 C).
  { split; [|split; [exact Hst | split; [exact Hfresh | split; [exact Hvs | split; [exact Hvf|]]]]].
    - subst w0. cbn [heap]. by rewrite list_lookup_alter_eq, Hf.
    - exists vlob, blob. split; [exact Hcb | exact Hholds]. }
  destruct (get_blocks_ready self w0 f0 C Hready0) as (prev & w1 & Hprev & Hro1).
  unfold bind at 1. rewrite Hprev.
  pose proof (ready_only_reads _ _ _ _ _ Hro1 Hready0) as Hready1.
  set (f2 := match tr with Some _ => set_dirty true f0 | None => f0 end).
  set (C2 := match tr with
             | Some length => Reference.apply C (MTruncate length)
             | None => C
             end) in *.
  assert (Htrunc : exists w2,
            match tr with
            | Some length =>
                let* mb := _find_matching_blocks self (Some length) 0 in
                let* new_blocks := _build_file_blocks self (post_included_data mb) in
                update_vlob self (included_blocks mb ++ [new_blocks])
            | None => ret tt
            end w1 = (Ok tt, w2)
            /\ heap w2 = <[self := f2]> (heap w1)
            /\ files w2 = files w1
            /\ ready w2 self f2 C2).
  { subst f2 C2. destruct tr as [lth|].
    - apply flush_truncate_spec; [done | by apply Htr].
    - exists w1. split; [done|]. split; [|done].
      symmetry. apply list_insert_id. by destruct Hready1. }
  destruct Htrunc as (w2 & Htrunc & Hh2 & Hfs2 & Hready2).
  unfold bind at 1. rewrite Htrunc.
  destruct (flush_regions_spec self builder Hkeys w2 f2 C2 Hready2)
    as (w3 & Hregions & Hh3 & Hfs3 & Hready3).
  set (f3 := match builder with [] => f2 | _ => set_dirty true f2 end) in *.
  unfold bind at 1. rewrite Hregions.
  destruct Hready3 as (Hf3 & Hst3 & Hfresh3 & Hvs3 & Hvf3 & vlob3 & blob3 & Hcb3 & Hholds3).
  destruct (get_blocks_ready_all self w3 f3 _ vlob3 blob3 Hf3 Hcb3 Hholds3 Hlen)
    as (w4 & Hcur & Hro4).
  unfold bind at 1. rewrite Hcur.
  destruct (clean_blocks_spec (all_ids blob3) prev w4) as (w5 & Hgc & Hh5 & Hfs5 & Hrel).
  destruct Hro1 as (Hh1 & Hfs1 & _). destruct Hro4 as (Hh4 & Hfs4 & Hs4 & _).
  assert (Hf3' : f3 = set_dirty true f0).
  { subst f3 f2 f0. destruct builder, tr; try done. by destruct Hsome. }
  exists w5. split; [exact Hgc|]. split; [|split].
  - rewrite Hh5, Hh4, Hh3, Hh2, Hh1, <- Hf3'. subst w0. cbn [heap].
    by rewrite list_insert_insert_eq, insert_alter_self.
  - rewrite Hfs5, Hfs4, Hfs3, Hfs2, Hfs1. done.
  - rewrite <- Hf3'. rewrite Hs4 in Hrel.
    apply (ready_gc w3 w5 self f3 _ vlob3 blob3); try done. congruence.
Qed.

End FlushSpec.

(** ** File.create *)

Lemma alter_snoc {A} (g : A -> A) (l : list A) (x : A) :
  alter g (length l) (l ++ [x]) = l ++ [g x].
Proof.
  replace (length l) with (length l + 0)%nat by lia. by rewrite alter_app_r.
Qed.

Section Create.
Context {E : Externals}.
Context (HG : GCMLaws E) (HB : Base64Laws E) (HJ : EjsonLaws E).
Import FileEngine.

(** [File.create()] returns a new handle, registered under the id of a new
    vlob, dirty, at version 0, with nothing queued, ready and empty. *)
Lemma create_spec (w : World) :
  blocks_fresh (sync w) -> vlobs_fresh (sync w) ->
  exists w' f,
    create w = (Ok (length (heap w)), w')
    /\ heap w' = heap w ++ [f]
    /\ files w' = <[file_id f := length (heap w)]> (files w)
    /\ ready w' (length (heap w)) f []
    /\ modifications f = [] /\ dirty f = true /\ file_version f = 0.
Proof.
  intros Hfresh Hvf. unfold create. unfold bind at 1. unfold alloc_file at 1.
  set (self := length (heap w)).
  set (wa := mkWorld (heap w ++ [File_new]) _ _ _ _).
  destruct (build_file_blocks_holds HG HB self [] wa Hfresh)
    as (group & wb & Hbuild & Hhb & Hfsb & Heb & Hvb & Hfreshb & Hgroup).
  unfold bind at 1. rewrite Hbuild.
  unfold bind at 1. unfold with_entropy at 1.
  destruct (Crypto.generate_sym_key (rnd wb)) as [k r1] eqn:Hk.
  unfold bind at 1. unfold set_self at 1.
  unfold bind at 1. unfold with_entropy at 1. cbn [rnd].
  destruct (Crypto.encrypt k (ejson_dumps [group]) r1) as [c r2] eqn:Hc.
  assert (Hdec : Crypto.decrypt k c = Ok (ejson_dumps [group])).
  { replace c with (fst (Crypto.encrypt k (ejson_dumps [group]) r1)) by by rewrite Hc.
    by apply decrypt_encrypt. }
  unfold bind at 1. unfold perform at 1. cbn [sync].
  unfold Synchronizer.vlob_create.
  set (id := Synchronizer.next_id (sync wb)).
  unfold bind, set_self, registry_set, ret. cbn [heap files sync rnd trace].
  set (f := mkFile id (S id) (S (S id)) k 0 true []).
  assert (Hheap : alter (set_modifications [])
                    self
                    (alter (set_version 0) self
                       (alter (set_dirty true) self
                          (alter (set_access (mkVlobAccess id (S id) (S (S id)))) self
                             (alter (set_encryptor k) self (heap wb)))))
                  = heap w ++ [f]).
  { rewrite Hhb. subst wa. cbn [heap]. subst self. by rewrite !alter_snoc. }
  exists (mkWorld (heap w ++ [f]) (<[id := self]> (files wb))
            (Synchronizer.mk (Synchronizer.local_blocks (sync wb))
               (<[id := Synchronizer.mkStaged (S id) (S (S id)) 1 (to_jsonb64 c)]>
                  (Synchronizer.local_vlobs (sync wb)))
               (Synchronizer.backend_blocks (sync wb))
               (Synchronizer.backend_vlobs (sync wb)) (S (S (S id))))
            r2 (trace wb ++ [EVlobCreate (to_jsonb64 c)])), f.
  split; [by rewrite Hheap|]. cbn [heap files sync].
  split; [done|]. split; [by rewrite Hfsb|].
  split; [|done].
  assert (Hnone : Synchronizer.backend_vlobs (sync wb) !! id = None).
  { destruct (Synchronizer.backend_vlobs (sync wb) !! id) eqn:Hb; [|done].
    pose proof Hvb as [_ Hvb']. rewrite Hvb' in Hb.
    pose proof (Hvf id (or_intror (mk_is_Some _ _ Hb))) as Hlt.
    destruct Heb as (_ & Hle & _). subst id wa. cbn [sync] in *. lia. }
  unfold ready. cbn [heap sync]. split; [|split; [|split; [|split; [|split]]]].
  - subst self. by rewrite lookup_app_r, Nat.sub_diag by done.
  - unfold staged_ok, Synchronizer.seeds_of, Synchronizer.committed_version. cbn.
    rewrite lookup_insert_eq, Hnone. done.
  - intros id' Hk'. cbn. apply block_known_spec in Hk'. cbn in Hk'.
    apply block_known_spec in Hk'. specialize (Hfreshb id' Hk'). subst id. lia.
  - unfold vlob_sync. cbn. rewrite lookup_insert_eq. split; [done|].
    intros bv Hbv. by rewrite Hnone in Hbv.
  - intros id' Hid'. cbn in *. destruct (decide (id' = id)) as [->|Hne]; [lia|].
    rewrite lookup_insert_ne in Hid' by done.
    assert (Hvfb : vlobs_fresh (sync wb)).
    { apply (vlobs_fresh_same_vlobs (sync wa)); [done | by destruct Heb as (_ & ? & _) | done]. }
    specialize (Hvfb id' Hid'). subst id. lia.
  - eexists _, [group]. split.
    + unfold current_blob, Synchronizer.vlob_read. cbn.
      rewrite lookup_insert_eq. cbn.
      rewrite bool_decide_eq_true_2 by done.
      change (1 <=? 0 + 1) with true. cbn.
      rewrite (jsonb64_roundtrip E HB), Hdec, (ejson_roundtrip E HJ). reflexivity.
    + apply (payload_holds_keeps (sync wb)); [|done]. intros id' _.
      unfold Synchronizer.block_read. cbn.
      by destruct (Synchronizer.local_blocks (sync wb) !! id').
Qed.

End Create.

(** ** Checking that a handle is ready *)

Definition blocks_freshb (s : Synchronizer.t) : bool :=
  bool_decide (map_Forall (fun id _ => (id < Synchronizer.next_id s)%nat)
                          (Synchronizer.local_blocks s))
  && bool_decide (map_Forall (fun id _ => (id < Synchronizer.next_id s)%nat)
                             (Synchronizer.backend_blocks s)).

Definition vlobs_freshb (s : Synchronizer.t) : bool :=
  bool_decide (map_Forall (fun id _ => (id < Synchronizer.next_id s)%nat)
                          (Synchronizer.local_vlobs s))
  && bool_decide (map_Forall (fun id _ => (id < Synchronizer.next_id s)%nat)
                             (Synchronizer.backend_vlobs s)).

Definition vlob_syncb (s : Synchronizer.t) (f : File) : bool :=
  match Synchronizer.local_vlobs s !! file_id f with
  | Some sv =>
      bool_decide (dirty f = true)
      && (Synchronizer.sv_version sv =? file_version f + 1)
  | None => bool_decide (dirty f = false)
  end
  && match Synchronizer.backend_vlobs s !! file_id f with
     | Some bv =>
         bool_decide (Synchronizer.bv_read_trust_seed bv = read_trust_seed f)
         && bool_decide (Synchronizer.bv_write_trust_seed bv = write_trust_seed f)
     | None => true
     end.

Lemma blocks_freshb_sound (s : Synchronizer.t) :
  blocks_freshb s = true -> blocks_fresh s.
Proof.
  unfold blocks_freshb. rewrite andb_true_iff, !bool_decide_eq_true.
  intros [Hl Hb] id Hk. apply block_known_spec in Hk as [[c Hc]|[c Hc]].
  - by apply (Hl id c).
  - by apply (Hb id c).
Qed.

Lemma vlobs_freshb_sound (s : Synchronizer.t) :
  vlobs_freshb s = true -> vlobs_fresh s.
Proof.
  unfold vlobs_freshb. rewrite andb_true_iff, !bool_decide_eq_true.
  intros [Hl Hb] id [[v Hv]|[v Hv]].
  - by apply (Hl id v).
  - by apply (Hb id v).
Qed.

Lemma vlob_syncb_sound (s : Synchronizer.t) (f : File) :
  vlob_syncb s f = true -> vlob_sync s f.
Proof.
  unfold vlob_syncb, vlob_sync. rewrite andb_true_iff. intros [Hl Hb]. split.
  - destruct (Synchronizer.local_vlobs s !! file_id f) as [sv|].
    + apply andb_true_iff in Hl as [Hd Hv]. apply bool_decide_eq_true_1 in Hd.
      apply Z.eqb_eq in Hv. done.
    + by apply bool_decide_eq_true_1 in Hl.
  - intros bv Hbv. rewrite Hbv in Hb. apply andb_true_iff in Hb as [H1 H2].
    apply bool_decide_eq_true_1 in H1. apply bool_decide_eq_true_1 in H2. done.
Qed.

Section CheckReady.
Context {E : Externals}.

(** The handle at [self] and what its payload holds, if the handle is
    ready. *)
Definition check_ready (w : World) (self : addr) : option (File * bytes) :=
  match heap w !! self with
  | Some f =>
      if bool_decide (Synchronizer.seeds_of (file_id f) (sync w)
                      = Some (read_trust_seed f, write_trust_seed f))
         && (Synchronizer.committed_version (file_id f) (sync w) =? file_version f)
         && blocks_freshb (sync w)
         && vlob_syncb (sync w) f
         && vlobs_freshb (sync w)
      then
        match current_blob (sync w) f with
        | Ok (_, blob) =>
            match fetch_payload (sync w) blob with
            | Some content => Some (f, content)
            | None => None
            end
        | Raise _ => None
        end
      else None
  | None => None
  end.

Lemma check_ready_sound (w : World) (self : addr) (f : File) (content : bytes) :
  check_ready w self = Some (f, content) -> ready w self f content.
Proof.
  unfold check_ready, ready. intros H.
  destruct (heap w !! self) as [f'|] eqn:Hf; [|done].
  destruct (bool_decide _ && _ && _ && _ && _) eqn:Hc; [|done].
  apply andb_true_iff in Hc as [Hc Hvf]. apply andb_true_iff in Hc as [Hc Hvs].
  apply andb_true_iff in Hc as [Hc Hfresh]. apply andb_true_iff in Hc as [Hs Hv].
  apply bool_decide_eq_true_1 in Hs. apply Z.eqb_eq in Hv.
  destruct (current_blob (sync w) f') as [[vlob blob]|] eqn:Hcb; [|done].
  destruct (fetch_payload (sync w) blob) as [c|] eqn:Hp; [|done].
  injection H as <- <-.
  split; [done|]. split; [by split|]. split; [by apply blocks_freshb_sound|].
  split; [by apply vlob_syncb_sound|]. split; [by apply vlobs_freshb_sound|].
  exists vlob, blob. split; [done|]. by apply fetch_payload_holds.
Qed.

End CheckReady.

(** ** An instance of the externals with an exact payload codec *)
Module Exact.

Definition meta_tuple (bp : BlockMeta) : nat * string * Z :=
  (block bp, bm_digest bp, bm_size bp).

Definition meta_of (t : nat * string * Z) : BlockMeta :=
  mkBlockMeta (fst (fst t)) (snd (fst t)) (snd t).

Definition group_tuple (g : BlockGroup) : list (nat * string * Z) * string :=
  (map meta_tuple (blocks g), key g).

Definition group_of (t : list (nat * string * Z) * string) : BlockGroup :=
  mkBlockGroup (map meta_of (fst t)) (snd t).

Fixpoint pos_bytes (p : positive) : bytes :=
  match p with
  | xH => []
  | xO p => x00 :: pos_bytes p
  | xI p => x01 :: pos_bytes p
  end.

Fixpoint bytes_pos (l : bytes) : option positive :=
  match l with
  | [] => Some xH
  | x00 :: l => xO <$> bytes_pos l
  | x01 :: l => xI <$> bytes_pos l
  | _ => None
  end.

Definition exact_dumps (blob : list BlockGroup) : bytes :=
  pos_bytes (encode (map group_tuple blob)).

Definition exact_loads (l : bytes) : option (list BlockGroup) :=
  match bytes_pos l with
  | Some p => map group_of <$> decode p
  | None => None
  end.

#[local] Instance externals : Externals := {|
  gcm_encrypt := Sim.sim_gcm_encrypt;
  gcm_decrypt := Sim.sim_gcm_decrypt;
  digest := string_of_list_byte;
  to_jsonb64 := string_of_list_byte;
  from_jsonb64 := fun s => Some (list_byte_of_string s);
  ejson_dumps := exact_dumps;
  ejson_loads := exact_loads
|}.

End Exact.

Lemma Exact_bytes_pos (p : positive) : Exact.bytes_pos (Exact.pos_bytes p) = Some p.
Proof. induction p as [p IH|p IH|]; simpl; by rewrite ?IH. Qed.

Lemma Exact_gcm_laws : GCMLaws Exact.externals.
Proof.
  split; simpl; unfold Sim.sim_gcm_encrypt, Sim.sim_gcm_decrypt; simpl.
  - intros k iv pt. unfold Sim.tag_of.
    rewrite length_take, !length_app, length_replicate. lia.
  - intros k iv pt. apply length_rev.
  - intros k iv pt. rewrite bool_decide_eq_true_2 by done.
    by rewrite rev_involutive.
Qed.

Lemma Exact_base64_laws : Base64Laws Exact.externals.
Proof. split. intros b. simpl. by rewrite list_byte_of_string_of_list_byte. Qed.

Lemma Exact_ejson_laws : EjsonLaws Exact.externals.
Proof.
  split. intros blob. simpl. unfold Exact.exact_loads, Exact.exact_dumps.
  rewrite Exact_bytes_pos, decode_encode. simpl. f_equal.
  rewrite map_map. rewrite <- (map_id blob) at 2. apply map_ext.
  intros [bps k]. unfold Exact.group_of, Exact.group_tuple. simpl. f_equal.
  rewrite map_map. rewrite <- (map_id bps) at 2. apply map_ext. by intros [].
Qed.

(** ** Flush, read and create on a ready handle *)

Lemma flushed_content_single (m : modification) (C : bytes) :
  flushed_content [m] C = Reference.apply C m.
Proof. by destruct m. Qed.

Lemma slice_whole (d : bytes) :
  len d <= sys_maxsize -> slice 0 (0 + sys_maxsize) d = d.
Proof.
  intros H. rewrite slice_nonneg by done. rewrite drop_0. apply take_ge.
  unfold len in H. change (Z.to_nat 0) with 0%nat. lia.
Qed.

(** X9: [flush] on a ready handle returns, and the payload then holds
    [flushed_content]: the old content cut at the value the variable
    [shortest_truncate] of [flush] ends with (the last queued length that
    replaced it: one replaces it when it is unset, 0 or larger than that
    length) and overwritten by the regions of the builder in the order of
    its map. The queue is empty
    afterwards, the handle is dirty if anything was queued, it keeps its id,
    its seeds, its key and its version, and the registry is unchanged. The
    offsets and lengths queued must not be negative and the new content not
    longer than [sys.maxsize]. *)
Theorem flush_applies_queue
    (E : Externals) (HG : GCMLaws E) (HB : Base64Laws E) (HJ : EjsonLaws E)
    (self : addr) (w : World) (f : File) (C : bytes) :
  ready w self f C ->
  Forall nonneg_mod (modifications f) ->
  len (flushed_content (modifications f) C) <= sys_maxsize ->
  exists w' f',
    FileEngine.flush self w = (Ok tt, w')
    /\ heap w' = <[self := f']> (heap w)
    /\ files w' = files w
    /\ ready w' self f' (flushed_content (modifications f) C)
    /\ modifications f' = []
    /\ (modifications f <> [] -> dirty f' = true)
    /\ file_id f' = file_id f
    /\ read_trust_seed f' = read_trust_seed f
    /\ write_trust_seed f' = write_trust_seed f
    /\ encryptor f' = encryptor f
    /\ file_version f' = file_version f.
Proof.
  intros Hready Hq Hlen.
  destruct (flush_spec HG HB HJ self w f C Hready Hq Hlen)
    as (w' & Hrun & Hh & Hfs & Hready').
  eexists w', _. split; [exact Hrun|]. split; [exact Hh|]. split; [exact Hfs|].
  split; [exact Hready'|].
  destruct (modifications f) eqn:Hm; simpl; done.
Qed.

(** X10: [read] flushes first: on a ready handle it returns the requested range
    of [flushed_content], the content [flush] leaves for the queue (the old
    content cut at the value [shortest_truncate] ends with, then the
    regions of the builder written in the order of its map). *)
Theorem read_applies_queue
    (E : Externals) (HG : GCMLaws E) (HB : Base64Laws E) (HJ : EjsonLaws E)
    (self : addr) (w : World) (f : File) (C : bytes) (size : option Z) (offset : Z) :
  ready w self f C ->
  Forall nonneg_mod (modifications f) ->
  len (flushed_content (modifications f) C) <= sys_maxsize ->
  0 <= offset -> 0 <= default sys_maxsize size ->
  exists w',
    FileEngine.read self size offset w
    = (Ok (slice offset (offset + default sys_maxsize size)
             (flushed_content (modifications f) C)), w')
    /\ files w' = files w.
Proof.
  intros Hready Hq Hlen Ha Hsz.
  destruct (flush_spec HG HB HJ self w f C Hready Hq Hlen)
    as (w0 & Hrun & Hh & Hfs & (Hf0 & _ & _ & _ & _ & vlob & blob & Hcb & Hholds)).
  revert Hf0 Hcb. generalize (match modifications f with
                              | [] => f
                              | _ :: _ => set_dirty true (set_modifications [] f)
                              end).
  intros f0 Hf0 Hcb.
  pose proof (read_payload_eq self w0 f0 Hf0) as Hread. rewrite Hcb in Hread.
  destruct (read_after_flush self size offset w w0 _ vlob blob _ Hrun Hread Hholds
              Ha Hsz) as (w' & Hr & (_ & Hfs' & _)).
  exists w'. split; [exact Hr | congruence].
Qed.

(** X11: a new file, one write at offset 0 and a read of the whole file: the
    read returns the bytes written. *)
Theorem create_write_read_roundtrip
    (E : Externals) (HG : GCMLaws E) (HB : Base64Laws E) (HJ : EjsonLaws E)
    (w : World) (d : bytes) :
  blocks_fresh (sync w) -> vlobs_fresh (sync w) ->
  len d <= sys_maxsize ->
  exists self w1 w2 w3,
    FileEngine.create w = (Ok self, w1)
    /\ FileEngine.write self d 0 w1 = (Ok tt, w2)
    /\ FileEngine.read self None 0 w2 = (Ok d, w3).
Proof.
  intros Hfresh Hvf Hlen.
  destruct (create_spec HG HB HJ w Hfresh Hvf)
    as (w1 & f & Hcreate & Hh1 & Hfs1 & Hready1 & Hq & Hd & Hv).
  set (self := length (heap w)) in *.
  pose proof Hready1 as (Hf1 & Hst1 & Hfresh1 & Hvs1 & Hvf1 & vlob & blob & Hcb1 & Hholds1).
  set (f2 := set_modifications [MWrite d 0] f).
  set (w2 := mkWorld (alter (set_modifications (modifications f ++ [MWrite d 0])) self
                            (heap w1))
               (files w1) (sync w1) (rnd w1) (trace w1)).
  assert (Hwrite : FileEngine.write self d 0 w1 = (Ok tt, w2)).
  { unfold FileEngine.write, bind, get_self, set_self. by rewrite Hf1. }
  assert (Hready2 : ready w2 self f2 []).
  { split; [|split; [exact Hst1 | split; [exact Hfresh1 | split; [exact Hvs1 | split; [exact Hvf1|]]]]].
    - subst w2. cbn [heap]. rewrite list_lookup_alter_eq, Hf1. simpl.
      by rewrite Hq.
    - exists vlob, blob. split; [exact Hcb1 | exact Hholds1]. }
  assert (Hcontent : flushed_content (modifications f2) [] = d).
  { subst f2. cbn [modifications set_modifications].
    rewrite flushed_content_single. apply apply_write_empty. }
  destruct (flush_spec HG HB HJ self w2 f2 [] Hready2) as
    (w0 & Hrun & _ & _ & (Hf0 & _ & _ & _ & _ & vlob0 & blob0 & Hcb0 & Hholds0)).
  { subst f2. cbn [modifications set_modifications]. by repeat constructor. }
  { by rewrite Hcontent. }
  rewrite Hcontent in Hholds0.
  revert Hf0 Hcb0. generalize (match modifications f2 with
                               | [] => f2
                               | _ :: _ => set_dirty true (set_modifications [] f2)
                               end).
  intros f0 Hf0 Hcb0.
  pose proof (read_payload_eq self w0 f0 Hf0) as Hread. rewrite Hcb0 in Hread.
  destruct (read_after_flush self None 0 w2 w0 _ vlob0 blob0 d Hrun Hread Hholds0
              ltac:(done) ltac:(done)) as (w3 & Hr & _).
  exists self, w1, w2, w3. split; [exact Hcreate|]. split; [exact Hwrite|].
  rewrite Hr. f_equal. f_equal. cbn [default]. by apply slice_whole.
Qed.

(** The state after [File.create()], [write(b"hello", 0)] and [truncate(3)]
    in a new session with the exact codec: both modifications are queued. *)
Definition world_x_created : World :=
  run_call (E := Exact.externals) CallCreate (World_init Sim.rnd0).

Definition world_x_queued : World :=
  run_call (E := Exact.externals) (CallTruncate 0%nat 3)
    (run_call (E := Exact.externals) (CallWrite 0%nat (bs "hello") 0) world_x_created).

Definition file_x_queued : File :=
  default File_new (heap world_x_queued !! 0%nat).

Lemma flush_applies_queue_witness :
  check_ready (E := Exact.externals) world_x_queued 0%nat = Some (file_x_queued, [])
  /\ modifications file_x_queued = [MWrite (bs "hello") 0; MTruncate 3]
  /\ flushed_content (modifications file_x_queued) [] = bs "hel"
  /\ exists w' f',
       FileEngine.flush (E := Exact.externals) 0%nat world_x_queued = (Ok tt, w')
       /\ ready (E := Exact.externals) w' 0%nat f' (bs "hel")
       /\ modifications f' = [].
Proof.
  assert (H1 : check_ready (E := Exact.externals) world_x_queued 0%nat
               = Some (file_x_queued, []))
    by (vm_compute; reflexivity).
  assert (H2 : modifications file_x_queued = [MWrite (bs "hello") 0; MTruncate 3])
    by (vm_compute; reflexivity).
  assert (H3 : flushed_content (modifications file_x_queued) [] = bs "hel")
    by (vm_compute; reflexivity).
  assert (H4 : Forall nonneg_mod (modifications file_x_queued)).
  { rewrite H2. repeat constructor; simpl; lia. }
  assert (H5 : len (flushed_content (modifications file_x_queued) []) <= sys_maxsize).
  { rewrite H3. vm_compute. discriminate 1. }
  split; [exact H1|]. split; [exact H2|]. split; [exact H3|].
  destruct (flush_applies_queue Exact.externals Exact_gcm_laws Exact_base64_laws
              Exact_ejson_laws 0%nat world_x_queued file_x_queued []
              (check_ready_sound _ _ _ _ H1) H4 H5)
    as (w' & f' & Hrun & _ & _ & Hready & Hq & _).
  exists w', f'. split; [exact Hrun|]. split; [|exact Hq].
  rewrite <- H3. exact Hready.
Defined.

Lemma read_applies_queue_witness :
  check_ready (E := Exact.externals) world_x_queued 0%nat = Some (file_x_queued, [])
  /\ flushed_content (modifications file_x_queued) [] = bs "hel"
  /\ exists w',
       FileEngine.read (E := Exact.externals) 0%nat (Some 2) 1 world_x_queued
       = (Ok (bs "el"), w').
Proof.
  assert (H1 : check_ready (E := Exact.externals) world_x_queued 0%nat
               = Some (file_x_queued, []))
    by (vm_compute; reflexivity).
  assert (H2 : modifications file_x_queued = [MWrite (bs "hello") 0; MTruncate 3])
    by (vm_compute; reflexivity).
  assert (H3 : flushed_content (modifications file_x_queued) [] = bs "hel")
    by (vm_compute; reflexivity).
  assert (H4 : Forall nonneg_mod (modifications file_x_queued)).
  { rewrite H2. repeat constructor; simpl; lia. }
  assert (H5 : len (flushed_content (modifications file_x_queued) []) <= sys_maxsize).
  { rewrite H3. vm_compute. discriminate 1. }
  assert (H6 : slice 1 (1 + 2) (bs "hel") = bs "el") by (vm_compute; reflexivity).
  split; [exact H1|]. split; [exact H3|].
  destruct (read_applies_queue Exact.externals Exact_gcm_laws Exact_base64_laws
              Exact_ejson_laws 0%nat world_x_queued file_x_queued [] (Some 2) 1
              (check_ready_sound _ _ _ _ H1) H4 H5 ltac:(lia) ltac:(simpl; lia))
    as (w' & Hrun & _).
  exists w'. rewrite Hrun, H3. exact (f_equal (fun x => (Ok x, w')) H6).
Defined.

Lemma create_write_read_roundtrip_witness :
  blocks_freshb (sync (World_init Sim.rnd0)) = true
  /\ vlobs_freshb (sync (World_init Sim.rnd0)) = true
  /\ exists self w1 w2 w3,
       FileEngine.create (E := Exact.externals) (World_init Sim.rnd0) = (Ok self, w1)
       /\ FileEngine.write self (bs "hello") 0 w1 = (Ok tt, w2)
       /\ FileEngine.read (E := Exact.externals) self None 0 w2 = (Ok (bs "hello"), w3).
Proof.
  assert (H1 : blocks_freshb (sync (World_init Sim.rnd0)) = true)
    by (vm_compute; reflexivity).
  assert (H2 : vlobs_freshb (sync (World_init Sim.rnd0)) = true)
    by (vm_compute; reflexivity).
  assert (H3 : len (bs "hello") <= sys_maxsize) by (vm_compute; discriminate 1).
  split; [exact H1|]. split; [exact H2|].
  exact (create_write_read_roundtrip Exact.externals Exact_gcm_laws Exact_base64_laws
           Exact_ejson_laws (World_init Sim.rnd0) (bs "hello")
           (blocks_freshb_sound _ H1) (vlobs_freshb_sound _ H2) H3).
Defined.

(** * parsec/crypto.py: RSA hybrid encryption

    [RSAPublicKey.encrypt] draws a symmetric key, encrypts the message
    under it and prefixes the RSA-OAEP encryption of that key with its
    length, packed as [struct.pack(">I", ...)]; [RSAPrivateKey.decrypt]
    undoes it. RSA-OAEP itself belongs to the [cryptography] library and is
    a parameter. *)

Class RSAExternals := {
  rsa_public : Type;
  rsa_private : Type;
  (** [RSAPrivateKey.pub_key] *)
  rsa_pub_key : rsa_private -> rsa_public;
  (** [_hazmat_public_key.encrypt(m, OAEP)], with the randomness of the
      padding as an argument. *)
  oaep_encrypt : rsa_public -> bytes -> bytes -> bytes;
  (** [_hazmat_private_key.decrypt(c, OAEP)], [None] for [ValueError]. *)
  oaep_decrypt : rsa_private -> bytes -> option bytes
}.

(** What the embedded code relies on from RSA-OAEP. *)
Record OAEPLaws (R : RSAExternals) : Prop := {
  oaep_roundtrip : forall priv m seed,
    oaep_decrypt priv (oaep_encrypt (rsa_pub_key priv) m seed) = Some m
}.

(** The exceptions of the two methods. *)
Inductive rsa_exn :=
| StructError
| OAEPValueError
| SymKeyError (e : exn).

Inductive rsa_result (A : Type) :=
| Returned (a : A)
| Failed (e : rsa_exn).
Arguments Returned {A} a.
Arguments Failed {A} e.

Definition byte_of_Z (n : Z) : byte := default x00 (Byte.of_N (Z.to_N n)).
Definition Z_of_byte (b : byte) : Z := Z.of_N (Byte.to_N b).

(** [struct.pack(">I", n)]: four bytes, most significant first;
    [struct.error] outside of [0, 2^32). *)
Definition pack_u32 (n : Z) : option bytes :=
  if (0 <=? n) && (n <? 2 ^ 32) then
    Some [byte_of_Z (n / 2 ^ 24); byte_of_Z (n / 2 ^ 16 mod 256);
          byte_of_Z (n / 2 ^ 8 mod 256); byte_of_Z (n mod 256)]
  else None.

(** [struct.unpack(">I", b)]: [struct.error] unless [b] has four bytes. *)
Definition unpack_u32 (b : bytes) : option Z :=
  match b with
  | [b3; b2; b1; b0] =>
      Some (((Z_of_byte b3 * 256 + Z_of_byte b2) * 256 + Z_of_byte b1) * 256
            + Z_of_byte b0)
  | _ => None
  end.

Module RSA.
Section RSA.
Context {E : Externals} {R : RSAExternals}.

(** [RSAPublicKey.encrypt(message)] *)
Definition encrypt (pub : rsa_public) (message : bytes) (seed : bytes)
    (rnd : entropy) : rsa_result bytes * entropy :=
  let '(symkey, rnd) := Crypto.generate_sym_key rnd in
  let '(ciphertext, rnd) := Crypto.encrypt symkey message rnd in
  let ciphersymkey := oaep_encrypt pub (Crypto.key_of symkey) seed in
  match pack_u32 (len ciphersymkey) with
  | Some header => (Returned (header ++ ciphersymkey ++ ciphertext), rnd)
  | None => (Failed StructError, rnd)
  end.

(** [RSAPrivateKey.decrypt(ciphertext)] *)
Definition decrypt (priv : rsa_private) (ciphertext : bytes) : rsa_result bytes :=
  match unpack_u32 (slice_to 4 ciphertext) with
  | None => Failed StructError
  | Some lenciphersymkey =>
      let ciphersymkey := slice 4 (4 + lenciphersymkey) ciphertext in
      let ciphertext := slice_from (4 + lenciphersymkey) ciphertext in
      match oaep_decrypt priv ciphersymkey with
      | None => Failed OAEPValueError
      | Some raw_key =>
          match Crypto.load_sym_key raw_key with
          | Ok symkey =>
              match Crypto.decrypt symkey ciphertext with
              | Ok cleartext => Returned cleartext
              | Raise e => Failed (SymKeyError e)
              end
          | Raise e => Failed (SymKeyError e)
          end
      end
  end.

End RSA.
End RSA.

Lemma Z_of_byte_of_Z (n : Z) : 0 <= n < 256 -> Z_of_byte (byte_of_Z n) = n.
Proof.
  intros Hn. unfold Z_of_byte, byte_of_Z.
  destruct (Byte.of_N (Z.to_N n)) as [b|] eqn:Hb.
  - simpl. rewrite (Byte.to_of_N _ Hb). lia.
  - apply Byte.of_N_None_iff in Hb. lia.
Qed.

Lemma unpack_pack_u32 (n : Z) (b : bytes) :
  pack_u32 n = Some b -> unpack_u32 b = Some n /\ length b = 4%nat.
Proof.
  unfold pack_u32. destruct (Z.leb_spec 0 n) as [H0|]; [|done].
  destruct (Z.ltb_spec n (2 ^ 32)) as [H1|]; [|done]. simpl.
  intros [= <-]. split; [|done]. unfold unpack_u32.
  rewrite !Z_of_byte_of_Z.
  - f_equal. change (2 ^ 24) with 16777216. change (2 ^ 16) with 65536.
    change (2 ^ 8) with 256. change (2 ^ 32) with 4294967296 in H1.
    Z.div_mod_to_equations. lia.
  - apply Z.mod_pos_bound. lia.
  - apply Z.mod_pos_bound. lia.
  - apply Z.mod_pos_bound. lia.
  - change (2 ^ 24) with 16777216. change (2 ^ 32) with 4294967296 in H1.
    Z.div_mod_to_equations. lia.
Qed.

(** What [decrypt] slices out of [header ++ key ++ text]. *)
Lemma rsa_slices (header key text : bytes) :
  length header = 4%nat ->
  slice_to 4 (header ++ key ++ text) = header
  /\ slice 4 (4 + len key) (header ++ key ++ text) = key
  /\ slice_from (4 + len key) (header ++ key ++ text) = text.
Proof.
  intros Hh. pose proof (len_nonneg key) as Hk.
  rewrite slice_to_nonneg, slice_nonneg, slice_from_nonneg by lia.
  change (Z.to_nat 4) with 4%nat.
  replace (Z.to_nat (4 + len key)) with (4 + length key)%nat by (unfold len; lia).
  rewrite <- Hh. split; [|split].
  - by rewrite take_app_length.
  - rewrite drop_app_length. replace (length header + length key - length header)%nat
      with (length key) by lia. by rewrite take_app_length.
  - rewrite app_assoc, <- length_app. by rewrite drop_app_length.
Qed.

(** X12: [RSAPrivateKey.decrypt] returns the message [RSAPublicKey.encrypt] was
    given under the public key of the same private key, whatever the key
    and IV drawn and the randomness of the padding, when the RSA
    ciphertext of the symmetric key is shorter than [2^32] bytes (otherwise
    [struct.pack] raises and [encrypt] returns nothing); the output of
    [encrypt] is the four bytes of that length, the RSA ciphertext of the
    symmetric key and the AES ciphertext of the message. *)
Theorem RSA_decrypt_encrypt_roundtrip
    (E : Externals) (R : RSAExternals) (HG : GCMLaws E) (HO : OAEPLaws R)
    (priv : rsa_private) (message seed : bytes) (rnd : entropy) :
  let symkey := fst (Crypto.generate_sym_key rnd) in
  let ciphersymkey := oaep_encrypt (rsa_pub_key priv) (Crypto.key_of symkey) seed in
  len ciphersymkey < 2 ^ 32 ->
  exists header ciphertext,
    fst (RSA.encrypt (rsa_pub_key priv) message seed rnd)
    = Returned (header ++ ciphersymkey ++ ciphertext)
    /\ unpack_u32 header = Some (len ciphersymkey)
    /\ ciphertext
       = fst (Crypto.encrypt symkey message (snd (Crypto.generate_sym_key rnd)))
    /\ RSA.decrypt priv (header ++ ciphersymkey ++ ciphertext) = Returned message.
Proof.
  intros symkey ciphersymkey Hlen. unfold RSA.encrypt.
  subst symkey ciphersymkey.
  pose proof (proj2 (generate_sym_key_accepted rnd)) as Hacc.
  destruct (Crypto.generate_sym_key rnd) as [symkey rnd1] eqn:Hk. cbn [fst snd] in *.
  destruct (Crypto.encrypt symkey message rnd1) as [ciphertext rnd2] eqn:Hc.
  set (ciphersymkey := oaep_encrypt (rsa_pub_key priv) (Crypto.key_of symkey) seed) in *.
  destruct (pack_u32 (len ciphersymkey)) as [header|] eqn:Hp.
  - destruct (unpack_pack_u32 _ _ Hp) as [Hu Hh].
    exists header, ciphertext. cbn [fst]. split; [done|]. split; [done|].
    split; [done|]. unfold RSA.decrypt.
    destruct (rsa_slices header ciphersymkey ciphertext Hh) as (-> & Hs2 & Hs3).
    rewrite Hu, Hs2, Hs3. subst ciphersymkey.
    rewrite (oaep_roundtrip R HO), Hacc.
    replace ciphertext with (fst (Crypto.encrypt symkey message rnd1)) by by rewrite Hc.
    by rewrite (decrypt_encrypt HG).
  - unfold pack_u32 in Hp. pose proof (len_nonneg ciphersymkey).
    destruct (Z.leb_spec 0 (len ciphersymkey)); [|lia].
    destruct (Z.ltb_spec (len ciphersymkey) (2 ^ 32)); [done | lia].
Qed.

(** A toy RSA-OAEP for concrete runs: the ciphertext is the key followed
    by the reversed message; it satisfies [OAEPLaws]. *)
Module SimRSA.

Definition sim_oaep_encrypt (pub m seed : bytes) : bytes :=
  pub ++ rev m.

Definition sim_oaep_decrypt (priv c : bytes) : option bytes :=
  if bool_decide (take (length priv) c = priv)
  then Some (rev (drop (length priv) c)) else None.

#[local] Instance externals : RSAExternals := {|
  rsa_public := bytes;
  rsa_private := bytes;
  rsa_pub_key := fun priv => priv;
  oaep_encrypt := sim_oaep_encrypt;
  oaep_decrypt := sim_oaep_decrypt
|}.

End SimRSA.

Lemma SimRSA_oaep_laws : OAEPLaws SimRSA.externals.
Proof.
  split. intros priv m seed. simpl.
  unfold SimRSA.sim_oaep_decrypt, SimRSA.sim_oaep_encrypt.
  rewrite take_app_length, bool_decide_eq_true_2 by done.
  by rewrite drop_app_length, rev_involutive.
Qed.

Lemma RSA_decrypt_encrypt_roundtrip_witness :
  RSA.decrypt (E := Sim.externals) (R := SimRSA.externals) (bs "private")
    (match fst (RSA.encrypt (E := Sim.externals) (R := SimRSA.externals)
                  (@rsa_pub_key SimRSA.externals (bs "private"))
                  (bs "hello") (bs "seed") Sim.rnd0) with
     | Returned c => c
     | Failed _ => []
     end)
  = Returned (bs "hello").
Proof.
  assert (H1 : len (@oaep_encrypt SimRSA.externals
                      (@rsa_pub_key SimRSA.externals (bs "private"))
                      (Crypto.key_of (fst (Crypto.generate_sym_key Sim.rnd0)))
                      (bs "seed")) < 2 ^ 32)
    by (vm_compute; reflexivity).
  destruct (RSA_decrypt_encrypt_roundtrip Sim.externals SimRSA.externals Sim_gcm_laws
              SimRSA_oaep_laws (bs "private") (bs "hello") (bs "seed")
              Sim.rnd0 H1) as (header & ciphertext & Henc & _ & _ & Hdec).
  rewrite Henc. exact Hdec.
Defined.

(** ** File.commit *)

Lemma block_read_ok_known (id : ident) (s : Synchronizer.t) :
  Synchronizer.block_known id s = true
  <-> exists content, fst (Synchronizer.block_read id s) = Ok content.
Proof.
  split; [|intros [c Hc]; by eapply block_read_known].
  intros Hk. apply block_known_spec in Hk. unfold Synchronizer.block_read.
  destruct (Synchronizer.local_blocks s !! id) as [c|]; [by exists c|].
  destruct Hk as [[c Hc]|[c Hc]]; [done|]. rewrite Hc. by exists c.
Qed.

(** The two synchronizers answer every block read alike, assign the same
    next id and have the same vlobs. *)
Definition blocks_same (s s' : Synchronizer.t) : Prop :=
  same_vlobs s s'
  /\ Synchronizer.next_id s' = Synchronizer.next_id s
  /\ forall id, fst (Synchronizer.block_read id s')
                = fst (Synchronizer.block_read id s).

Lemma blocks_same_refl (s : Synchronizer.t) : blocks_same s s.
Proof. by repeat split. Qed.

Lemma blocks_same_trans (s1 s2 s3 : Synchronizer.t) :
  blocks_same s1 s2 -> blocks_same s2 s3 -> blocks_same s1 s3.
Proof.
  intros (A1 & A2 & A3) (B1 & B2 & B3). split; [by etrans|].
  split; [congruence|]. intros id. by rewrite B3.
Qed.

Lemma blocks_same_known (s s' : Synchronizer.t) (id : ident) :
  blocks_same s s' ->
  Synchronizer.block_known id s' = true <-> Synchronizer.block_known id s = true.
Proof. intros (_ & _ & H). rewrite !block_read_ok_known. by rewrite H. Qed.

Lemma blocks_same_fresh (s s' : Synchronizer.t) :
  blocks_same s s' -> blocks_fresh s -> blocks_fresh s'.
Proof.
  intros Hs Hf id Hk. apply (blocks_same_known s s' id Hs) in Hk.
  destruct Hs as (_ & -> & _). by apply Hf.
Qed.

(** [EBlockSynchronize] of a stored block: it stays readable. *)
Lemma block_synchronize_known (id : ident) (s : Synchronizer.t) :
  Synchronizer.block_known id s = true ->
  fst (Synchronizer.block_synchronize id s) = Ok tt
  /\ blocks_same s (snd (Synchronizer.block_synchronize id s)).
Proof.
  intros Hk. apply block_known_spec in Hk. unfold Synchronizer.block_synchronize.
  destruct (Synchronizer.local_blocks s !! id) as [c|] eqn:Hl.
  - split; [done|]. split; [done|]. split; [done|].
    intros id'. unfold Synchronizer.block_read. cbn.
    destruct (decide (id' = id)) as [->|Hne].
    + by rewrite lookup_delete_eq, lookup_insert_eq, Hl.
    + rewrite lookup_delete_ne, lookup_insert_ne by done.
      by destruct (Synchronizer.local_blocks s !! id').
  - destruct Hk as [[c Hc]|[c Hc]]; [done|]. rewrite Hc.
    split; [done | apply blocks_same_refl].
Qed.

(** Something is staged or queued: the handle is dirty or its queue is
    not empty. *)
Definition pending (f : File) : bool :=
  dirty f || match modifications f with [] => false | _ => true end.

Section Commit.
Context {E : Externals}.
Context (HG : GCMLaws E) (HB : Base64Laws E) (HJ : EjsonLaws E).
Import FileEngine.

Lemma payload_holds_known (s : Synchronizer.t) (blob : list BlockGroup)
    (content : bytes) (id : ident) :
  payload_holds s blob content -> id ∈ all_ids blob ->
  Synchronizer.block_known id s = true.
Proof.
  intros (chunkss & H & _) Hid. unfold all_ids in Hid.
  induction H as [|g chunks blob chunkss (raw & _ & _ & Hg) _ IH]; simpl in Hid.
  - by apply elem_of_nil in Hid.
  - apply elem_of_app in Hid as [Hid|Hid]; [|by apply IH].
    clear IH. induction Hg as [|bp chunk bps chunks' Hbp _ IH]; simpl in Hid.
    + by apply elem_of_nil in Hid.
    + apply elem_of_cons in Hid as [->|Hid]; [|by apply IH].
      destruct Hbp as (c & ? & Hr & _). by eapply block_read_known.
Qed.

Lemma payload_holds_same (s s' : Synchronizer.t) (blob : list BlockGroup)
    (content : bytes) :
  blocks_same s s' -> payload_holds s blob content -> payload_holds s' blob content.
Proof.
  intros (_ & _ & H). apply payload_holds_keeps. intros id _. apply H.
Qed.

(** The loop of [commit] over the blocks of the payload. *)
Lemma synchronize_blocks_spec (ids : list ident) :
  forall w,
    (forall id, id ∈ ids -> Synchronizer.block_known id (sync w) = true) ->
    exists w',
      for_each (fun _ block_id =>
                  perform (EBlockSynchronize block_id)
                          (Synchronizer.block_synchronize block_id))
               ids tt w = (Ok tt, w')
      /\ heap w' = heap w /\ files w' = files w
      /\ blocks_same (sync w) (sync w').
Proof.
  induction ids as [|id ids IH]; intros w Hk.
  - exists w. split; [done|]. split; [done|]. split; [done|]. apply blocks_same_refl.
  - destruct (block_synchronize_known id (sync w)) as [Hok Hsame].
    { apply Hk. apply list_elem_of_here. }
    set (w1 := mkWorld (heap w) (files w)
                 (snd (Synchronizer.block_synchronize id (sync w))) (rnd w)
                 (trace w ++ [EBlockSynchronize id])).
    destruct (IH w1) as (w2 & Hrun & Hh & Hfs & Hsame2).
    { intros id' Hid'. apply (blocks_same_known (sync w) _ id' Hsame).
      apply Hk. by apply list_elem_of_further. }
    exists w2. split; [|split; [done | split; [done|]]].
    + cbn [for_each]. unfold bind at 1. unfold perform at 1.
      destruct (Synchronizer.block_synchronize id (sync w)) as [r s1].
      cbn [fst snd] in *. subst r. exact Hrun.
    + by eapply blocks_same_trans.
Qed.

Lemma current_blob_inv (s : Synchronizer.t) (f : File) (vlob : vlob_atom)
    (blob : list BlockGroup) :
  current_blob s f = Ok (vlob, blob) ->
  fst (Synchronizer.vlob_read (file_id f) (read_trust_seed f)
         (Some (get_version f)) s) = Ok vlob
  /\ exists cipher encoded,
       from_jsonb64 (vlob_blob vlob) = Some cipher
       /\ Crypto.decrypt (encryptor f) cipher = Ok encoded
       /\ ejson_loads encoded = Some blob.
Proof.
  unfold current_blob. intros H.
  destruct (fst (Synchronizer.vlob_read _ _ _ s)) as [v|]; [|done].
  destruct (from_jsonb64 (vlob_blob v)) as [cipher|] eqn:Hc; [|done].
  destruct (Crypto.decrypt (encryptor f) cipher) as [encoded|] eqn:Hd; [|done].
  destruct (ejson_loads encoded) as [b|] eqn:Hl; [|done].
  injection H as -> ->. split; [done|]. by exists cipher, encoded.
Qed.

Lemma current_blob_intro (s : Synchronizer.t) (f : File) (vlob : vlob_atom)
    (blob : list BlockGroup) (cipher encoded : bytes) :
  fst (Synchronizer.vlob_read (file_id f) (read_trust_seed f)
         (Some (get_version f)) s) = Ok vlob ->
  from_jsonb64 (vlob_blob vlob) = Some cipher ->
  Crypto.decrypt (encryptor f) cipher = Ok encoded ->
  ejson_loads encoded = Some blob ->
  current_blob s f = Ok (vlob, blob).
Proof. unfold current_blob. by intros -> -> -> ->. Qed.

(** The end of [commit], after the blocks are synchronized:
    [EVlobSynchronize] and the update of the handle. *)
Definition commit_vlob (self : addr) : M commit_result :=
  let* f := get_self self in
  let* new_vlob :=
    perform (EVlobSynchronize (file_id f)) (Synchronizer.vlob_synchronize (file_id f)) in
  let* new_vlob :=
    match new_vlob with
    | SyncNothing => ret CommitNothing
    | SyncSame =>
        set_self self (fun f => set_version (file_version f + 1) f) ;;
        ret CommitTrue
    | SyncNew v =>
        registry_del (file_id f) ;;
        set_self self (set_access v) ;;
        let* f' := get_self self in
        let new_vlob := get_vlob f' in
        registry_set (file_id f') self ;;
        set_self self (fun f => set_version (file_version f + 1) f) ;;
        ret (CommitVlob new_vlob)
    end in
  set_self self (set_dirty false) ;;
  ret new_vlob.

Lemma commit_unfold (self : addr) :
  commit self
  = (flush self ;;
     let* block_ids := get_blocks self in
     for_each (fun _ block_id =>
                 perform (EBlockSynchronize block_id)
                         (Synchronizer.block_synchronize block_id))
              block_ids tt ;;
     commit_vlob self).
Proof. reflexivity. Qed.

Lemma alter_insert_self (l : list File) (self : addr) (g : File -> File) (f : File) :
  l !! self = Some f -> alter g self l = <[self := g f]> l.
Proof.
  intros Hf. apply list_eq. intros i. destruct (decide (i = self)) as [->|Hne].
  - rewrite list_lookup_alter_eq, Hf. simpl.
    symmetry. apply list_lookup_insert_eq. by eapply lookup_lt_Some.
  - by rewrite list_lookup_alter_ne, list_lookup_insert_ne.
Qed.

Lemma commit_vlob_spec (self : addr) (w : World) (f : File) (C : bytes) :
  ready w self f C ->
  modifications f = [] ->
  files w !! file_id f = Some self ->
  exists r w' f',
    commit_vlob self w = (Ok r, w')
    /\ heap w' = <[self := f']> (heap w)
    /\ ready w' self f' C
    /\ files w' !! file_id f' = Some self
    /\ dirty f' = false /\ modifications f' = [] /\ encryptor f' = encryptor f
    /\ file_version f' = (if dirty f then file_version f + 1 else file_version f)
    /\ (r = CommitNothing <-> dirty f = false).
Proof.
  intros (Hf & [Hseeds Hver] & Hfresh & [Hvs Hbv] & Hvf & vlob & blob & Hcb & Hholds)
    Hq Hreg.
  destruct (current_blob_inv _ _ _ _ Hcb) as (Hvr & cipher & encoded & Hc & Hd & Hl).
  unfold commit_vlob. unfold bind at 1. unfold get_self at 1. rewrite Hf.
  cbn [of_option]. unfold bind at 1. unfold perform at 1.
  unfold Synchronizer.vlob_synchronize.
  destruct (Synchronizer.local_vlobs (sync w) !! file_id f) as [sv|] eqn:Hlocal.
  2: { (* nothing staged *)
    assert (Hsame : set_dirty false f = f) by (destruct f; simpl in *; by subst).
    unfold bind, ret, set_self. cbn [heap files sync].
    eexists CommitNothing, _, f. split; [reflexivity|]. cbn [heap files sync].
    rewrite (alter_insert_self _ _ _ _ Hf), Hsame.
    split; [done|]. split.
    { split; [|split; [by split | split; [done | split; [|split; [done|]]]]].
      - apply list_lookup_insert_eq. by eapply lookup_lt_Some.
      - split; [cbn [sync]; by rewrite Hlocal | done].
      - by exists vlob, blob. }
    split; [done|]. split; [done|]. split; [done|]. split; [done|].
    split; [by rewrite Hvs | done]. }
  destruct Hvs as [Hdirty Hsv].
  assert (Hget : get_version f = file_version f + 1)
    by (unfold get_version; by rewrite Hdirty).
  assert (Hvlob : vlob_blob vlob = Synchronizer.sv_blob sv).
  { unfold Synchronizer.vlob_read in Hvr. rewrite Hlocal in Hvr.
    destruct (negb _); [done|]. rewrite Hget, Hsv, Z.leb_refl in Hvr.
    cbn in Hvr. by injection Hvr as <-. }
  rewrite Hvlob in Hc.
  assert (Hsv_seeds : Synchronizer.sv_read_trust_seed sv = read_trust_seed f
                      /\ Synchronizer.sv_write_trust_seed sv = write_trust_seed f).
  { unfold Synchronizer.seeds_of in Hseeds. rewrite Hlocal in Hseeds.
    by injection Hseeds as -> ->. }
  assert (Hblocks : forall s',
            Synchronizer.local_blocks s' = Synchronizer.local_blocks (sync w) ->
            Synchronizer.backend_blocks s' = Synchronizer.backend_blocks (sync w) ->
            payload_holds s' blob C).
  { intros s' Hlb Hbb. apply (payload_holds_keeps (sync w)); [|done].
    intros id _. unfold Synchronizer.block_read. rewrite Hlb, Hbb.
    by destruct (Synchronizer.local_blocks (sync w) !! id). }
  assert (Hlen0 : 0 <= file_version f).
  { rewrite <- Hver. unfold Synchronizer.committed_version.
    destruct (Synchronizer.backend_vlobs (sync w) !! file_id f); [apply len_nonneg | done]. }
  destruct (Synchronizer.backend_vlobs (sync w) !! file_id f) as [bv|] eqn:Hbackend.
  - (* the same identity is promoted *)
    destruct (Hbv bv eq_refl) as [Hbr Hbw].
    assert (Hblobs : len (Synchronizer.bv_blobs bv) = file_version f).
    { rewrite <- Hver. unfold Synchronizer.committed_version. by rewrite Hbackend. }
    set (f' := mkFile (file_id f) (read_trust_seed f) (write_trust_seed f)
                 (encryptor f) (file_version f + 1) false []).
    unfold bind, ret, set_self. cbn [heap files sync].
    eexists CommitTrue, _, f'. split; [reflexivity|]. cbn [heap files sync].
    assert (Hheap : alter (set_dirty false) self
                      (alter (fun f0 => set_version (file_version f0 + 1) f0) self (heap w))
                    = <[self := f']> (heap w)).
    { rewrite (alter_insert_self (heap w) _ _ _ Hf).
      rewrite (alter_insert_self _ self (set_dirty false)
                 (set_version (file_version f + 1) f)).
      - rewrite list_insert_insert_eq. f_equal. subst f'. unfold set_dirty, set_version.
        simpl. by rewrite Hq.
      - apply list_lookup_insert_eq. by eapply lookup_lt_Some. }
    rewrite Hheap. split; [done|]. split.
    { split; [apply list_lookup_insert_eq; by eapply lookup_lt_Some|].
      cbn [sync]. split.
      { unfold staged_ok, Synchronizer.seeds_of, Synchronizer.committed_version. cbn.
        rewrite lookup_delete_eq, lookup_insert_eq. cbn. rewrite Hbr, Hbw.
        split; [done|]. rewrite len_app, Hblobs. done. }
      split.
      { intros id Hk. apply Hfresh. apply block_known_spec in Hk.
        by apply block_known_spec. }
      split.
      { unfold vlob_sync. cbn. rewrite lookup_delete_eq, lookup_insert_eq.
        split; [done|]. intros bv' [= <-]. done. }
      split.
      { intros id [Hid|Hid]; cbn in Hid.
        - destruct (decide (id = file_id f)) as [->|Hne].
          + by rewrite lookup_delete_eq in Hid; destruct Hid.
          + rewrite lookup_delete_ne in Hid by done. apply Hvf. by left.
        - destruct (decide (id = file_id f)) as [->|Hne].
          + apply Hvf. right. by rewrite Hbackend.
          + rewrite lookup_insert_ne in Hid by done. apply Hvf. by right. }
      exists (mkVlobAtom (file_id f) (Synchronizer.sv_blob sv) (file_version f + 1)), blob.
      split; [|by apply Hblocks].
      apply (current_blob_intro _ _ _ _ cipher encoded); try done.
      unfold Synchronizer.vlob_read, Synchronizer.backend_read. cbn.
      rewrite lookup_delete_eq, lookup_insert_eq. cbn.
      rewrite Hbr, bool_decide_eq_true_2 by done. cbn.
      rewrite len_app, Hblobs. change (len [Synchronizer.sv_blob sv]) with 1.
      rewrite Z.min_id. destruct (Z.ltb_spec (file_version f + 1) 1); [lia|].
      replace (Z.to_nat (file_version f + 1 - 1))
        with (length (Synchronizer.bv_blobs bv) + 0)%nat by (unfold len in Hblobs; lia).
      by rewrite lookup_app_r, Nat.add_sub' by lia. }
    split; [exact Hreg|]. split; [done|]. split; [done|]. split; [done|].
    rewrite Hdirty. split; [done|]. split; done.
  - (* a new identity *)
    assert (Hv0 : file_version f = 0).
    { rewrite <- Hver. unfold Synchronizer.committed_version. by rewrite Hbackend. }
    set (id' := Synchronizer.next_id (sync w)).
    set (f' := mkFile id' (S id') (S (S id')) (encryptor f) 1 false []).
    unfold bind, ret, set_self, registry_del, registry_set, get_self.
    cbn [heap files sync]. rewrite Hreg.
    cbn [heap files sync].
    rewrite (alter_insert_self (heap w) _ _ _ Hf).
    rewrite list_lookup_insert_eq by by eapply lookup_lt_Some.
    cbn [of_option heap files sync].
    eexists (CommitVlob _), _, f'. split; [reflexivity|]. cbn [heap files sync].
    assert (Hheap : alter (set_dirty false) self
                      (alter (fun f0 => set_version (file_version f0 + 1) f0) self
                         (<[self := set_access (mkVlobAccess id' (S id') (S (S id'))) f]>
                            (heap w)))
                    = <[self := f']> (heap w)).
    { assert (Hlt : (self < length (heap w))%nat) by by eapply lookup_lt_Some.
      apply list_eq. intros i. destruct (decide (i = self)) as [->|Hne].
      - rewrite !list_lookup_alter_eq, !list_lookup_insert_eq by done. simpl.
        subst f'. unfold set_dirty, set_version, set_access. simpl.
        by rewrite Hq, Hv0.
      - by rewrite !list_lookup_alter_ne, !list_lookup_insert_ne. }
    rewrite Hheap. split; [done|].
    assert (Hnot_local : Synchronizer.local_vlobs (sync w) !! id' = None).
    { destruct (Synchronizer.local_vlobs (sync w) !! id') eqn:Hl'; [|done].
      pose proof (Hvf id' (or_introl (mk_is_Some _ _ Hl'))). subst id'. lia. }
    assert (Hne : id' <> file_id f).
    { intros Heq. rewrite Heq, Hlocal in Hnot_local. done. }
    split.
    { split; [apply list_lookup_insert_eq; by eapply lookup_lt_Some|].
      cbn [sync]. split.
      { unfold staged_ok, Synchronizer.seeds_of, Synchronizer.committed_version. cbn.
        rewrite lookup_delete_ne, Hnot_local, lookup_insert_eq by done. done. }
      split.
      { intros id Hk. apply block_known_spec in Hk. cbn in Hk.
        apply block_known_spec in Hk. specialize (Hfresh id Hk). cbn. lia. }
      split.
      { unfold vlob_sync. cbn.
        rewrite lookup_delete_ne, Hnot_local, lookup_insert_eq by done.
        split; [done|]. by intros bv' [= <-]. }
      split.
      { intros id [Hid|Hid]; cbn in Hid; cbn.
        - destruct (decide (id = file_id f)) as [->|Hne'].
          + by rewrite lookup_delete_eq in Hid; destruct Hid.
          + rewrite lookup_delete_ne in Hid by done.
            pose proof (Hvf id (or_introl Hid)). lia.
        - destruct (decide (id = id')) as [->|Hne']; [lia|].
          rewrite lookup_insert_ne in Hid by done.
          pose proof (Hvf id (or_intror Hid)). lia. }
      exists (mkVlobAtom id' (Synchronizer.sv_blob sv) 1), blob.
      split; [|by apply Hblocks].
      apply (current_blob_intro _ _ _ _ cipher encoded); try done.
      unfold Synchronizer.vlob_read, Synchronizer.backend_read. cbn.
      rewrite lookup_delete_ne, Hnot_local, lookup_insert_eq by done. cbn.
      by rewrite bool_decide_eq_true_2. }
    split; [by rewrite lookup_insert_eq|].
    split; [done|]. split; [done|]. split; [done|].
    rewrite Hdirty, Hv0. split; [done|]. split; done.
Qed.

(** [commit] on a ready and registered handle. *)
Lemma commit_spec (self : addr) (w : World) (f : File) (C : bytes) :
  ready w self f C ->
  files w !! file_id f = Some self ->
  Forall nonneg_mod (modifications f) ->
  len (flushed_content (modifications f) C) <= sys_maxsize ->
  exists r w' f',
    commit self w = (Ok r, w')
    /\ heap w' = <[self := f']> (heap w)
    /\ ready w' self f' (flushed_content (modifications f) C)
    /\ files w' !! file_id f' = Some self
    /\ dirty f' = false /\ modifications f' = [] /\ encryptor f' = encryptor f
    /\ file_version f' = (if pending f then file_version f + 1 else file_version f)
    /\ (r = CommitNothing <-> pending f = false).
Proof.
  intros Hready Hreg Hq Hlen.
  destruct (flush_spec HG HB HJ self w f C Hready Hq Hlen)
    as (w0 & Hflush & Hh0 & Hfs0 & Hready0).
  set (C' := flushed_content (modifications f) C) in *.
  assert (Hfacts : forall f0,
            f0 = match modifications f with
                 | [] => f
                 | _ :: _ => set_dirty true (set_modifications [] f)
                 end ->
            file_id f0 = file_id f /\ file_version f0 = file_version f
            /\ encryptor f0 = encryptor f /\ modifications f0 = []
            /\ dirty f0 = pending f).
  { intros f0 ->. unfold pending. destruct (modifications f) eqn:Hm; simpl.
    - by rewrite orb_false_r.
    - by rewrite orb_true_r. }
  revert Hh0 Hready0 Hfacts.
  generalize (match modifications f with
              | [] => f
              | _ :: _ => set_dirty true (set_modifications [] f)
              end).
  intros f0 Hh0 Hready0 Hfacts.
  destruct (Hfacts f0 eq_refl) as (Hid0 & Hv0 & Henc0 & Hq0 & Hd0). clear Hfacts.
  destruct Hready0 as (Hf0 & Hst0 & Hfresh0 & Hvs0 & Hvf0 & vlob0 & blob0 & Hcb0 & Hholds0).
  destruct (get_blocks_ready_all self w0 f0 C' vlob0 blob0 Hf0 Hcb0 Hholds0 Hlen)
    as (w1 & Hget & (Hh1 & Hfs1 & Hs1 & _)).
  destruct (synchronize_blocks_spec (all_ids blob0) w1) as (w2 & Hloop & Hh2 & Hfs2 & Hsame).
  { intros id Hid. rewrite Hs1. by eapply payload_holds_known. }
  rewrite Hs1 in Hsame.
  assert (Hready2 : ready w2 self f0 C').
  { pose proof Hsame as (Hv & Hn & _).
    split; [by rewrite Hh2, Hh1|].
    split; [by apply (staged_ok_same_vlobs (sync w0))|].
    split; [by apply (blocks_same_fresh (sync w0))|].
    split; [by apply (vlob_sync_same_vlobs (sync w0))|].
    split; [apply (vlobs_fresh_same_vlobs (sync w0)); [done | lia | done]|].
    exists vlob0, blob0. split; [by rewrite (current_blob_same_vlobs (sync w0))|].
    by apply (payload_holds_same (sync w0)). }
  destruct (commit_vlob_spec self w2 f0 C' Hready2 Hq0)
    as (r & w' & f' & Hrun & Hh' & Hready' & Hreg' & Hd' & Hq' & Henc' & Hv' & Hr').
  { by rewrite Hfs2, Hfs1, Hfs0, Hid0. }
  exists r, w', f'. split; [|split; [|split; [done|]]].
  - rewrite commit_unfold. unfold bind at 1. rewrite Hflush.
    unfold bind at 1. rewrite Hget. unfold bind at 1. rewrite Hloop. exact Hrun.
  - rewrite Hh', Hh2, Hh1, Hh0. apply list_insert_insert_eq.
  - split; [done|]. split; [done|]. split; [done|]. split; [congruence|].
    rewrite Hv', Hd0, Hv0. split; [done|]. by rewrite Hr', Hd0.
Qed.

End Commit.

(** X14: [commit] on a consistent, registered handle returns; afterwards
    the handle is clean ([dirty] is [False], the queue is empty), still
    registered under its id (a new id when the vlob is committed for the
    first time), has the same key, and is consistent again with a payload
    that holds the content [flush] leaves. Its version is one more than
    before if anything was staged or queued; otherwise it is unchanged
    and [commit] returns the falsy answer of [EVlobSynchronize]. *)
Theorem commit_keeps_content
    (E : Externals) (HG : GCMLaws E) (HB : Base64Laws E) (HJ : EjsonLaws E)
    (self : addr) (w : World) (f : File) (C : bytes) :
  ready w self f C ->
  files w !! file_id f = Some self ->
  Forall nonneg_mod (modifications f) ->
  len (flushed_content (modifications f) C) <= sys_maxsize ->
  exists r w' f',
    FileEngine.commit self w = (Ok r, w')
    /\ heap w' = <[self := f']> (heap w)
    /\ ready w' self f' (flushed_content (modifications f) C)
    /\ files w' !! file_id f' = Some self
    /\ dirty f' = false /\ modifications f' = [] /\ encryptor f' = encryptor f
    /\ file_version f' = (if pending f then file_version f + 1 else file_version f)
    /\ (r = CommitNothing <-> pending f = false).
Proof. by apply commit_spec. Qed.

Lemma commit_keeps_content_witness :
  check_ready (E := Exact.externals) world_x_queued 0%nat = Some (file_x_queued, [])
  /\ files world_x_queued !! file_id file_x_queued = Some 0%nat
  /\ exists r w' f',
       FileEngine.commit (E := Exact.externals) 0%nat world_x_queued = (Ok r, w')
       /\ ready (E := Exact.externals) w' 0%nat f' (bs "hel")
       /\ dirty f' = false
       /\ file_version f' = 1.
Proof.
  assert (H1 : check_ready (E := Exact.externals) world_x_queued 0%nat
               = Some (file_x_queued, []))
    by (vm_compute; reflexivity).
  assert (H2 : modifications file_x_queued = [MWrite (bs "hello") 0; MTruncate 3])
    by (vm_compute; reflexivity).
  assert (H3 : flushed_content (modifications file_x_queued) [] = bs "hel")
    by (vm_compute; reflexivity).
  assert (H4 : Forall nonneg_mod (modifications file_x_queued)).
  { rewrite H2. repeat constructor; simpl; lia. }
  assert (H5 : len (flushed_content (modifications file_x_queued) []) <= sys_maxsize).
  { rewrite H3. vm_compute. discriminate 1. }
  assert (H6 : files world_x_queued !! file_id file_x_queued = Some 0%nat)
    by (vm_compute; reflexivity).
  assert (H7 : (if pending file_x_queued then file_version file_x_queued + 1
                else file_version file_x_queued) = 1)
    by (vm_compute; reflexivity).
  split; [exact H1|]. split; [exact H6|].
  destruct (commit_keeps_content Exact.externals Exact_gcm_laws Exact_base64_laws
              Exact_ejson_laws 0%nat world_x_queued file_x_queued []
              (check_ready_sound _ _ _ _ H1) H6 H4 H5)
    as (r & w' & f' & Hrun & _ & Hready & _ & Hd & _ & _ & Hv & _).
  exists r, w', f'. split; [exact Hrun|]. split; [by rewrite <- H3|].
  split; [exact Hd|]. by rewrite Hv.
Defined.

(** ** File.load and File.get_vlob *)

Section Load.
Context {E : Externals}.
Context (HB : Base64Laws E).
Import FileEngine.

(** The part of [ready] that speaks of the synchronizer only. *)
Definition ready_at (s : Synchronizer.t) (f : File) (content : bytes) : Prop :=
  staged_ok s f
  /\ blocks_fresh s
  /\ vlob_sync s f
  /\ vlobs_fresh s
  /\ exists vlob blob,
       current_blob s f = Ok (vlob, blob)
       /\ payload_holds s blob content.

Lemma ready_split (w : World) (self : addr) (f : File) (content : bytes) :
  ready w self f content
  <-> heap w !! self = Some f /\ ready_at (sync w) f content.
Proof. reflexivity. Qed.

(** What [EVlobRead] with no version answers for the vlob of a ready
    handle: its current version, which is the one after [self.version] when
    one is staged. *)
Lemma vlob_read_latest (s : Synchronizer.t) (f : File) (content : bytes) :
  ready_at s f content ->
  exists blob,
    Synchronizer.vlob_read (file_id f) (read_trust_seed f) None s
    = (Ok (mkVlobAtom (file_id f) blob (get_version f)), s)
    /\ (file_id f ∈ dom (Synchronizer.local_vlobs s) <-> dirty f = true).
Proof.
  intros ([Hseeds Hver] & _ & [Hvs Hbv] & _ & vlob & blob & Hcb & _).
  unfold current_blob in Hcb.
  destruct (fst (Synchronizer.vlob_read (file_id f) (read_trust_seed f)
                   (Some (get_version f)) s)) as [v|] eqn:Hvr; [|done].
  clear Hcb. unfold Synchronizer.vlob_read, Synchronizer.seeds_of in *.
  unfold get_version in *.
  destruct (Synchronizer.local_vlobs s !! file_id f) as [sv|] eqn:Hlocal.
  - destruct Hvs as [Hd Hsv]. injection Hseeds as Hr Hw.
    rewrite Hr, bool_decide_eq_true_2 by done. cbn [negb].
    rewrite Hd, Hsv. eexists. split; [reflexivity|].
    split; [done|]. intros _. apply elem_of_dom. by rewrite Hlocal.
  - rewrite Hvs in *.
    destruct (Synchronizer.backend_vlobs s !! file_id f) as [bv|] eqn:Hbackend; [|done].
    unfold Synchronizer.committed_version in Hver. rewrite Hbackend in Hver.
    unfold Synchronizer.backend_read in *. rewrite Hbackend in *.
    destruct (negb _); [done|]. rewrite Hver, Z.min_id in Hvr. rewrite Hver.
    destruct (file_version f <? 1); [done|].
    destruct (Synchronizer.bv_blobs bv !! Z.to_nat (file_version f - 1)) as [b|];
      [|done].
    eexists. split; [reflexivity|]. split; [|done].
    intros Hin. apply elem_of_dom in Hin. rewrite Hlocal in Hin. by destruct Hin.
Qed.

(** [File.load] with the access [get_vlob()] gave for a handle, in a
    session where the id is not registered. *)
Lemma load_spec (w : World) (f : File) (content : bytes) :
  files w !! file_id f = None ->
  key_ok (Crypto.key_of (encryptor f)) ->
  ready_at (sync w) f content ->
  modifications f = [] ->
  exists w',
    load (vd_id (get_vlob f)) (vd_key (get_vlob f))
         (vd_read_trust_seed (get_vlob f)) (vd_write_trust_seed (get_vlob f))
         None w
    = (Ok (length (heap w)), w')
    /\ heap w' = heap w ++ [f]
    /\ files w' = <[file_id f := length (heap w)]> (files w)
    /\ sync w' = sync w
    /\ ready w' (length (heap w)) f content.
Proof.
  intros Hreg Hok Hready Hq.
  destruct (vlob_read_latest (sync w) f content Hready) as (blob & Hread & Hlist).
  unfold load, get_vlob. cbn [vd_id vd_key vd_read_trust_seed vd_write_trust_seed].
  unfold bind at 1. unfold registry_lookup at 1. rewrite Hreg.
  unfold bind at 1. unfold alloc_file at 1.
  set (self := length (heap w)).
  unfold bind at 1. unfold set_self at 1. cbn [heap files sync rnd trace].
  unfold bind at 1. unfold lift_result at 1.
  rewrite (jsonb64_roundtrip E HB). cbn [of_option].
  unfold bind at 1. unfold lift_result at 1.
  rewrite (load_sym_key_key_ok _ Hok).
  unfold bind at 1. unfold set_self at 1. cbn [heap files sync rnd trace].
  unfold bind at 1. unfold perform at 1. cbn [heap files sync rnd trace].
  rewrite Hread.
  unfold bind at 1. unfold set_self at 1. cbn [heap files sync rnd trace].
  unfold bind at 1. unfold set_self at 1. cbn [heap files sync rnd trace].
  unfold bind at 1. unfold perform at 1. unfold Synchronizer.vlob_list.
  cbn [heap files sync rnd trace vlob_id vlob_version].
  assert (Hkey : mkAESKey (Crypto.key_of (encryptor f)) = encryptor f)
    by by destruct (encryptor f).
  destruct (dirty f) eqn:Hd.
  - rewrite bool_decide_eq_true_2 by by apply Hlist.
    unfold bind, set_self, registry_set, ret. cbn [heap files sync rnd trace].
    eexists. split; [reflexivity|]. cbn [heap files sync].
    assert (Hheap : forall l, l = heap w ++ [File_new] ->
              alter (set_modifications []) self
                (alter (fun f0 => set_version (file_version f0 - 1) f0) self
                   (alter (set_dirty true) self
                      (alter (set_dirty false) self
                         (alter (set_version (get_version f)) self
                            (alter (set_encryptor
                                      (mkAESKey (Crypto.key_of (encryptor f))))
                               self
                               (alter (set_access
                                         (mkVlobAccess (file_id f) (read_trust_seed f)
                                            (write_trust_seed f))) self l))))))
              = heap w ++ [f]).
    { intros l ->. subst self. rewrite !alter_snoc. f_equal. f_equal.
      unfold set_modifications, set_version, set_dirty, set_encryptor, set_access,
        get_version. simpl. rewrite Hkey, Hd.
      destruct f; simpl in *. subst. f_equal. lia. }
    rewrite (Hheap _ eq_refl). split; [done|]. split; [done|]. split; [done|].
    apply ready_split. cbn [heap sync]. split; [|done].
    subst self. by rewrite lookup_app_r, Nat.sub_diag by done.
  - rewrite bool_decide_eq_false_2
      by (intros Hin; apply Hlist in Hin; done).
    unfold bind, set_self, registry_set, ret. cbn [heap files sync rnd trace].
    eexists. split; [reflexivity|]. cbn [heap files sync].
    assert (Hheap : forall l, l = heap w ++ [File_new] ->
              alter (set_modifications []) self
                (alter (set_dirty false) self
                   (alter (set_version (get_version f)) self
                      (alter (set_encryptor
                                (mkAESKey (Crypto.key_of (encryptor f))))
                         self
                         (alter (set_access
                                   (mkVlobAccess (file_id f) (read_trust_seed f)
                                      (write_trust_seed f))) self l))))
              = heap w ++ [f]).
    { intros l ->. subst self. rewrite !alter_snoc. f_equal. f_equal.
      unfold set_modifications, set_version, set_dirty, set_encryptor, set_access,
        get_version. simpl. rewrite Hkey, Hd.
      destruct f; simpl in *. by subst. }
    rewrite (Hheap _ eq_refl). split; [done|]. split; [done|]. split; [done|].
    apply ready_split. cbn [heap sync]. split; [|done].
    subst self. by rewrite lookup_app_r, Nat.sub_diag by done.
Qed.

End Load.

(** X15: [File.load] called with the access [get_vlob()] gives for a handle
    (its id, its two seeds and its encoded key, of a size [AES] accepts as
    every key the code constructs), with no version, in a session where
    that id is not registered and the synchronizer is in a state in which
    the handle would be consistent: it returns a new
    handle with the same id, seeds, key, version and dirty flag (dirty, at
    the version before the staged one, exactly when the vlob is staged),
    with an empty queue, registers it under the id, leaves the synchronizer
    as it is, and the new handle is consistent with the same content. *)
Theorem load_restores_handle
    (E : Externals) (HB : Base64Laws E) (w : World) (f : File) (content : bytes) :
  files w !! file_id f = None ->
  key_ok (Crypto.key_of (encryptor f)) ->
  ready_at (sync w) f content ->
  modifications f = [] ->
  exists w',
    FileEngine.load (vd_id (FileEngine.get_vlob f)) (vd_key (FileEngine.get_vlob f))
      (vd_read_trust_seed (FileEngine.get_vlob f))
      (vd_write_trust_seed (FileEngine.get_vlob f)) None w
    = (Ok (length (heap w)), w')
    /\ heap w' = heap w ++ [f]
    /\ files w' = <[file_id f := length (heap w)]> (files w)
    /\ sync w' = sync w
    /\ ready w' (length (heap w)) f content.
Proof. by apply load_spec. Qed.


(** A new session over the synchronizer of [world_x_created]: no handle,
    nothing registered. *)
Definition world_x_new_session : World :=
  mkWorld [] ∅ (sync world_x_created) Sim.rnd0 [].

Definition file_x_created : File :=
  default File_new (heap world_x_created !! 0%nat).

Lemma load_restores_handle_witness :
  check_ready (E := Exact.externals) world_x_created 0%nat = Some (file_x_created, [])
  /\ files world_x_new_session !! file_id file_x_created = None
  /\ key_ok (Crypto.key_of (encryptor file_x_created))
  /\ modifications file_x_created = []
  /\ exists w',
       FileEngine.load (E := Exact.externals)
         (vd_id (FileEngine.get_vlob (E := Exact.externals) file_x_created))
         (vd_key (FileEngine.get_vlob (E := Exact.externals) file_x_created))
         (vd_read_trust_seed (FileEngine.get_vlob (E := Exact.externals) file_x_created))
         (vd_write_trust_seed (FileEngine.get_vlob (E := Exact.externals) file_x_created))
         None world_x_new_session
       = (Ok (length (heap world_x_new_session)), w')
       /\ heap w' = heap world_x_new_session ++ [file_x_created].
Proof.
  assert (H1 : check_ready (E := Exact.externals) world_x_created 0%nat
               = Some (file_x_created, []))
    by (vm_compute; reflexivity).
  assert (H2 : files world_x_new_session !! file_id file_x_created = None)
    by (vm_compute; reflexivity).
  assert (H3 : modifications file_x_created = []) by (vm_compute; reflexivity).
  assert (H4 : key_ok (Crypto.key_of (encryptor file_x_created)))
    by (right; right; vm_compute; reflexivity).
  pose proof (proj2 (proj1 (ready_split world_x_created 0%nat file_x_created [])
                      (check_ready_sound world_x_created 0%nat file_x_created [] H1)))
    as H5.
  split; [exact H1|]. split; [exact H2|]. split; [exact H4|]. split; [exact H3|].
  destruct (load_restores_handle Exact.externals Exact_base64_laws world_x_new_session
              file_x_created [] H2 H4 H5 H3)
    as (w' & Hrun & Hheap & _).
  exists w'. split; [exact Hrun | exact Hheap].
Defined.
